(** * Slendytubbies Nightmare: player, monster and session orchestrator

    A shallow embedding of the per-frame logic of [src/components/Player.tsx]
    (the [Player] component and, below the separator, the [App] orchestrator)
    and of the [Monster] component ([src/unnamed/part_000]).

    JavaScript numbers are IEEE binary64 values.  The embedding is written
    once over an interface [JsNum] of the arithmetic the source uses, and is
    read in two ways:
    - [Float64], Rocq's primitive binary64 floats: what the engine computes,
      including infinities and NaN; definitions run with [vm_compute];
    - [Exact], the real numbers: the idealised arithmetic in which the
      numeric statements of the specification are phrased.  In [R] a division
      by zero yields [0], so statements read in [Exact] keep every divisor
      non-zero by hypothesis.
    Statements that only follow the control flow are proved for every
    [JsNum]. *)

From Stdlib Require Import Bool List ZArith QArith Reals Lra Lia Psatz.
From Stdlib Require Import Floats.
From Stdlib Require Uint63.
From Stdlib Require String DecimalString.
Import ListNotations.

Close Scope Q_scope.
Set Implicit Arguments.

(** ** JavaScript numbers *)

Class JsNum (T : Type) : Type := {
  lit : Q -> T;                 (* a decimal literal of the source text *)
  add : T -> T -> T;
  sub : T -> T -> T;
  mul : T -> T -> T;
  div : T -> T -> T;
  ltb : T -> T -> bool;         (* a < b *)
  leb : T -> T -> bool;         (* a <= b *)
  eqb : T -> T -> bool;         (* a === b *)
  truthy : T -> bool;           (* ToBoolean: false for 0 and NaN *)
  Math_sqrt : T -> T;
  Math_abs : T -> T;
  Math_max : T -> T -> T;
  Math_min : T -> T -> T
}.

Declare Scope js_scope.
Delimit Scope js_scope with js.
Infix "+" := add : js_scope.
Infix "-" := sub : js_scope.
Infix "*" := mul : js_scope.
Infix "/" := div : js_scope.
Infix "<?" := ltb : js_scope.
Infix "<=?" := leb : js_scope.
Infix "===" := eqb (at level 70, no associativity) : js_scope.
Notation "a >=? b" := (leb b a) (at level 70, no associativity) : js_scope.

(** [Number(b)] for a boolean [b]. *)
Definition Number {T} `{JsNum T} (b : bool) : T :=
  if b then lit 1 else lit 0.

(** The functions of [Math] whose results the engine only approximates; they
    feed orientation and animation, never a position. *)
Class JsMath (T : Type) : Type := {
  Math_sin : T -> T;
  Math_cos : T -> T;
  Math_atan2 : T -> T -> T
}.

(** *** Binary64 *)

Module F64.

Definition of_Z (n : Z) : float :=
  match n with
  | Z0 => PrimFloat.zero
  | Zpos _ => PrimFloat.of_uint63 (Uint63.of_Z n)
  | Zneg p => PrimFloat.opp (PrimFloat.of_uint63 (Uint63.of_Z (Zpos p)))
  end.

(** A decimal literal denotes the double nearest to its value: numerator and
    denominator are exact, and the division rounds once. *)
Definition of_Q (q : Q) : float :=
  PrimFloat.div (of_Z (Qnum q)) (of_Z (Zpos (Qden q))).

Definition is_zero_or_nan (a : float) : bool :=
  PrimFloat.is_nan a || PrimFloat.eqb a PrimFloat.zero.

(** [Math.max]: NaN if either argument is, and [+0] above [-0]. *)
Definition max (a b : float) : float :=
  if PrimFloat.is_nan a || PrimFloat.is_nan b then PrimFloat.nan
  else if PrimFloat.ltb a b then b
  else if PrimFloat.ltb b a then a
  else if PrimFloat.get_sign a then b else a.

(** [Math.min]: NaN if either argument is, and [-0] below [+0]. *)
Definition min (a b : float) : float :=
  if PrimFloat.is_nan a || PrimFloat.is_nan b then PrimFloat.nan
  else if PrimFloat.ltb a b then a
  else if PrimFloat.ltb b a then b
  else if PrimFloat.get_sign a then a else b.

End F64.

#[export] Instance Float64 : JsNum float := {
  lit := F64.of_Q;
  add := PrimFloat.add;
  sub := PrimFloat.sub;
  mul := PrimFloat.mul;
  div := PrimFloat.div;
  ltb := PrimFloat.ltb;
  leb := PrimFloat.leb;
  eqb := PrimFloat.eqb;
  truthy := fun a => negb (F64.is_zero_or_nan a);
  Math_sqrt := PrimFloat.sqrt;
  Math_abs := PrimFloat.abs;
  Math_max := F64.max;
  Math_min := F64.min
}.

(** *** Exact arithmetic *)

Module Real.

Definition ltb (a b : R) : bool := if Rlt_dec a b then true else false.
Definition leb (a b : R) : bool := if Rle_dec a b then true else false.
Definition eqb (a b : R) : bool := if Req_dec_T a b then true else false.

(** [Math.atan2(b, a)], the angle of the point [(a, b)]. *)
Definition atan2 (b a : R) : R :=
  (if Rlt_dec 0 a then atan (b / a)
   else if Rlt_dec a 0 then
     if Rle_dec 0 b then atan (b / a) + PI else atan (b / a) - PI
   else if Rlt_dec 0 b then PI / 2
   else if Rlt_dec b 0 then - PI / 2
   else 0)%R.

End Real.

#[export] Instance Exact : JsNum R := {
  lit := Q2R;
  add := Rplus;
  sub := Rminus;
  mul := Rmult;
  div := Rdiv;
  ltb := Real.ltb;
  leb := Real.leb;
  eqb := Real.eqb;
  truthy := fun a => negb (Real.eqb a 0%R);
  Math_sqrt := R_sqrt.sqrt;
  Math_abs := Rabs;
  Math_max := Rmax;
  Math_min := Rmin
}.

#[export] Instance ExactMath : JsMath R := {
  Math_sin := sin;
  Math_cos := cos;
  Math_atan2 := Real.atan2
}.

(** ** The parts of three.js the components call

    three.js is a dependency, not part of the repository; the definitions
    follow the methods of its [Vector3], [Quaternion] and [MathUtils]. *)

Module THREE.

Record Vector3 (T : Type) : Type := mkVector3 { x : T; y : T; z : T }.
Record Euler (T : Type) : Type := mkEuler { ex : T; ey : T; ez : T }.
Record Quaternion (T : Type) : Type :=
  mkQuaternion { qx : T; qy : T; qz : T; qw : T }.

Arguments mkVector3 {T} _ _ _.
Arguments mkEuler {T} _ _ _.
Arguments mkQuaternion {T} _ _ _ _.

Section Ops.
Context {T : Type} `{JsNum T}.
Local Open Scope js_scope.

Definition subVectors (a b : Vector3 T) : Vector3 T :=
  mkVector3 (x a - x b) (y a - y b) (z a - z b).

Definition addVector (a b : Vector3 T) : Vector3 T :=
  mkVector3 (x a + x b) (y a + y b) (z a + z b).

Definition multiplyScalar (v : Vector3 T) (s : T) : Vector3 T :=
  mkVector3 (x v * s) (y v * s) (z v * s).

Definition divideScalar (v : Vector3 T) (s : T) : Vector3 T :=
  multiplyScalar v (lit 1 / s).

Definition length (v : Vector3 T) : T :=
  Math_sqrt (x v * x v + y v * y v + z v * z v).

(** [normalize() { return this.divideScalar( this.length() || 1 ); }] *)
Definition normalize (v : Vector3 T) : Vector3 T :=
  divideScalar v (if truthy (length v) then length v else lit 1).

Definition distanceToSquared (a b : Vector3 T) : T :=
  let dx := x a - x b in
  let dy := y a - y b in
  let dz := z a - z b in
  dx * dx + dy * dy + dz * dz.

Definition distanceTo (a b : Vector3 T) : T :=
  Math_sqrt (distanceToSquared a b).

(** [Vector3.lerp]: [this.x += ( v.x - this.x ) * alpha], per component. *)
Definition Vector3_lerp (a v : Vector3 T) (alpha : T) : Vector3 T :=
  mkVector3 (x a + (x v - x a) * alpha)
            (y a + (y v - y a) * alpha)
            (z a + (z v - z a) * alpha).

Definition applyQuaternion (v : Vector3 T) (q : Quaternion T) : Vector3 T :=
  let tx := lit 2 * (qy q * z v - qz q * y v) in
  let ty := lit 2 * (qz q * x v - qx q * z v) in
  let tz := lit 2 * (qx q * y v - qy q * x v) in
  mkVector3 (x v + qw q * tx + qy q * tz - qz q * ty)
            (y v + qw q * ty + qz q * tx - qx q * tz)
            (z v + qw q * tz + qx q * ty - qy q * tx).

(** [MathUtils.clamp( value, min, max )] *)
Definition clamp (value lo hi : T) : T := Math_max lo (Math_min hi value).

(** [MathUtils.lerp( x, y, t )] *)
Definition lerp (a b t : T) : T := (lit 1 - t) * a + t * b.

Context `{JsMath T}.

(** [Quaternion.setFromEuler] for the default order XYZ. *)
Definition setFromEuler (e : Euler T) : Quaternion T :=
  let c1 := Math_cos (ex e / lit 2) in
  let c2 := Math_cos (ey e / lit 2) in
  let c3 := Math_cos (ez e / lit 2) in
  let s1 := Math_sin (ex e / lit 2) in
  let s2 := Math_sin (ey e / lit 2) in
  let s3 := Math_sin (ez e / lit 2) in
  mkQuaternion (s1 * c2 * c3 + c1 * s2 * s3)
               (c1 * s2 * c3 - s1 * c2 * s3)
               (c1 * c2 * s3 + s1 * s2 * c3)
               (c1 * c2 * c3 - s1 * s2 * s3).

Definition applyEuler (v : Vector3 T) (e : Euler T) : Vector3 T :=
  applyQuaternion v (setFromEuler e).

End Ops.

(** The camera object shared by both components: [Player] writes its
    position, pointer-lock controls write its orientation, [Monster] reads
    both. *)
Record Camera (T : Type) : Type := mkCamera {
  position : Vector3 T;
  rotation : Euler T;
  quaternion : Quaternion T
}.

End THREE.

Import THREE.

(** ** Shared types ([types.ts], as used by the two files) *)

Inductive GameState : Type := START | PLAYING | GAMEOVER | WIN.

Inductive ObstacleType : Type := tree | rock | willow | dead_tree.

(** [position] is the array [[x, 0, z]]; the collision code reads indices
    0 and 2. *)
Record Obstacle (T : Type) : Type := mkObstacle {
  obs_position : T * T * T;
  radius : T;
  obs_type : ObstacleType;
  scale : T
}.

Definition position0 {T} (o : Obstacle T) : T := fst (fst (obs_position o)).
Definition position2 {T} (o : Obstacle T) : T := snd (obs_position o).

(** ** The player ([Player] in [src/components/Player.tsx]) *)

Module Player.

Record MoveState : Type := mkMoveState {
  forward : bool;
  backward : bool;
  left : bool;
  right : bool;
  sprint : bool;
  jump : bool
}.

Record Props (T : Type) : Type := mkProps {
  flashlightOn : bool;
  isScaring : bool;
  battery : T;
  obstacles : list (Obstacle T);
  soundVolume : T;
  canWin : bool;
  active : bool
}.

(** The refs of the component.  [footstepAudio] records whether the audio
    element has been created by the mount effect. *)
Record State (T : Type) : Type := mkState {
  moveState : MoveState;
  velocity : Vector3 T;
  verticalVelocity : T;
  isGrounded : bool;
  footstepAudio : bool;
  footstepTimer : T
}.

(** Calls made on the outside during one handler or frame, in call order. *)
Inductive Event (T : Type) : Type :=
| onWin
| playStep (volume : T)
| onToggleFlashlight
| onInteract.

Arguments onWin {T}.
Arguments onToggleFlashlight {T}.
Arguments onInteract {T}.

Inductive KeyCode : Type :=
  KeyW | KeyS | KeyA | KeyD | ShiftLeft | Space | KeyF | KeyE | OtherKey.

Section Component.
Context {T : Type} `{JsNum T} `{JsMath T}.
Local Open Scope js_scope.

Definition WALK_SPEED : T := lit 5.
Definition SPRINT_SPEED : T := lit 9.
Definition JUMP_FORCE : T := lit 8.5.
Definition GRAVITY : T := lit 22.
Definition GROUND_Y : T := lit 1.7.
Definition WORLD_BOUNDARY : T := lit 98.5.
Definition WIN_ZONE_POSITION : Vector3 T :=
  mkVector3 (lit 0) (lit 0) (lit (-40)).
Definition WIN_DISTANCE : T := lit 5.
Definition PLAYER_RADIUS : T := lit 0.6.
Definition FOOTSTEP_INTERVAL_WALK : T := lit 0.42.
Definition FOOTSTEP_INTERVAL_SPRINT : T := lit 0.28.

(** The state at mount: [useRef] initial values, before the mount effect. *)
Definition initial : State T :=
  mkState (mkMoveState false false false false false false)
          (mkVector3 (lit 0) (lit 0) (lit 0)) (lit 0) true false (lit 0).

(** The mount effect creates the footstep audio element. *)
Definition useEffect (st : State T) : State T :=
  mkState (moveState st) (velocity st) (verticalVelocity st) (isGrounded st)
          true (footstepTimer st).

(** *** Key handlers *)

Definition handleKeyDown (props : Props T) (st : State T) (code : KeyCode)
  : State T * list (Event T) :=
  if negb (active props) || isScaring props then (st, [])
  else
    let m := moveState st in
    let withMove m' :=
      mkState m' (velocity st) (verticalVelocity st) (isGrounded st)
              (footstepAudio st) (footstepTimer st) in
    match code with
    | KeyW => (withMove (mkMoveState true (backward m) (left m) (right m)
                                     (sprint m) (jump m)), [])
    | KeyS => (withMove (mkMoveState (forward m) true (left m) (right m)
                                     (sprint m) (jump m)), [])
    | KeyA => (withMove (mkMoveState (forward m) (backward m) true (right m)
                                     (sprint m) (jump m)), [])
    | KeyD => (withMove (mkMoveState (forward m) (backward m) (left m) true
                                     (sprint m) (jump m)), [])
    | ShiftLeft => (withMove (mkMoveState (forward m) (backward m) (left m)
                                          (right m) true (jump m)), [])
    | Space =>
        if isGrounded st then
          (mkState m (velocity st) JUMP_FORCE false
                   (footstepAudio st) (footstepTimer st), [])
        else (st, [])
    | KeyF => (st, [onToggleFlashlight])
    | KeyE => (st, [onInteract])
    | OtherKey => (st, [])
    end.

Definition handleKeyUp (st : State T) (code : KeyCode) : State T :=
  let m := moveState st in
  let withMove m' :=
    mkState m' (velocity st) (verticalVelocity st) (isGrounded st)
            (footstepAudio st) (footstepTimer st) in
  match code with
  | KeyW => withMove (mkMoveState false (backward m) (left m) (right m)
                                  (sprint m) (jump m))
  | KeyS => withMove (mkMoveState (forward m) false (left m) (right m)
                                  (sprint m) (jump m))
  | KeyA => withMove (mkMoveState (forward m) (backward m) false (right m)
                                  (sprint m) (jump m))
  | KeyD => withMove (mkMoveState (forward m) (backward m) (left m) false
                                  (sprint m) (jump m))
  | ShiftLeft => withMove (mkMoveState (forward m) (backward m) (left m)
                                       (right m) false (jump m))
  | _ => st
  end.

(** *** The frame callback, stage by stage *)

Definition isMoving (m : MoveState) : bool :=
  forward m || backward m || left m || right m.

Definition isSprinting (m : MoveState) : bool := isMoving m && sprint m.

Definition currentSpeed (m : MoveState) : T :=
  if isSprinting m then SPRINT_SPEED else WALK_SPEED.

(** Lines 159-163: the velocity the keys ask for, turned by the camera yaw. *)
Definition direction (m : MoveState) (cam : Camera T) : Vector3 T :=
  let frontVector :=
    mkVector3 (lit 0) (lit 0) (Number (backward m) - Number (forward m)) in
  let sideVector :=
    mkVector3 (Number (left m) - Number (right m)) (lit 0) (lit 0) in
  applyEuler
    (multiplyScalar (normalize (subVectors frontVector sideVector))
                    (currentSpeed m))
    (mkEuler (lit 0) (ey (rotation cam)) (lit 0)).

(** Lines 184-195, one iteration: [next] is [(nextX, nextZ)]. *)
Definition pushOut (next : T * T) (obs : Obstacle T) : T * T :=
  let nextX := fst next in
  let nextZ := snd next in
  let dx := nextX - position0 obs in
  let dz := nextZ - position2 obs in
  let distSq := dx * dx + dz * dz in
  let combRad := PLAYER_RADIUS + radius obs in
  if distSq <? combRad * combRad then
    let dist := Math_sqrt distSq in
    let overlap := combRad - dist in
    (nextX + (dx / dist) * overlap, nextZ + (dz / dist) * overlap)
  else next.

(** The whole [for (const obs of obstacles)] loop. *)
Definition resolveObstacles (obs : list (Obstacle T)) (next : T * T) : T * T :=
  fold_left pushOut obs next.

(** Lines 197-200: the bounds check commits each axis on its own. *)
Definition commit (cam : Camera T) (nextX nextY nextZ : T) : Camera T :=
  let px := if Math_abs nextX <? WORLD_BOUNDARY
            then nextX else x (position cam) in
  let pz := if Math_abs nextZ <? WORLD_BOUNDARY
            then nextZ else z (position cam) in
  mkCamera (mkVector3 px nextY pz) (rotation cam) (quaternion cam).

(** The values of the locals after the obstacle loop, just before the
    bounds check: the candidate position and the vertical state. *)
Record Candidate : Type := mkCandidate {
  newVelocity : Vector3 T;
  nextX : T;
  nextY : T;
  nextZ : T;
  newVerticalVelocity : T;
  newGrounded : bool
}.

Definition candidate (props : Props T) (cam : Camera T) (st : State T)
  (delta : T) : Candidate :=
  let vel := Vector3_lerp (velocity st) (direction (moveState st) cam)
                         (lit 0.15) in
  let nextX := x (position cam) + x vel * delta in
  let nextZ := z (position cam) + z vel * delta in
  let vv := if negb (isGrounded st)
            then verticalVelocity st - GRAVITY * delta
            else verticalVelocity st in
  let nextY := y (position cam) + vv * delta in
  let landed := nextY <=? GROUND_Y in
  let next := resolveObstacles (obstacles props) (nextX, nextZ) in
  mkCandidate vel (fst next)
              (if landed then GROUND_Y else nextY)
              (snd next)
              (if landed then lit 0 else vv)
              (if landed then true else isGrounded st).

(** Lines 210-220: the footstep timer and the step it may play. *)
Definition footsteps (props : Props T) (st : State T) (grounded : bool)
  (delta : T) : T * list (Event T) :=
  let m := moveState st in
  if isMoving m && grounded then
    let timer := footstepTimer st + delta in
    if timer >=? (if isSprinting m then FOOTSTEP_INTERVAL_SPRINT
                   else FOOTSTEP_INTERVAL_WALK)
    then (lit 0,
          if footstepAudio st
          then [playStep (soundVolume props
                          * (if isSprinting m then lit 0.7 else lit 0.4))]
          else [])
    else (timer, [])
  else (footstepTimer st, []).

(** [useFrame((state, delta) => ...)].  The body mesh and the flashlight
    only mirror the camera and are left out. *)
Definition useFrame (props : Props T) (cam : Camera T) (st : State T)
  (delta : T) : Camera T * State T * list (Event T) :=
  if negb (active props) || isScaring props then
    (cam,
     mkState (moveState st) (mkVector3 (lit 0) (lit 0) (lit 0))
             (verticalVelocity st) (isGrounded st) (footstepAudio st)
             (footstepTimer st),
     [])
  else
    let c := candidate props cam st delta in
    let cam' := commit cam (nextX c) (nextY c) (nextZ c) in
    let win :=
      if canWin props
         && (distanceTo (position cam') WIN_ZONE_POSITION <? WIN_DISTANCE)
      then [onWin] else [] in
    let steps := footsteps props st (newGrounded c) delta in
    (cam',
     mkState (moveState st) (newVelocity c) (newVerticalVelocity c)
             (newGrounded c) (footstepAudio st) (fst steps),
     win ++ snd steps).

(** [|x| < 98.5] and [|z| < 98.5], as the source tests it. *)
Definition inBounds (cam : Camera T) : bool :=
  (Math_abs (x (position cam)) <? WORLD_BOUNDARY)
  && (Math_abs (z (position cam)) <? WORLD_BOUNDARY).

(** *** A session: frames and key events in any order *)

Inductive Input : Type :=
| Frame (props : Props T) (rot : Euler T) (q : Quaternion T) (delta : T)
| KeyDown (props : Props T) (code : KeyCode)
| KeyUp (code : KeyCode).

(** Before a frame the pointer-lock controls may have turned the camera;
    they never move it. *)
Definition step (s : Camera T * State T) (i : Input) : Camera T * State T :=
  let '(cam, st) := s in
  match i with
  | Frame props rot q delta =>
      fst (useFrame props (mkCamera (position cam) rot q) st delta)
  | KeyDown props code => (cam, fst (handleKeyDown props st code))
  | KeyUp code => (cam, handleKeyUp st code)
  end.

Definition run (s : Camera T * State T) (inputs : list Input)
  : Camera T * State T :=
  fold_left step inputs s.

(** The distance the loop measures, from a point [(x, z)] to the obstacle,
    and the sum of radii it is compared with. *)
Definition horizontalDistance (p : T * T) (obs : Obstacle T) : T :=
  let dx := fst p - position0 obs in
  let dz := snd p - position2 obs in
  Math_sqrt (dx * dx + dz * dz).

Definition radiusSum (obs : Obstacle T) : T := PLAYER_RADIUS + radius obs.

(** The horizontal position the frame leaves the camera at. *)
Definition committed (props : Props T) (cam : Camera T) (st : State T)
  (delta : T) : T * T :=
  let cam' := fst (fst (useFrame props cam st delta)) in
  (x (position cam'), z (position cam')).

(** The candidate position before the obstacle loop (lines 166-167). *)
Definition uncorrected (cam : Camera T) (st : State T) (delta : T) : T * T :=
  let vel := Vector3_lerp (velocity st) (direction (moveState st) cam)
                         (lit 0.15) in
  (x (position cam) + x vel * delta, z (position cam) + z vel * delta).

End Component.

(** Two obstacles whose collision discs (radius plus player radius) do not
    overlap, in exact arithmetic. *)
Definition apart (a b : Obstacle R) : Prop :=
  (radiusSum a + radiusSum b
   <= horizontalDistance (position0 a, position2 a) b)%R.

(** Every two obstacles of the list are apart. *)
Fixpoint separated (obs : list (Obstacle R)) : Prop :=
  match obs with
  | [] => True
  | o :: rest => Forall (apart o) rest /\ separated rest
  end.

End Player.

(** ** The monster ([Monster] in [src/unnamed/part_000]) *)

Module Monster.

Record Props (T : Type) : Type := mkProps {
  hasOnDangerUpdate : bool;      (* the optional callback is given *)
  active : bool;
  isScaring : bool;
  soundVolume : T
}.

(** [meshRef.current]: the group that carries the monster. *)
Record Mesh (T : Type) : Type := mkMesh {
  mesh_position : Vector3 T;
  mesh_rotation : Euler T
}.

Record State (T : Type) : Type := mkState {
  meshRef : option (Mesh T);
  hasTeleported : bool;
  footstepAudio : bool;
  footstepTimer : T
}.

Inductive Event (T : Type) : Type :=
| playStep (volume : T)
| onDangerUpdate (danger : T)
| onCatch.

Arguments onCatch {T}.

(** [Object3D.lookAt]: the rotation of an object standing at the first
    point once it is turned to the second.  three.js derives it through a
    rotation matrix; it is orientation only and stays uninterpreted. *)
Class Object3D (T : Type) : Type := {
  lookAt : Vector3 T -> Vector3 T -> Euler T
}.

Section Component.
Context {T : Type} `{JsNum T} `{JsMath T} `{Object3D T}.
Local Open Scope js_scope.

Definition FOOTSTEP_INTERVAL_BASE : T := lit 0.55.
Definition MAX_AUDIBLE_DISTANCE : T := lit 45.
Definition BASE_SPEED : T := lit 4.6.
Definition CHASE_SPEED : T := lit 6.8.
Definition ATTACK_RANGE : T := lit 14.

(** The group is created at [[60, 0, 60]]; the refs hold their initial
    values. *)
Definition initial : State T :=
  mkState (Some (mkMesh (mkVector3 (lit 60) (lit 0) (lit 60))
                        (mkEuler (lit 0) (lit 0) (lit 0))))
          false false (lit 0).

(** [useEffect(..., [active])]: runs at mount and whenever [active] has
    changed, with the new value. *)
Definition useEffect (active : bool) (st : State T) : State T :=
  mkState (meshRef st)
          (if negb active then false else hasTeleported st)
          true (footstepTimer st).

(** Lines 50-52: where the jumpscare puts the monster. *)
Definition teleportTarget (cam : Camera T) : Vector3 T :=
  let playerPos := position cam in
  let forward :=
    applyQuaternion (mkVector3 (lit 0) (lit 0) (lit (-1))) (quaternion cam) in
  let p := addVector playerPos (multiplyScalar forward (lit 1.2)) in
  mkVector3 (x p) (y playerPos - lit 1.2) (z p).

(** Lines 48-62.  The body shake and the face light are left out. *)
Definition scare (cam : Camera T) (st : State T) (mesh : Mesh T) : State T :=
  let playerPos := position cam in
  let monsterPos :=
    if negb (hasTeleported st) then teleportTarget cam
    else mesh_position mesh in
  mkState
    (Some (mkMesh monsterPos
             (lookAt monsterPos
                (mkVector3 (x playerPos) (y monsterPos) (z playerPos)))))
    (if negb (hasTeleported st) then true else hasTeleported st)
    (footstepAudio st) (footstepTimer st).

Definition currentSpeed (dist : T) : T :=
  if dist <? ATTACK_RANGE then CHASE_SPEED else BASE_SPEED.

(** Line 129: the value handed to [onDangerUpdate]. *)
Definition dangerLevel (dist : T) : T :=
  clamp (lit 1 - dist / lit 35) (lit 0) (lit 1).

(** Lines 64-72: the move of one pursuit frame. *)
Definition pursue (playerPos : Vector3 T) (mesh : Mesh T) (delta : T)
  : Mesh T :=
  let monsterPos := mesh_position mesh in
  let dist := distanceTo monsterPos playerPos in
  let direction := normalize (subVectors playerPos monsterPos) in
  mkMesh
    (mkVector3 (x monsterPos + x direction * currentSpeed dist * delta)
               (y monsterPos)
               (z monsterPos + z direction * currentSpeed dist * delta))
    (mkEuler (ex (mesh_rotation mesh))
             (lerp (ey (mesh_rotation mesh))
                   (Math_atan2 (x direction) (z direction)) (lit 0.1))
             (ez (mesh_rotation mesh))).

(** Lines 117-127. *)
Definition footsteps (props : Props T) (st : State T) (dist : T) (delta : T)
  : T * list (Event T) :=
  let stepInterval :=
    FOOTSTEP_INTERVAL_BASE * (BASE_SPEED / currentSpeed dist) in
  let timer := footstepTimer st + delta in
  if timer >=? stepInterval then
    (lit 0,
     if (dist <? MAX_AUDIBLE_DISTANCE) && footstepAudio st
     then [playStep (soundVolume props
                     * (lit 1 - dist / MAX_AUDIBLE_DISTANCE) * lit 0.8)]
     else [])
  else (timer, []).

(** [useFrame((state, delta) => ...)].  The limb animation is left out. *)
Definition useFrame (props : Props T) (cam : Camera T) (st : State T)
  (delta : T) : State T * list (Event T) :=
  if negb (active props) then (st, [])
  else
    match meshRef st with
    | None => (st, [])
    | Some mesh =>
      if isScaring props then (scare cam st mesh, [])
      else
        let dist := distanceTo (mesh_position mesh) (position cam) in
        let steps := footsteps props st dist delta in
        (mkState (Some (pursue (position cam) mesh delta))
                 (hasTeleported st) (footstepAudio st) (fst steps),
         snd steps
         ++ (if hasOnDangerUpdate props
             then [onDangerUpdate (dangerLevel dist)] else [])
         ++ (if dist <? lit 1.9 then [onCatch] else []))
    end.

(** Whether a frame called [onCatch]. *)
Definition caught (events : list (Event T)) : bool :=
  existsb (fun e => match e with onCatch => true | _ => false end) events.

(** *** The life of the component: effects and frames *)

Inductive Input : Type :=
| Effect (active : bool)
| Frame (props : Props T) (cam : Camera T) (delta : T).

Definition step (st : State T) (i : Input) : State T :=
  match i with
  | Effect a => useEffect a st
  | Frame props cam delta => fst (useFrame props cam st delta)
  end.

(** The states after each of a run of frames, oldest first. *)
Fixpoint frames (props : Props T) (st : State T)
  (ticks : list (Camera T * T)) : list (State T) :=
  match ticks with
  | [] => []
  | (cam, delta) :: rest =>
      let st' := fst (useFrame props cam st delta) in
      st' :: frames props st' rest
  end.



(** Where the monster stands, if it is mounted. *)
Definition where_ (st : State T) : option (Vector3 T) :=
  option_map (@mesh_position T) (meshRef st).

End Component.

(** The squared horizontal offset between two points, in exact
    arithmetic. *)
Definition offset2 (p m : Vector3 R) : R :=
  ((x p - x m) * (x p - x m) + (z p - z m) * (z p - z m))%R.

End Monster.

(** ** The orchestrator ([App], second half of [src/components/Player.tsx]) *)

Module App.

Record State (T : Type) : Type := mkState {
  gameState : GameState;
  collectedCount : nat;
  flashlightOn : bool;
  battery : T;
  isScaring : bool;
  dangerLevel : T;
  soundVolume : T;
  jumpscareAudio : bool;        (* the element exists (mount effect) *)
  pendingTimeouts : nat         (* game-over timers set and not yet fired *)
}.

(** What a handler asks of the browser. *)
Inductive Effect : Type :=
| playJumpscare
| setTimeout1600
| playWin.

Section Component.
Context {T : Type} `{JsNum T}.
Local Open Scope js_scope.

Definition TOTAL_CUSTARDS : nat := 10.
Definition BATTERY_DRAIN_RATE : T := lit 0.8.
Definition BATTERY_RECHARGE_RATE : T := lit 0.4.

Definition isPlaying (g : GameState) : bool :=
  match g with PLAYING => true | _ => false end.

Definition initial : State T :=
  mkState START 0 true (lit 100) false (lit 0) (lit 0.8) false 0.

(** The mount effect creates the audio elements. *)
Definition useEffect (st : State T) : State T :=
  mkState (gameState st) (collectedCount st) (flashlightOn st) (battery st)
          (isScaring st) (dangerLevel st) (soundVolume st) true
          (pendingTimeouts st).

(** Lines 373-389: one run of the 100 ms interval.  The interval exists
    only while [gameState === PLAYING]. *)
Definition batteryTick (st : State T) : State T :=
  if isPlaying (gameState st) then
    if flashlightOn st then
      let next := Math_max (lit 0) (battery st - BATTERY_DRAIN_RATE * lit 0.1) in
      mkState (gameState st) (collectedCount st)
              (if (next === lit 0) && flashlightOn st then false
               else flashlightOn st)
              next (isScaring st) (dangerLevel st) (soundVolume st)
              (jumpscareAudio st) (pendingTimeouts st)
    else
      mkState (gameState st) (collectedCount st) (flashlightOn st)
              (Math_min (lit 100)
                        (battery st + BATTERY_RECHARGE_RATE * lit 0.1))
              (isScaring st) (dangerLevel st) (soundVolume st)
              (jumpscareAudio st) (pendingTimeouts st)
  else st.

Definition initGame (st : State T) : State T :=
  mkState PLAYING 0 true (lit 100) false (lit 0) (soundVolume st)
          (jumpscareAudio st) (pendingTimeouts st).

(** Line 496, the [onToggleFlashlight] prop. *)
Definition toggleFlashlight (st : State T) : State T :=
  if negb (isScaring st) && (lit 0 <? battery st) then
    mkState (gameState st) (collectedCount st) (negb (flashlightOn st))
            (battery st) (isScaring st) (dangerLevel st) (soundVolume st)
            (jumpscareAudio st) (pendingTimeouts st)
  else st.

(** Lines 435-447. *)
Definition handleCatch (st : State T) : State T * list Effect :=
  if isPlaying (gameState st) && negb (isScaring st) then
    (mkState (gameState st) (collectedCount st) (flashlightOn st)
             (battery st) true (dangerLevel st) (soundVolume st)
             (jumpscareAudio st) (S (pendingTimeouts st)),
     (if jumpscareAudio st then [playJumpscare] else []) ++ [setTimeout1600])
  else (st, []).

(** The callback of the timer set by [handleCatch]; a timer fires only if
    one is pending. *)
Definition timeout (st : State T) : State T :=
  match pendingTimeouts st with
  | O => st
  | S n =>
      mkState GAMEOVER (collectedCount st) (flashlightOn st) (battery st)
              false (dangerLevel st) (soundVolume st) (jumpscareAudio st) n
  end.

(** Lines 449-454. *)
Definition handleWin (st : State T) : State T * list Effect :=
  if Nat.eqb (collectedCount st) TOTAL_CUSTARDS then
    (mkState WIN (collectedCount st) (flashlightOn st) (battery st)
             (isScaring st) (dangerLevel st) (soundVolume st)
             (jumpscareAudio st) (pendingTimeouts st),
     [playWin])
  else (st, []).

(** Lines 331-339: the Escape key. *)
Definition escape (st : State T) : State T :=
  if isPlaying (gameState st) then
    mkState START (collectedCount st) (flashlightOn st) (battery st)
            (isScaring st) (dangerLevel st) (soundVolume st)
            (jumpscareAudio st) (pendingTimeouts st)
  else st.

(** Lines 415-433, for a ray that hit a custard. *)
Definition handleInteract (st : State T) : State T :=
  if isPlaying (gameState st) && negb (isScaring st) then
    mkState (gameState st) (S (collectedCount st)) (flashlightOn st)
            (battery st) (isScaring st) (dangerLevel st) (soundVolume st)
            (jumpscareAudio st) (pendingTimeouts st)
  else st.

Definition setDangerLevel (st : State T) (d : T) : State T :=
  mkState (gameState st) (collectedCount st) (flashlightOn st) (battery st)
          (isScaring st) d (soundVolume st) (jumpscareAudio st)
          (pendingTimeouts st).

(** *** The props handed down (lines 482 and 490-501) *)

Definition monsterProps (st : State T) : Monster.Props T :=
  Monster.mkProps true
                  (isPlaying (gameState st) && negb (isScaring st))
                  (isScaring st) (soundVolume st).

Definition playerProps (obstacles : list (Obstacle T)) (st : State T)
  : Player.Props T :=
  Player.mkProps (flashlightOn st && negb (isScaring st)) (isScaring st)
                 (battery st) obstacles (soundVolume st)
                 (Nat.eqb (collectedCount st) TOTAL_CUSTARDS)
                 (isPlaying (gameState st)).

(** *** One episode: what can happen between [initGame] and the end

    Each handler sees the state the previous one left: React has rendered
    between two calls, so the callbacks close over the current state.
    [Closure] below drops this assumption and keeps the state a render
    saw apart from the state the setters have written since. *)

Inductive Input : Type :=
| Catch
| Timeout
| BatteryTick
| ToggleFlashlight
| Interact
| Win
| Escape
| DangerUpdate (d : T).

Definition step (st : State T) (i : Input) : State T * list Effect :=
  match i with
  | Catch => handleCatch st
  | Timeout => (timeout st, [])
  | BatteryTick => (batteryTick st, [])
  | ToggleFlashlight => (toggleFlashlight st, [])
  | Interact => (handleInteract st, [])
  | Win => handleWin st
  | Escape => (escape st, [])
  | DangerUpdate d => (setDangerLevel st d, [])
  end.

(** The final state and all effects, in order. *)
Fixpoint run (st : State T) (inputs : list Input) : State T * list Effect :=
  match inputs with
  | [] => (st, [])
  | i :: rest =>
      let '(st1, e1) := step st i in
      let '(st2, e2) := run st1 rest in
      (st2, e1 ++ e2)
  end.


(** A state in which [handleCatch] does nothing. *)
Definition deaf (st : State T) : Prop :=
  isScaring st = true \/ isPlaying (gameState st) = false.

(** [n] runs of the battery interval. *)
Fixpoint batteryTicks (n : nat) (st : State T) : State T :=
  match n with
  | O => st
  | S k => batteryTicks k (batteryTick st)
  end.

End Component.

End App.

(** ** The obstacle loop, iteration by iteration *)

Module Pass.

(** No iteration of the loop over [obs], started from the candidate [p],
    finds the candidate exactly on the centre of its obstacle, where
    [dx / dist] is [0 / 0]. *)
Fixpoint offCentres (obs : list (Obstacle R)) (p : R * R) : Prop :=
  match obs with
  | [] => True
  | o :: rest =>
      (0 < Player.horizontalDistance p o)%R
      /\ offCentres rest (Player.pushOut p o)
  end.

(** The obstacles handled after [o] have non-negative radii and collision
    discs that do not overlap the disc of [o]. *)
Definition uncrowded (o : Obstacle R) (later : list (Obstacle R)) : Prop :=
  Forall (fun b => Player.apart o b /\ (0 <= radius b)%R) later.

End Pass.

(** ** The orchestrator's callbacks and the render that made them

    A callback of [App] is made by a render and reads the state values
    that render saw: [handleCatch], [handleInteract] and [handleWin] through
    [useCallback] and its dependencies, the battery interval and the Escape
    listener through the closure of their effect, [onToggleFlashlight] as an
    inline arrow.  A setter writes the state the next render will see, and
    an updater function ([setX(prev => ...)]) reads that state.  The monster
    and the player read their props from the same render. *)

Module Closure.

(** [live]: React's state and the refs; [seen]: the state as the last
    render read it. *)
Record World (T : Type) : Type := mkWorld {
  live : App.State T;
  seen : App.State T
}.

Section Handlers.
Context {T : Type} `{JsNum T}.
Local Open Scope js_scope.

(** Lines 435-447: the guard reads the render's [gameState] and
    [isScaring]. *)
Definition handleCatch (seen live : App.State T)
  : App.State T * list App.Effect :=
  if App.isPlaying (App.gameState seen) && negb (App.isScaring seen) then
    (App.mkState (App.gameState live) (App.collectedCount live)
                 (App.flashlightOn live) (App.battery live) true
                 (App.dangerLevel live) (App.soundVolume live)
                 (App.jumpscareAudio live) (S (App.pendingTimeouts live)),
     (if App.jumpscareAudio live then [App.playJumpscare] else [])
     ++ [App.setTimeout1600])
  else (live, []).

(** Lines 373-389: the interval exists while the render's [gameState] is
    PLAYING; its callback reads the render's [flashlightOn] and, in the
    updater, the battery as it is. *)
Definition batteryTick (seen live : App.State T) : App.State T :=
  if App.isPlaying (App.gameState seen) then
    if App.flashlightOn seen then
      let next := Math_max (lit 0)
                    (App.battery live - App.BATTERY_DRAIN_RATE * lit 0.1) in
      App.mkState (App.gameState live) (App.collectedCount live)
                  (if (next === lit 0) && App.flashlightOn seen then false
                   else App.flashlightOn live)
                  next (App.isScaring live) (App.dangerLevel live)
                  (App.soundVolume live) (App.jumpscareAudio live)
                  (App.pendingTimeouts live)
    else
      App.mkState (App.gameState live) (App.collectedCount live)
                  (App.flashlightOn live)
                  (Math_min (lit 100)
                     (App.battery live
                      + App.BATTERY_RECHARGE_RATE * lit 0.1))
                  (App.isScaring live) (App.dangerLevel live)
                  (App.soundVolume live) (App.jumpscareAudio live)
                  (App.pendingTimeouts live)
  else live.

(** Line 496: [setFlashlightOn(!flashlightOn)] with the render's values. *)
Definition toggleFlashlight (seen live : App.State T) : App.State T :=
  if negb (App.isScaring seen) && (lit 0 <? App.battery seen) then
    App.mkState (App.gameState live) (App.collectedCount live)
                (negb (App.flashlightOn seen)) (App.battery live)
                (App.isScaring live) (App.dangerLevel live)
                (App.soundVolume live) (App.jumpscareAudio live)
                (App.pendingTimeouts live)
  else live.

(** Lines 449-454. *)
Definition handleWin (seen live : App.State T)
  : App.State T * list App.Effect :=
  if Nat.eqb (App.collectedCount seen) App.TOTAL_CUSTARDS then
    (App.mkState WIN (App.collectedCount live) (App.flashlightOn live)
                 (App.battery live) (App.isScaring live)
                 (App.dangerLevel live) (App.soundVolume live)
                 (App.jumpscareAudio live) (App.pendingTimeouts live),
     [App.playWin])
  else (live, []).

(** Lines 331-339. *)
Definition escape (seen live : App.State T) : App.State T :=
  if App.isPlaying (App.gameState seen) then
    App.mkState START (App.collectedCount live) (App.flashlightOn live)
                (App.battery live) (App.isScaring live)
                (App.dangerLevel live) (App.soundVolume live)
                (App.jumpscareAudio live) (App.pendingTimeouts live)
  else live.

(** Lines 415-433, for a ray that hit a custard: the guard reads the
    render, the count is raised by an updater. *)
Definition handleInteract (seen live : App.State T) : App.State T :=
  if App.isPlaying (App.gameState seen) && negb (App.isScaring seen) then
    App.mkState (App.gameState live) (S (App.collectedCount live))
                (App.flashlightOn live) (App.battery live)
                (App.isScaring live) (App.dangerLevel live)
                (App.soundVolume live) (App.jumpscareAudio live)
                (App.pendingTimeouts live)
  else live.

(** One call of a callback.  The timer's callback and [setDangerLevel]
    read nothing of the render. *)
Definition call (w : World T) (i : @App.Input T)
  : World T * list App.Effect :=
  let r :=
    match i with
    | App.Catch => handleCatch (seen w) (live w)
    | App.Timeout => (App.timeout (live w), [])
    | App.BatteryTick => (batteryTick (seen w) (live w), [])
    | App.ToggleFlashlight => (toggleFlashlight (seen w) (live w), [])
    | App.Interact => (handleInteract (seen w) (live w), [])
    | App.Win => handleWin (seen w) (live w)
    | App.Escape => (escape (seen w) (live w), [])
    | App.DangerUpdate d => (App.setDangerLevel (live w) d, [])
    end in
  (mkWorld (fst r) (seen w), snd r).

(** What happens in an episode: a callback is called, or React renders. *)
Inductive Action : Type :=
| Call (i : @App.Input T)
| Render.

Definition step (w : World T) (a : Action) : World T * list App.Effect :=
  match a with
  | Call i => call w i
  | Render => (mkWorld (live w) (live w), [])
  end.

(** The final world and all effects, in order. *)
Fixpoint run (w : World T) (actions : list Action)
  : World T * list App.Effect :=
  match actions with
  | [] => (w, [])
  | a :: rest =>
      let r1 := step w a in
      let r2 := run (fst r1) rest in
      (fst r2, snd r1 ++ snd r2)
  end.

(** The world right after a render. *)
Definition rendered (st : App.State T) : World T := mkWorld st st.

(** A render after every call. *)
Definition rerendering (inputs : list (@App.Input T)) : list Action :=
  flat_map (fun i => [Call i; Render]) inputs.





(** A state in which a catch is heard. *)
Definition hearing (st : App.State T) : Prop :=
  App.gameState st = PLAYING /\ App.isScaring st = false.


End Handlers.

End Closure.

(** * The rest of the two files *)

(** ** A player session with its events *)

Module Play.

Section Trace.
Context {T : Type} `{JsNum T} `{JsMath T}.

(** One input of a session, with the calls it makes on the outside. *)
Definition stepEvents (s : Camera T * Player.State T) (i : @Player.Input T)
  : (Camera T * Player.State T) * list (Player.Event T) :=
  let '(cam, st) := s in
  match i with
  | Player.Frame props rot q delta =>
      let r := Player.useFrame props (mkCamera (position cam) rot q) st delta in
      (fst r, snd r)
  | Player.KeyDown props code =>
      let r := Player.handleKeyDown props st code in
      ((cam, fst r), snd r)
  | Player.KeyUp code => ((cam, Player.handleKeyUp st code), [])
  end.

(** [n] frames in a row with the same props, orientation and frame time;
    the events of each frame are kept apart. *)
Fixpoint frames (props : Player.Props T) (rot : Euler T) (q : Quaternion T)
  (delta : T) (n : nat) (s : Camera T * Player.State T)
  : (Camera T * Player.State T) * list (list (Player.Event T)) :=
  match n with
  | O => (s, [])
  | S k =>
      let r := stepEvents s (Player.Frame props rot q delta) in
      let rest := frames props rot q delta k (fst r) in
      (fst rest, snd r :: snd rest)
  end.

(** The volumes of the steps played among some events. *)
Definition stepVolumes (events : list (Player.Event T)) : list T :=
  flat_map (fun e => match e with
                     | Player.playStep v => [v]
                     | _ => []
                     end) events.

Definition wins (events : list (Player.Event T)) : bool :=
  existsb (fun e => match e with Player.onWin => true | _ => false end)
          events.

(** A frame that runs: the player is active and no jumpscare is on. *)
Definition running (i : @Player.Input T) : bool :=
  match i with
  | Player.Frame props _ _ _ =>
      Player.active props && negb (Player.isScaring props)
  | _ => false
  end.

(** No movement key is held. *)
Definition idle (m : Player.MoveState) : bool := negb (Player.isMoving m).

(** The keys ask for a direction: not only opposite keys together. *)
Definition steering (m : Player.MoveState) : bool :=
  xorb (Player.forward m) (Player.backward m)
  || xorb (Player.left m) (Player.right m).

(** The flag of the move state a key code stands for, if it stands for
    one. *)
Definition held (m : Player.MoveState) (code : Player.KeyCode)
  : option bool :=
  match code with
  | Player.KeyW => Some (Player.forward m)
  | Player.KeyS => Some (Player.backward m)
  | Player.KeyA => Some (Player.left m)
  | Player.KeyD => Some (Player.right m)
  | Player.ShiftLeft => Some (Player.sprint m)
  | _ => None
  end.

(** The interval between two steps of the gait. *)
Definition gaitInterval (m : Player.MoveState) : T :=
  if Player.isSprinting m then Player.FOOTSTEP_INTERVAL_SPRINT
  else Player.FOOTSTEP_INTERVAL_WALK.

(** With the step timer at [t] and frames of [delta]: the next [n] frames
    leave the timer short of the interval and the frame after them reaches
    it.  The timer is the code's running sum, one addition per frame. *)
Fixpoint stepDue (m : Player.MoveState) (t delta : T) (n : nat) : bool :=
  match n with
  | O => leb (gaitInterval m) (add t delta)
  | S k =>
      negb (leb (gaitInterval m) (add t delta))
      && stepDue m (add t delta) delta k
  end.

End Trace.

(** The vertical state of the player, in exact arithmetic: what gravity
    can still turn into height. *)
Definition energy (cam : Camera R) (st : Player.State R) : R :=
  (Player.verticalVelocity st * Player.verticalVelocity st / 2
   + Player.GRAVITY * (y (position cam) - Player.GROUND_Y))%R.

(** On the ground, at rest, or in the air with no more energy than a jump
    gives. *)
Definition airworthy (s : Camera R * Player.State R) : Prop :=
  (Player.GROUND_Y <= y (position (fst s)))%R
  /\ (energy (fst s) (snd s) <= Player.JUMP_FORCE * Player.JUMP_FORCE / 2)%R
  /\ (Player.isGrounded (snd s) = true ->
      y (position (fst s)) = Player.GROUND_Y
      /\ Player.verticalVelocity (snd s) = 0%R).

(** A walker: on the ground, with a movement key held and the step sound
    loaded. *)
Definition walker (s : Camera R * Player.State R) : Prop :=
  airworthy s
  /\ Player.isGrounded (snd s) = true
  /\ Player.isMoving (Player.moveState (snd s)) = true
  /\ Player.footstepAudio (snd s) = true.

(** The horizontal speed of a vector, squared. *)
Definition speed2 (v : Vector3 R) : R := (x v * x v + z v * z v)%R.

End Play.

(** ** A monster session *)

Module Chase.

Section Trace.
Context {T : Type} `{JsNum T} `{JsMath T} `{Monster.Object3D T}.

Definition run (st : Monster.State T) (inputs : list (@Monster.Input T))
  : Monster.State T :=
  fold_left Monster.step inputs st.

(** An input outside a jumpscare: an effect, or a frame whose props do
    not say [isScaring]. *)
Definition pursuing (i : @Monster.Input T) : bool :=
  match i with
  | Monster.Frame props _ _ => negb (Monster.isScaring props)
  | Monster.Effect _ => true
  end.

(** [meshRef.current.position.y] and [meshRef.current.rotation.y]. *)
Definition height (st : Monster.State T) : option T :=
  option_map (fun mesh => y (Monster.mesh_position mesh))
             (Monster.meshRef st).

Definition yaw (st : Monster.State T) : option T :=
  option_map (fun mesh => ey (Monster.mesh_rotation mesh))
             (Monster.meshRef st).

(** The angle line 72 turns the monster towards. *)
Definition facing (playerPos : Vector3 T) (mesh : Monster.Mesh T) : T :=
  let direction :=
    normalize (subVectors playerPos (Monster.mesh_position mesh)) in
  Math_atan2 (x direction) (z direction).

End Trace.

(** A yaw that is an angle of [atan2]'s range. *)
Definition angle (a : R) : Prop := (- PI <= a <= PI)%R.

End Chase.

(** ** The orchestrator across episodes *)

Module Session.

Section Actions.
Context {T : Type} `{JsNum T}.

(** Everything that can happen to the orchestrator: an input of an
    episode, or the PLAY and TRY AGAIN buttons. *)
Inductive Action : Type :=
| During (i : @App.Input T)
| InitGame.

Definition act (st : App.State T) (a : Action) : App.State T :=
  match a with
  | During i => fst (App.step st i)
  | InitGame => App.initGame st
  end.

Definition run (st : App.State T) (actions : list Action) : App.State T :=
  fold_left act actions st.

End Actions.

(** The light is on only over a charged battery, and the charge is within
    its range (exact arithmetic). *)
Definition powered (st : App.State R) : Prop :=
  (0 <= App.battery st <= 100)%R
  /\ (App.flashlightOn st = true -> (0 < App.battery st)%R).

End Session.

(** ** The obstacle field ([worldObstacles], lines 274-296) *)

Class JsConst (T : Type) : Type := {
  Math_PI : T
}.

#[export] Instance Float64Const : JsConst float := {
  Math_PI := F64.of_Q 3.141592653589793
}.

#[export] Instance ExactConst : JsConst R := {
  Math_PI := PI
}.

Module World.

Section Generator.
Context {T : Type} `{JsNum T} `{JsMath T} `{JsConst T}.
Local Open Scope js_scope.

(** [types[Math.floor(r * types.length)]] for a draw [r]: the index is
    found by comparing [r * 4] with 1, 2, 3 and 4; outside [[0, 4)] the
    array has no element. *)
Definition pickType (r : T) : option ObstacleType :=
  let v := r * lit 4 in
  if v <? lit 0 then None
  else if v <? lit 1 then Some tree
  else if v <? lit 2 then Some rock
  else if v <? lit 3 then Some willow
  else if v <? lit 4 then Some dead_tree
  else None.

(** The four results of [Math.random()] one obstacle takes, in call
    order. *)
Record Draws : Type := mkDraws {
  forAngle : T;
  forRadius : T;
  forType : T;
  forScale : T
}.

Definition collRadius (type : ObstacleType) (scale : T) : T :=
  match type with
  | rock => lit 1.6 * scale
  | willow => lit 1.2 * scale
  | dead_tree => lit 1.4 * scale
  | tree => lit 0.8
  end.

(** The body of the [map] callback; the [id] is left out. *)
Definition worldObstacle (d : Draws) : option (Obstacle T) :=
  let angle := forAngle d * Math_PI * lit 2 in
  let radius := lit 15 + forRadius d * lit 80 in
  let px := Math_cos angle * radius in
  let pz := Math_sin angle * radius in
  match pickType (forType d) with
  | Some type =>
      let scale := lit 0.8 + forScale d * lit 0.7 in
      Some (mkObstacle (px, lit 0, pz) (collRadius type scale) type scale)
  | None => None
  end.

(** The obstacles got from a list of draws; [None] if a draw leaves the
    array of types. *)
Fixpoint worldObstacles (draws : list Draws) : option (list (Obstacle T)) :=
  match draws with
  | [] => Some []
  | d :: rest =>
      match worldObstacle d, worldObstacles rest with
      | Some o, Some l => Some (o :: l)
      | _, _ => None
      end
  end.

(** What [Math.random()] promises: a number in [[0, 1)]. *)
Definition unit (r : T) : bool := (lit 0 <=? r) && (r <? lit 1).

Definition fair (d : Draws) : bool :=
  unit (forAngle d) && unit (forRadius d) && unit (forType d)
  && unit (forScale d).

End Generator.

End World.

(** ** The custards ([initGame], lines 391-401, and [handleInteract]) *)

Module Custards.

Import String.

Record Custard (T : Type) : Type := mkCustard {
  id : String.string;
  custard_position : T * T * T
}.

(** [`c-${i}`] *)
Definition name (i : nat) : String.string :=
  String.append "c-"%string (DecimalString.NilEmpty.string_of_uint (Nat.to_uint i)).

(** The names of a full set, in the order [initGame] pushes them. *)
Definition names : list String.string :=
  "house-1"%string :: "house-2"%string
  :: map name (seq 2 (App.TOTAL_CUSTARDS - 2)).

Section Scatter.
Context {T : Type} `{JsNum T}.
Local Open Scope js_scope.

(** The test of line 398: too close to the start or to the house. *)
Definition tooClose (px pz : T) : bool :=
  (Math_sqrt (px * px + pz * pz) <? lit 15)
  || (Math_sqrt (px * px + (pz + lit 40) * (pz + lit 40)) <? lit 15).

(** The loop [for (let i = 2; i < TOTAL_CUSTARDS; i++)] from index [i] on,
    fed with the pairs of [Math.random()] results it draws.  A rejected
    pair leaves [i] as it is.  [None]: the draws ran out while the loop
    was still asking. *)
Fixpoint scatter (i : nat) (draws : list (T * T))
  : option (list (Custard T)) :=
  if Nat.leb App.TOTAL_CUSTARDS i then Some []
  else
    match draws with
    | [] => None
    | (r1, r2) :: rest =>
        let px := (r1 - lit 0.5) * lit 200 in
        let pz := (r2 - lit 0.5) * lit 200 in
        if tooClose px pz then scatter i rest
        else
          match scatter (S i) rest with
          | Some l => Some (mkCustard (name i) (px, lit 0.2, pz) :: l)
          | None => None
          end
    end.

(** The two custards at the house, pushed before the loop. *)
Definition houses : list (Custard T) :=
  [mkCustard "house-1"%string (lit 5, lit 0.2, lit (-45));
   mkCustard "house-2"%string (lit (-5), lit 0.2, lit (-42))].

(** The list [initGame] hands to [setCustards]. *)
Definition newCustards (draws : list (T * T)) : option (list (Custard T)) :=
  match scatter 2 draws with
  | Some l => Some (houses ++ l)
  | None => None
  end.

(** What [handleInteract] keeps of the game: the custards still lying
    around and the count. *)
Record Board : Type := mkBoard {
  custards : list (Custard T);
  collectedCount : nat
}.

(** The two updaters of [handleInteract] for the custard named by the hit
    object, when the game is in play and no jumpscare runs. *)
Definition pickUp (b : Board) (hit : String.string) : Board :=
  mkBoard (filter (fun c => negb (String.eqb (id c) hit)) (custards b))
          (S (collectedCount b)).

Definition ids (l : list (Custard T)) : list String.string :=
  map (@id T) l.

(** A pair of draws the loop accepts. *)
Definition accepted (d : T * T) : bool :=
  negb (tooClose ((fst d - lit 0.5) * lit 200) ((snd d - lit 0.5) * lit 200)).

(** Picking up one custard after the other. *)
Definition pickUps (b : Board) (hits : list String.string) : Board :=
  fold_left pickUp hits b.

End Scatter.

(** In exact arithmetic: at least 15 from the start and from the house. *)
Definition clear (c : Custard R) : Prop :=
  let px := fst (fst (custard_position c)) in
  let pz := snd (custard_position c) in
  (15 <= R_sqrt.sqrt (px * px + pz * pz)
   /\ 15 <= R_sqrt.sqrt (px * px + (pz + 40) * (pz + 40)))%R.

(** Within the square the draws span, lying at height 0.2. *)
Definition inField (c : Custard R) : Prop :=
  let px := fst (fst (custard_position c)) in
  let pz := snd (custard_position c) in
  (-100 <= px < 100 /\ -100 <= pz < 100
   /\ snd (fst (custard_position c)) = 0.2)%R.

End Custards.

(** ** Sample inputs

    Concrete binary64 inputs at which the statements below are run.  The
    camera looks down [-z] (yaw 0), where [Math.sin] and [Math.cos] are
    exact; the monster's orientation is not followed in the samples. *)

Module Sample.

#[global] Instance Math_yaw0 : JsMath float :=
  {| Math_sin := fun _ => lit 0; Math_cos := fun _ => lit 1;
     Math_atan2 := fun _ _ => lit 0 |}.

#[global] Instance lookAt_none : Monster.Object3D float :=
  {| Monster.lookAt := fun _ _ => mkEuler (lit 0) (lit 0) (lit 0) |}.

(** The camera of the [Canvas]: at [[0, 1.7, 0]], not turned. *)
Definition camera : Camera float :=
  mkCamera (mkVector3 (lit 0) (lit 1.7) (lit 0))
           (mkEuler (lit 0) (lit 0) (lit 0))
           (mkQuaternion (lit 0) (lit 0) (lit 0) (lit 1)).

Definition cameraAt (px py pz : float) : Camera float :=
  mkCamera (mkVector3 px py pz) (rotation camera) (quaternion camera).

Definition obstacleAt (px pz r : Q) : Obstacle float :=
  mkObstacle (lit px, lit 0, lit pz) (lit r) tree (lit 1).

Definition playerProps (obs : list (Obstacle float)) : Player.Props float :=
  Player.mkProps true false (lit 100) obs (lit 0.8) false true.

(** A player walking forward ([KeyW] held) after mount. *)
Definition walking : Player.State float :=
  Player.mkState (Player.mkMoveState true false false false false false)
                 (mkVector3 (lit 0) (lit 0) (lit 0)) (lit 0) true true (lit 0).

(** The monster's props in its three phases. *)
Definition pursuing : Monster.Props float :=
  Monster.mkProps true true false (lit 0.8).

Definition scaring : Monster.Props float :=
  Monster.mkProps true true true (lit 0.8).

Definition dormant : Monster.Props float :=
  Monster.mkProps true false false (lit 0.8).

(** The monster after mount and its first effect, and its mesh. *)
Definition monster : Monster.State float :=
  Monster.useEffect true Monster.initial.

Definition mesh : Monster.Mesh float :=
  Monster.mkMesh (mkVector3 (lit 60) (lit 0) (lit 60))
                 (mkEuler (lit 0) (lit 0) (lit 0)).

(** The orchestrator right after [initGame]. *)
Definition playing : App.State float :=
  App.initGame (App.useEffect App.initial).

(** Whether [a] and [b] differ by less than [eps]. *)
Definition near (a b eps : float) : bool :=
  ltb (Math_abs (sub a b)) eps.

(** The battery scenario in binary64: the light is on after each of the
    first [n] runs of the interval. *)
Definition lightStaysOn (n : nat) : bool :=
  forallb (fun k => App.flashlightOn (App.batteryTicks k playing))
          (seq 0 (S n)).

(** A player standing still after mount. *)
Definition standing : Player.State float := Player.useEffect Player.initial.

(** Two obstacles of radius 1 whose discs overlap, and one alone. *)
Definition obstacleA : Obstacle float := obstacleAt 0 0 1.
Definition obstacleB : Obstacle float := obstacleAt 2.5 0 1.
Definition obstacleC : Obstacle float := obstacleAt 3 4 1.

(** The chase scenario: the camera stays at [[0, 1.7, 0]], the monster
    starts at [[60, 0, 60]], every frame lasts 0.016 s.  For each of [n]
    frames: the distance at the start of the frame, the length of the
    monster's move, and whether its height changed. *)
Definition dt : float := lit 0.016.

Definition moved (a b : Vector3 float) : float :=
  Math_sqrt (add (mul (sub (x b) (x a)) (sub (x b) (x a)))
                 (mul (sub (z b) (z a)) (sub (z b) (z a)))).

Fixpoint chase (n : nat) (st : Monster.State float)
  : list (float * float * bool) :=
  match n with
  | O => []
  | S k =>
      let st' := fst (Monster.useFrame pursuing camera st dt) in
      match Monster.where_ st, Monster.where_ st' with
      | Some m, Some m' =>
          (distanceTo m (position camera), moved m m', eqb (y m') (y m))
          :: chase k st'
      | _, _ => []
      end
  end.

Fixpoint decreasing (l : list float) : bool :=
  match l with
  | a :: (b :: _) as rest => ltb b a && decreasing rest
  | _ => true
  end.

(** A frame at base speed: at least 14 away, and a move of length between
    [4.56 * dt] and [4.6 * dt]. *)
Definition baseFrame (r : float * float * bool) : bool :=
  let '(dist, step, level) := r in
  leb (lit 14) dist
  && ltb (mul (lit 4.56) dt) step && ltb step (mul (lit 4.6) dt) && level.

(** A frame at chase speed: closer than 14, and a move of length between
    [6.74 * dt] and [6.8 * dt]. *)
Definition chaseFrame (r : float * float * bool) : bool :=
  let '(dist, step, level) := r in
  ltb dist (lit 14)
  && ltb (mul (lit 6.74) dt) step && ltb step (mul (lit 6.8) dt) && level.

Definition chaseScenario : bool :=
  let trace := chase 967 monster in
  decreasing (map (fun r => fst (fst r)) trace)
  && forallb baseFrame (firstn 966 trace)
  && forallb chaseFrame (skipn 966 trace)
  && Nat.eqb (List.length trace) 967.

(** The obstacles of [ExactSample.crowd], in binary64. *)
Definition crowd : list (Obstacle float) :=
  [obstacleAt 4 0 1; obstacleAt 0.8 0 1; obstacleAt 50 0 1;
   obstacleAt 51 0 1].


(** The jumpscare as [App] runs it: the state after [handleCatch], and a
    few frames of the monster with the props of that state. *)
Definition scared : App.State float := fst (App.handleCatch playing).


End Sample.

(** Sample inputs in exact arithmetic. *)

Module ExactSample.

(** A camera at [[2, 1.7, 0]], not turned, and a player standing still. *)
Definition camera : Camera R :=
  mkCamera (mkVector3 2%R 1.7%R 0%R) (mkEuler 0%R 0%R 0%R)
           (mkQuaternion 0%R 0%R 0%R 1%R).

Definition standing : Player.State R := Player.useEffect Player.initial.

(** One obstacle of radius 1 at [[3, 0, 0]]: the camera is inside its
    collision disc. *)
Definition obstacle : Obstacle R := mkObstacle (3%R, 0%R, 0%R) 1%R tree 1%R.

Definition playerProps : Player.Props R :=
  Player.mkProps true false 100%R [obstacle] 0.8%R false true.

(** The chase scenario at its start. *)
Definition player : Vector3 R := mkVector3 0%R 1.7%R 0%R.

Definition monster : Monster.Mesh R :=
  Monster.mkMesh (mkVector3 60%R 0%R 60%R) (mkEuler 0%R 0%R 0%R).

(** Four obstacles of radius 1 on the x axis.  The discs of [ahead] and
    [behind] touch; the camera at [[2, 1.7, 0]] is inside the disc of
    [behind] only.  [farA] and [farB] overlap each other, far away. *)
Definition ahead : Obstacle R := mkObstacle (4%R, 0%R, 0%R) 1%R tree 1%R.
Definition behind : Obstacle R := mkObstacle (0.8%R, 0%R, 0%R) 1%R tree 1%R.
Definition farA : Obstacle R := mkObstacle (50%R, 0%R, 0%R) 1%R tree 1%R.
Definition farB : Obstacle R := mkObstacle (51%R, 0%R, 0%R) 1%R tree 1%R.

Definition crowd : list (Obstacle R) := [ahead; behind; farA; farB].

Definition crowdProps : Player.Props R :=
  Player.mkProps true false 100%R crowd 0.8%R false true.

Definition pairProps : Player.Props R :=
  Player.mkProps true false 100%R [ahead; behind] 0.8%R false true.

End ExactSample.

(** ** Sample sessions in exact arithmetic *)

Module Scenario.

(** The standing player of [ExactSample], a frame of 16 ms for it, and a
    jump followed by two frames. *)
Definition start : Camera R * Player.State R :=
  (ExactSample.camera, ExactSample.standing).

Definition frame : @Player.Input R :=
  Player.Frame ExactSample.playerProps (rotation ExactSample.camera)
               (quaternion ExactSample.camera) 0.016%R.

Definition jump : list (@Player.Input R) :=
  [Player.KeyDown ExactSample.playerProps Player.Space; frame; frame].

(** A player with no key held, still gliding at [[1, 0, 2]]. *)
Definition gliding : Player.State R :=
  Player.mkState (Player.mkMoveState false false false false false false)
                 (mkVector3 1%R 0%R 2%R) 0%R true true 0%R.

(** A player walking forward on the ground, its step timer at 0. *)
Definition walking : Player.State R :=
  Player.mkState (Player.mkMoveState true false false false false false)
                 (mkVector3 0%R 0%R 0%R) 0%R true true 0%R.

(** The orchestrator with all custards collected, and the camera at the
    house. *)
Definition allCollected : App.State R :=
  App.mkState PLAYING 10 true 100%R false 0%R 0.8%R true 0.

Definition atHouse : Camera R :=
  mkCamera (mkVector3 0%R 1.7%R (-40)%R) (rotation ExactSample.camera)
           (quaternion ExactSample.camera).

(** A session of the orchestrator with a restart in it. *)
Definition session : list (@Session.Action R) :=
  [Session.During App.BatteryTick; Session.During App.ToggleFlashlight;
   Session.During App.BatteryTick; Session.InitGame;
   Session.During App.Catch].

(** An empty battery with the light off, in play. *)
Definition flat : App.State R :=
  App.mkState PLAYING 0 false 0%R false 0%R 0.8%R true 0.

(** Draws for one obstacle, and pairs of draws the scatter loop accepts
    ([[80, 80]]) and rejects ([[0, 0]]). *)
Definition draws : World.Draws (T := R) :=
  World.mkDraws 0.25%R 0.5%R 0.3%R 0.5%R.

Definition far : R * R := (0.9%R, 0.9%R).
Definition centre : R * R := (0.5%R, 0.5%R).

Definition pairs : list (R * R) := centre :: repeat far 8.

(** The monster one and a half to the side of [ExactSample.camera], on the
    ground. *)
Definition lurking : Monster.State R :=
  Monster.mkState
    (Some (Monster.mkMesh (mkVector3 1.5%R 0%R 0%R)
                          (mkEuler 0%R 0%R 0%R)))
    false true 0%R.

Definition pursuing : Monster.Props R := Monster.mkProps true true false 0.8%R.

(** The monster's orientation in a jumpscare is not followed here
    either. *)
#[global] Instance lookAt_none : Monster.Object3D R :=
  {| Monster.lookAt := fun _ _ => mkEuler 0%R 0%R 0%R |}.

(** A player sprinting forward on the ground, in binary64, as
    [Sample.walking] walks. *)
Definition sprinting : Player.State float :=
  Player.mkState (Player.mkMoveState true false false false true false)
                 (mkVector3 (lit 0) (lit 0) (lit 0)) (lit 0) true true
                 (lit 0).

End Scenario.

(** * Properties *)

Unset Implicit Arguments.

(** ** Exact arithmetic: the comparisons and literals *)

Lemma Real_ltb_true (a b : R) : Real.ltb a b = true <-> (a < b)%R.
Proof.
  unfold Real.ltb; destruct (Rlt_dec a b); split; intros; try easy.
Qed.

Lemma Real_ltb_false (a b : R) : Real.ltb a b = false <-> (b <= a)%R.
Proof.
  unfold Real.ltb; destruct (Rlt_dec a b); split; intros; try easy; lra.
Qed.

Lemma Real_leb_true (a b : R) : Real.leb a b = true <-> (a <= b)%R.
Proof.
  unfold Real.leb; destruct (Rle_dec a b); split; intros; try easy.
Qed.

Lemma Real_leb_false (a b : R) : Real.leb a b = false <-> (b < a)%R.
Proof.
  unfold Real.leb; destruct (Rle_dec a b); split; intros; try easy; lra.
Qed.

Lemma Real_eqb_true (a b : R) : Real.eqb a b = true <-> a = b.
Proof.
  unfold Real.eqb; destruct (Req_dec_T a b); split; intros; try easy.
Qed.

Lemma Real_eqb_false (a b : R) : Real.eqb a b = false <-> a <> b.
Proof.
  unfold Real.eqb; destruct (Req_dec_T a b); split; intros; try easy.
Qed.

(** Literals of the source, as real constants [lra] can read. *)
Ltac literals :=
  cbv [Player.WALK_SPEED Player.SPRINT_SPEED Player.JUMP_FORCE Player.GRAVITY
       Player.GROUND_Y Player.WORLD_BOUNDARY Player.WIN_DISTANCE
       Player.PLAYER_RADIUS Player.FOOTSTEP_INTERVAL_WALK
       Player.FOOTSTEP_INTERVAL_SPRINT
       Monster.FOOTSTEP_INTERVAL_BASE Monster.MAX_AUDIBLE_DISTANCE
       Monster.BASE_SPEED Monster.CHASE_SPEED Monster.ATTACK_RANGE
       App.BATTERY_DRAIN_RATE App.BATTERY_RECHARGE_RATE
       lit add sub mul div ltb leb eqb truthy
       Math_sqrt Math_abs Math_max Math_min Exact Q2R Qnum Qden] in *;
  rewrite ?Rinv_1, ?Rmult_1_r in *.

(** ** The player's world boundary *)

Section PlayerBounds.
Context {T : Type} `{JsNum T} `{JsMath T}.

Lemma commit_inBounds (cam : Camera T) (nx ny nz : T) :
  Player.inBounds cam = true ->
  Player.inBounds (Player.commit cam nx ny nz) = true.
Proof.
  unfold Player.inBounds, Player.commit; cbn.
  intros Hin; apply andb_true_iff in Hin as [Hx Hz].
  destruct (ltb (Math_abs nx) Player.WORLD_BOUNDARY) eqn:Ex;
    destruct (ltb (Math_abs nz) Player.WORLD_BOUNDARY) eqn:Ez;
    rewrite ?Ex, ?Ez, ?Hx, ?Hz; reflexivity.
Qed.

Lemma useFrame_inBounds (props : Player.Props T) cam st delta :
  Player.inBounds cam = true ->
  Player.inBounds (fst (fst (Player.useFrame props cam st delta))) = true.
Proof.
  intros Hin; unfold Player.useFrame.
  destruct (negb (Player.active props) || Player.isScaring props); cbn.
  - exact Hin.
  - now apply commit_inBounds.
Qed.

Lemma step_inBounds (s : Camera T * Player.State T) (i : Player.Input) :
  Player.inBounds (fst s) = true ->
  Player.inBounds (fst (Player.step s i)) = true.
Proof.
  destruct s as [cam st]; cbn [fst]; intros Hin.
  destruct i as [props rot q delta | props code | code]; cbn.
  - destruct (Player.useFrame props _ st delta) as [[cam' st'] ev] eqn:E.
    cbn. change cam' with (fst (fst (cam', st', ev))). rewrite <- E.
    now apply useFrame_inBounds.
  - exact Hin.
  - exact Hin.
Qed.

Lemma run_inBounds (inputs : list Player.Input) s :
  Player.inBounds (fst s) = true ->
  Player.inBounds (fst (Player.run s inputs)) = true.
Proof.
  unfold Player.run; revert s.
  induction inputs as [| i rest IH]; intros s Hin; cbn.
  - exact Hin.
  - apply IH. now apply step_inBounds.
Qed.

End PlayerBounds.

Lemma inBounds_exact (cam : Camera R) :
  Player.inBounds cam = true
  <-> (Rabs (x (position cam)) < 98.5 /\ Rabs (z (position cam)) < 98.5)%R.
Proof.
  unfold Player.inBounds. rewrite andb_true_iff.
  change (@ltb R Exact) with Real.ltb. rewrite !Real_ltb_true.
  literals. split; intros [Hx Hz]; split; lra.
Qed.

(** C1.  From a camera inside the boundary, the camera is inside the
    boundary after every prefix of any session (frames and key events in any
    order); in a frame that runs, each horizontal axis takes its candidate
    exactly when the candidate passes the test [|v| < 98.5] and otherwise
    keeps its previous value, independently of the other axis, while the
    vertical coordinate always takes its candidate; and in exact arithmetic
    the test is [|x| < 98.5 /\ |z| < 98.5]. *)
Theorem player_world_boundary :
  forall (T : Type) (N : JsNum T) (M : JsMath T),
    (forall (s0 : Camera T * Player.State T) (inputs : list Player.Input)
            (k : nat),
        Player.inBounds (fst s0) = true ->
        Player.inBounds (fst (Player.run s0 (firstn k inputs))) = true)
    /\ (forall (props : Player.Props T) (cam : Camera T)
               (st : Player.State T) (delta : T),
          Player.active props = true ->
          Player.isScaring props = false ->
          let c := Player.candidate props cam st delta in
          let cam' := fst (fst (Player.useFrame props cam st delta)) in
          x (position cam')
          = (if ltb (Math_abs (Player.nextX c)) Player.WORLD_BOUNDARY
             then Player.nextX c else x (position cam))
          /\ z (position cam')
             = (if ltb (Math_abs (Player.nextZ c)) Player.WORLD_BOUNDARY
                then Player.nextZ c else z (position cam))
          /\ y (position cam') = Player.nextY c)
    /\ (forall cam : Camera R,
          Player.inBounds cam = true
          <-> (Rabs (x (position cam)) < 98.5
               /\ Rabs (z (position cam)) < 98.5)%R).
Proof.
  intros T N M. split; [| split].
  - intros s0 inputs k Hin. now apply run_inBounds.
  - intros props cam st delta Hact Hsc.
    unfold Player.useFrame. rewrite Hact, Hsc. cbn. repeat split.
  - exact inBounds_exact.
Qed.

(** At the sample camera, for a frame followed by a key press; and for a
    walking player's frame among no obstacles. *)
Lemma player_world_boundary_witness :
  Player.inBounds
    (fst (Player.run (Sample.camera, Sample.walking)
            (firstn 2 [Player.Frame (Sample.playerProps [])
                         (rotation Sample.camera) (quaternion Sample.camera)
                         (lit 0.016);
                       Player.KeyDown (Sample.playerProps []) Player.Space])))
  = true
  /\ y (position (fst (fst (Player.useFrame (Sample.playerProps [])
                              Sample.camera Sample.walking (lit 0.016)))))
     = Player.nextY (Player.candidate (Sample.playerProps []) Sample.camera
                                      Sample.walking (lit 0.016)).
Proof.
  destruct (player_world_boundary float Float64 Sample.Math_yaw0) as [Hrun [Hax _]].
  split.
  - apply Hrun. vm_compute. reflexivity.
  - apply (Hax (Sample.playerProps []) Sample.camera Sample.walking
               (lit 0.016)); reflexivity.
Defined.

(** ** The monster's frame, branch by branch *)

Section MonsterFrame.
Context {T : Type} `{JsNum T} `{JsMath T} `{Monster.Object3D T}.

Lemma useFrame_inactive (props : Monster.Props T) cam st delta :
  Monster.active props = false ->
  Monster.useFrame props cam st delta = (st, []).
Proof.
  intros Hact; unfold Monster.useFrame; now rewrite Hact.
Qed.


Lemma caught_app (l1 l2 : list (Monster.Event T)) :
  Monster.caught (l1 ++ l2) = Monster.caught l1 || Monster.caught l2.
Proof. apply existsb_app. Qed.

Lemma footsteps_not_caught (props : Monster.Props T) st dist delta :
  Monster.caught (snd (Monster.footsteps props st dist delta)) = false.
Proof.
  unfold Monster.footsteps.
  destruct (leb _ _); cbn; [| reflexivity].
  destruct (_ && _); reflexivity.
Qed.

(** The catch test of a pursuit frame reads only the distance at the start
    of the frame. *)
Lemma useFrame_pursuing_caught (props : Monster.Props T) cam st mesh delta :
  Monster.active props = true ->
  Monster.isScaring props = false ->
  Monster.meshRef st = Some mesh ->
  Monster.caught (snd (Monster.useFrame props cam st delta))
  = ltb (distanceTo (Monster.mesh_position mesh) (position cam)) (lit 1.9).
Proof.
  intros Hact Hsc Hmesh; unfold Monster.useFrame.
  rewrite Hact, Hmesh, Hsc; cbn [negb snd].
  rewrite !caught_app, footsteps_not_caught.
  destruct (Monster.hasOnDangerUpdate props);
    destruct (ltb _ (lit 1.9)); reflexivity.
Qed.

Lemma useFrame_not_pursuing_caught (props : Monster.Props T) cam st delta :
  Monster.active props = false \/ Monster.isScaring props = true ->
  Monster.caught (snd (Monster.useFrame props cam st delta)) = false.
Proof.
  intros Hph; unfold Monster.useFrame.
  destruct (Monster.active props); cbn; [| reflexivity].
  destruct Hph as [Hact | Hsc]; [discriminate |].
  destruct (Monster.meshRef st); [| reflexivity].
  now rewrite Hsc.
Qed.

End MonsterFrame.

(** C4.  In a pursuit frame (active, not scaring, mesh mounted) [onCatch] is
    called exactly when the distance between monster and camera, taken at
    the start of the frame, tests below 1.9; in exact arithmetic this is the
    strict inequality on the 3D distance; and no frame of an inactive or
    scaring monster calls [onCatch]. *)
Theorem monster_catch_iff_close :
  forall (T : Type) (N : JsNum T) (M : JsMath T) (O : Monster.Object3D T),
    (forall (props : Monster.Props T) cam st mesh delta,
        Monster.active props = true ->
        Monster.isScaring props = false ->
        Monster.meshRef st = Some mesh ->
        Monster.caught (snd (Monster.useFrame props cam st delta))
        = ltb (distanceTo (Monster.mesh_position mesh) (position cam))
              (lit 1.9))
    /\ (forall (MR : JsMath R) (OR : Monster.Object3D R)
               (props : Monster.Props R) cam st mesh delta,
          Monster.active props = true ->
          Monster.isScaring props = false ->
          Monster.meshRef st = Some mesh ->
          Monster.caught (snd (Monster.useFrame props cam st delta)) = true
          <-> (distanceTo (Monster.mesh_position mesh) (position cam)
               < 1.9)%R)
    /\ (forall (props : Monster.Props T) cam st delta,
          Monster.active props = false \/ Monster.isScaring props = true ->
          Monster.caught (snd (Monster.useFrame props cam st delta)) = false).
Proof.
  intros T N M O. split; [| split].
  - intros; now apply useFrame_pursuing_caught.
  - intros MR OR props cam st mesh delta Hact Hsc Hmesh.
    rewrite (useFrame_pursuing_caught props cam st mesh delta Hact Hsc Hmesh).
    change (@ltb R Exact) with Real.ltb. rewrite Real_ltb_true.
    literals. lra.
  - intros; now apply useFrame_not_pursuing_caught.
Qed.

(** The mounted monster, pursuing the sample camera from [[60, 0, 60]]. *)
Lemma monster_catch_iff_close_witness :
  Monster.caught (snd (Monster.useFrame Sample.pursuing Sample.camera
                                        Sample.monster (lit 0.016)))
  = ltb (distanceTo (mkVector3 (lit 60) (lit 0) (lit 60))
                    (position Sample.camera)) (lit 1.9)
  /\ Monster.caught (snd (Monster.useFrame Sample.scaring Sample.camera
                                           Sample.monster (lit 0.016)))
     = false.
Proof.
  destruct (monster_catch_iff_close float Float64 Sample.Math_yaw0
                                    Sample.lookAt_none) as [Hp [_ Hn]].
  split.
  - apply (Hp Sample.pursuing Sample.camera Sample.monster Sample.mesh);
      reflexivity.
  - apply Hn. right. reflexivity.
Defined.

(** ** The jumpscare teleport *)

Section MonsterJumpscare.
Context {T : Type} `{JsNum T} `{JsMath T} `{Monster.Object3D T}.







Lemma isPlaying_false_or_scaring (app : App.State T) :
  App.isPlaying (App.gameState app) = false \/ App.isScaring app = true ->
  Monster.active (App.monsterProps app) = false.
Proof.
  intros [Hg | Hs]; cbn; [now rewrite Hg | now rewrite Hs, andb_false_r].
Qed.



End MonsterJumpscare.




(** ** Early exits *)

(** C9.  The player's frame, when the player is inactive or a jumpscare
    is in progress, returns at the top: the velocity is set to zero, no
    event is emitted, and camera, key state, vertical velocity, grounded
    flag and footstep timer are as before; a key press then changes
    nothing either; with the props [App] hands down this is every frame
    outside play and every frame of a jumpscare.  The monster's frame
    changes nothing and emits nothing when the monster is inactive, which
    with the props [App] hands down again covers every frame outside play
    and every frame of a jumpscare. *)
Theorem early_exit_without_mutation :
  forall (T : Type) (N : JsNum T) (M : JsMath T) (O : Monster.Object3D T),
    (forall (props : Player.Props T) cam st delta,
        Player.active props = false \/ Player.isScaring props = true ->
        Player.useFrame props cam st delta
        = (cam,
           Player.mkState (Player.moveState st)
                          (mkVector3 (lit 0) (lit 0) (lit 0))
                          (Player.verticalVelocity st) (Player.isGrounded st)
                          (Player.footstepAudio st) (Player.footstepTimer st),
           [])
        /\ forall code, Player.handleKeyDown props st code = (st, []))
    /\ (forall (obstacles : list (Obstacle T)) (app : App.State T) cam st
               delta,
          App.isPlaying (App.gameState app) = false
          \/ App.isScaring app = true ->
          Player.useFrame (App.playerProps obstacles app) cam st delta
          = (cam,
             Player.mkState (Player.moveState st)
                            (mkVector3 (lit 0) (lit 0) (lit 0))
                            (Player.verticalVelocity st)
                            (Player.isGrounded st)
                            (Player.footstepAudio st)
                            (Player.footstepTimer st),
             []))
    /\ (forall (props : Monster.Props T) cam st delta,
          Monster.active props = false ->
          Monster.useFrame props cam st delta = (st, []))
    /\ (forall (app : App.State T) cam st delta,
          App.isPlaying (App.gameState app) = false
          \/ App.isScaring app = true ->
          Monster.useFrame (App.monsterProps app) cam st delta = (st, [])).
Proof.
  intros T N M O.
  assert (Hplayer : forall (props : Player.Props T) cam st delta,
             Player.active props = false \/ Player.isScaring props = true ->
             Player.useFrame props cam st delta
             = (cam,
                Player.mkState (Player.moveState st)
                               (mkVector3 (lit 0) (lit 0) (lit 0))
                               (Player.verticalVelocity st)
                               (Player.isGrounded st)
                               (Player.footstepAudio st)
                               (Player.footstepTimer st),
                [])).
  { intros props cam st delta Hph. unfold Player.useFrame.
    destruct Hph as [Hact | Hsc]; [rewrite Hact | rewrite Hsc, orb_true_r];
      reflexivity. }
  split; [| split; [| split]].
  - intros props cam st delta Hph. split; [now apply Hplayer |].
    intros code. unfold Player.handleKeyDown.
    destruct Hph as [Hact | Hsc]; [rewrite Hact | rewrite Hsc, orb_true_r];
      reflexivity.
  - intros obstacles app cam st delta Hph. apply Hplayer.
    cbn [App.playerProps Player.active Player.isScaring].
    destruct Hph as [Hg | Hs]; [now left | now right].
  - intros; now apply useFrame_inactive.
  - intros app cam st delta Hph.
    apply useFrame_inactive. now apply isPlaying_false_or_scaring.
Qed.

(** A scaring player, a dormant monster, and player and monster as wired
    by the orchestrator once [handleCatch] has started the jumpscare. *)
Lemma early_exit_without_mutation_witness :
  fst (fst (Player.useFrame
              (Player.mkProps true true (lit 100) [] (lit 0.8) false true)
              Sample.camera Sample.walking (lit 0.016)))
  = Sample.camera
  /\ fst (fst (Player.useFrame (App.playerProps [] Sample.scared)
                               Sample.camera Sample.walking (lit 0.016)))
     = Sample.camera
  /\ Monster.useFrame Sample.dormant Sample.camera Sample.monster (lit 0.016)
     = (Sample.monster, [])
  /\ Monster.useFrame (App.monsterProps Sample.scared)
                      Sample.camera Sample.monster (lit 0.016)
     = (Sample.monster, []).
Proof.
  destruct (early_exit_without_mutation float Float64 Sample.Math_yaw0
                                        Sample.lookAt_none)
    as [Hp [Ha [Hm Hw]]].
  split; [| split; [| split]].
  - rewrite (proj1 (Hp (Player.mkProps true true (lit 100) [] (lit 0.8)
                                       false true)
                       Sample.camera Sample.walking (lit 0.016)
                       (or_intror eq_refl))).
    reflexivity.
  - rewrite (Ha [] Sample.scared Sample.camera Sample.walking (lit 0.016)
                (or_intror eq_refl)).
    reflexivity.
  - apply Hm. reflexivity.
  - apply Hw. right. reflexivity.
Defined.

(** ** The catch handler *)

Section Catch.
Context {T : Type} `{JsNum T}.


(** With the render it was made by, a callback of [Closure] is the handler
    of [App]. *)
Lemma call_rendered (st : App.State T) (i : App.Input) :
  Closure.call (Closure.rendered st) i
  = (Closure.mkWorld (fst (App.step st i)) st, snd (App.step st i)).
Proof.
  destruct i; reflexivity.
Qed.

(** [App.run] is the episode in which React renders after every call. *)
Lemma run_rerendering (inputs : list App.Input) :
  forall st : App.State T,
    Closure.run (Closure.rendered st) (Closure.rerendering inputs)
    = (Closure.rendered (fst (App.run st inputs)),
       snd (App.run st inputs)).
Proof.
  induction inputs as [| i rest IH]; intros st; [reflexivity |].
  cbn [Closure.rerendering flat_map app Closure.run Closure.step].
  fold (Closure.rerendering rest).
  rewrite call_rendered. cbn [fst snd Closure.live].
  fold (Closure.rendered (fst (App.step st i))). rewrite IH.
  cbn [App.run fst snd].
  destruct (App.step st i) as [st1 e1]; cbn [fst snd].
  destruct (App.run st1 rest) as [st2 e2]; cbn [fst snd].
  now rewrite app_nil_l.
Qed.






Lemma call_seen (w : Closure.World T) (i : App.Input) :
  Closure.seen (fst (Closure.call w i)) = Closure.seen w.
Proof. reflexivity. Qed.



End Catch.

Section CatchOnce.
Context {T : Type} `{JsNum T}.


Lemma hearing_not_deaf (st : App.State T) :
  Closure.hearing st -> App.deaf st -> False.
Proof.
  unfold Closure.hearing, App.deaf. intros [Hg Hs] [Hs' | Hg'].
  - congruence.
  - rewrite Hg in Hg'. discriminate.
Qed.



End CatchOnce.




(** ** The danger level *)

(** Case analysis on every [Rmax] and [Rmin] of the goal. *)
Ltac clamp_cases :=
  unfold Rmax, Rmin in *;
  repeat match goal with
         | |- context [Rle_dec ?a ?b] => destruct (Rle_dec a b)
         | H : context [Rle_dec ?a ?b] |- _ => destruct (Rle_dec a b)
         end;
  lra.

Lemma dangerLevel_exact (d : R) :
  Monster.dangerLevel d = Rmax 0 (Rmin 1 (1 - d / 35)).
Proof.
  unfold Monster.dangerLevel, clamp. literals. reflexivity.
Qed.

Lemma dangerLevel_published {T} `{JsNum T} `{JsMath T} `{Monster.Object3D T}
  (props : Monster.Props T) cam st mesh delta :
  Monster.active props = true ->
  Monster.isScaring props = false ->
  Monster.hasOnDangerUpdate props = true ->
  Monster.meshRef st = Some mesh ->
  In (Monster.onDangerUpdate
        (clamp (sub (lit 1)
                    (div (distanceTo (Monster.mesh_position mesh)
                                     (position cam)) (lit 35)))
               (lit 0) (lit 1)))
     (snd (Monster.useFrame props cam st delta)).
Proof.
  intros Hact Hsc Hcb Hmesh. unfold Monster.useFrame.
  rewrite Hact, Hmesh, Hsc, Hcb; cbn [negb snd].
  apply in_or_app; right. left. reflexivity.
Qed.

(** C6.  Every pursuit frame hands [clamp(1 - dist/35, 0, 1)] to
    [onDangerUpdate], where [dist] is the distance at the start of the
    frame.  In exact arithmetic this value is [max 0 (min 1 (1 - d/35))]: it
    does not increase when the distance grows, lies in [[0, 1]], is 1 at
    distance 0 and is 0 from distance 35 on.  In binary64 it is 1 at 0 and
    0 at 35 as well. *)
Theorem danger_level_clamped_monotone :
  forall (T : Type) (N : JsNum T) (M : JsMath T) (O : Monster.Object3D T),
    (forall (props : Monster.Props T) cam st mesh delta,
        Monster.active props = true ->
        Monster.isScaring props = false ->
        Monster.hasOnDangerUpdate props = true ->
        Monster.meshRef st = Some mesh ->
        In (Monster.onDangerUpdate
              (clamp (sub (lit 1)
                          (div (distanceTo (Monster.mesh_position mesh)
                                           (position cam)) (lit 35)))
                     (lit 0) (lit 1)))
           (snd (Monster.useFrame props cam st delta)))
    /\ (forall d : R, Monster.dangerLevel d = Rmax 0 (Rmin 1 (1 - d / 35)))
    /\ (forall d1 d2 : R,
          (d1 <= d2)%R ->
          (Monster.dangerLevel d2 <= Monster.dangerLevel d1)%R)
    /\ (forall d : R, (0 <= Monster.dangerLevel d <= 1)%R)
    /\ Monster.dangerLevel 0%R = 1%R
    /\ (forall d : R, (35 <= d)%R -> Monster.dangerLevel d = 0%R)
    /\ Monster.dangerLevel (lit 0 : float) = lit 1
    /\ Monster.dangerLevel (lit 35 : float) = lit 0.
Proof.
  intros T N M O.
  split; [intros; now apply dangerLevel_published |].
  split; [exact dangerLevel_exact |].
  split; [| split; [| split; [| split; [| split]]]].
  - intros d1 d2 Hle. rewrite !dangerLevel_exact. clamp_cases.
  - intros d. rewrite dangerLevel_exact. clamp_cases.
  - rewrite dangerLevel_exact. clamp_cases.
  - intros d Hd. rewrite dangerLevel_exact. clamp_cases.
  - vm_compute. reflexivity.
  - vm_compute. reflexivity.
Qed.

(** Distances 10 and 20 in exact arithmetic; the mounted monster pursuing
    the sample camera in binary64. *)
Lemma danger_level_clamped_monotone_witness :
  (Monster.dangerLevel 20 <= Monster.dangerLevel 10)%R
  /\ Monster.dangerLevel 40%R = 0%R
  /\ In (Monster.onDangerUpdate
           (clamp (sub (lit 1)
                       (div (distanceTo (mkVector3 (lit 60) (lit 0) (lit 60))
                                        (position Sample.camera)) (lit 35)))
                  (lit 0) (lit 1)))
        (snd (Monster.useFrame Sample.pursuing Sample.camera Sample.monster
                               (lit 0.016))).
Proof.
  destruct (danger_level_clamped_monotone float Float64 Sample.Math_yaw0
                                          Sample.lookAt_none)
    as [Hpub [_ [Hmono [_ [_ [Hfar _]]]]]].
  split; [| split].
  - apply Hmono. lra.
  - apply Hfar. lra.
  - apply (Hpub Sample.pursuing Sample.camera Sample.monster Sample.mesh);
      reflexivity.
Defined.

(** ** Battery regulation *)

Section Battery.
Local Open Scope R_scope.

Lemma drain_per_tick : @App.BATTERY_DRAIN_RATE R Exact * lit 0.1 = 0.08.
Proof. literals. lra. Qed.

Lemma recharge_per_tick : @App.BATTERY_RECHARGE_RATE R Exact * lit 0.1 = 0.04.
Proof. literals. lra. Qed.

Lemma batteryTick_on (st : App.State R) :
  App.isPlaying (App.gameState st) = true ->
  App.flashlightOn st = true ->
  App.battery (App.batteryTick st) = Rmax 0 (App.battery st - 0.08)
  /\ App.flashlightOn (App.batteryTick st)
     = negb (Real.eqb (Rmax 0 (App.battery st - 0.08)) 0)
  /\ App.gameState (App.batteryTick st) = App.gameState st.
Proof.
  intros Hg Hl. unfold App.batteryTick. rewrite Hg, Hl. cbn.
  replace (Q2R 0) with 0 by (unfold Q2R; cbn; lra).
  replace (App.battery st - 0.8 * 0.1) with (App.battery st - 0.08) by lra.
  repeat split. rewrite andb_true_r.
  destruct (Real.eqb _ 0); reflexivity.
Qed.

Lemma batteryTick_off (st : App.State R) :
  App.isPlaying (App.gameState st) = true ->
  App.flashlightOn st = false ->
  App.battery (App.batteryTick st) = Rmin 100 (App.battery st + 0.04)
  /\ App.flashlightOn (App.batteryTick st) = false
  /\ App.gameState (App.batteryTick st) = App.gameState st.
Proof.
  intros Hg Hl. unfold App.batteryTick. rewrite Hg, Hl. cbn.
  replace (Q2R 100) with 100 by (unfold Q2R; cbn; lra).
  replace (App.battery st + 0.4 * 0.1) with (App.battery st + 0.04) by lra.
  repeat split.
Qed.

Lemma batteryTick_range (st : App.State R) :
  0 <= App.battery st <= 100 ->
  0 <= App.battery (App.batteryTick st) <= 100.
Proof.
  intros Hb. destruct (App.isPlaying (App.gameState st)) eqn:Hg;
    [| unfold App.batteryTick; now rewrite Hg].
  destruct (App.flashlightOn st) eqn:Hl.
  - destruct (batteryTick_on st Hg Hl) as [-> _]. clamp_cases.
  - destruct (batteryTick_off st Hg Hl) as [-> _]. clamp_cases.
Qed.

(** While charge remains for another full step the light stays on. *)
Lemma batteryTicks_draining (n : nat) :
  forall (st : App.State R) (j : nat),
    App.isPlaying (App.gameState st) = true ->
    App.flashlightOn st = true ->
    App.battery st = 100 - 0.08 * INR j ->
    (j + n < 1250)%nat ->
    let st' := App.batteryTicks n st in
    App.isPlaying (App.gameState st') = true
    /\ App.flashlightOn st' = true
    /\ App.battery st' = 100 - 0.08 * INR (j + n).
Proof.
  induction n as [| n IH]; intros st j Hg Hl Hb Hlt; cbn.
  - rewrite Nat.add_0_r. auto.
  - destruct (batteryTick_on st Hg Hl) as [Hb' [Hl' Hg']].
    assert (Hj : INR j + 1 <= 1249).
    { rewrite <- S_INR. change 1249 with (IZR (Z.of_nat 1249)).
      rewrite <- INR_IZR_INZ. apply le_INR. lia. }
    assert (Hnext : App.battery (App.batteryTick st) = 100 - 0.08 * INR (S j)).
    { rewrite Hb', Hb, S_INR. unfold Rmax.
      destruct (Rle_dec 0 (100 - 0.08 * INR j - 0.08)); lra. }
    assert (Hon : App.flashlightOn (App.batteryTick st) = true).
    { rewrite Hl'. rewrite <- Hb', Hnext, S_INR.
      apply negb_true_iff, Real_eqb_false. lra. }
    rewrite <- Hg' in Hg.
    replace (j + S n)%nat with (S j + n)%nat by lia.
    apply (IH (App.batteryTick st) (S j) Hg Hon Hnext). lia.
Qed.

Lemma batteryTicks_snoc (n : nat) (st : App.State R) :
  App.batteryTicks (S n) st = App.batteryTick (App.batteryTicks n st).
Proof.
  revert st. induction n as [| n IH]; intros st; [reflexivity |].
  change (App.batteryTicks (S (S n)) st)
    with (App.batteryTicks (S n) (App.batteryTick st)).
  rewrite IH. reflexivity.
Qed.

Lemma batteryTicks_empty (st : App.State R) :
  App.isPlaying (App.gameState st) = true ->
  App.flashlightOn st = true ->
  App.battery st = 100 ->
  App.battery (App.batteryTicks 1250 st) = 0
  /\ App.flashlightOn (App.batteryTicks 1250 st) = false.
Proof.
  intros Hg Hl Hb.
  assert (Hb0 : App.battery st = 100 - 0.08 * INR 0) by (cbn; lra).
  destruct (batteryTicks_draining 1249 st 0 Hg Hl Hb0 ltac:(lia))
    as [Hg' [Hl' Hb']].
  rewrite batteryTicks_snoc.
  destruct (batteryTick_on _ Hg' Hl') as [Hbat [Hlight _]].
  assert (H1249 : INR (0 + 1249) = 1249).
  { rewrite INR_IZR_INZ. reflexivity. }
  assert (Hzero : Rmax 0 (App.battery (App.batteryTicks 1249 st) - 0.08) = 0).
  { rewrite Hb', H1249. unfold Rmax.
    destruct (Rle_dec 0 (100 - 0.08 * 1249 - 0.08)); lra. }
  split.
  - now rewrite Hbat.
  - rewrite Hlight, Hzero. apply negb_false_iff, Real_eqb_true. reflexivity.
Qed.

End Battery.

(** C8.  In play, one run of the 100 ms interval (exact arithmetic): with
    the light on the battery becomes [max 0 (b - 0.08)] and the light goes
    off exactly when that is 0; with the light off the battery becomes
    [min 100 (b + 0.04)] and the light stays off; a battery in [[0, 100]]
    stays there.  From battery 100 with the light on: after 10 runs the
    battery is [100 - 0.8] and the light is on; the light is on after each
    of the first 1249 runs; after 1250 runs the battery is 0 and the light
    is off.  In binary64 the same start gives a battery within [1e-9] of
    99.2 after 10 runs, and the battery reaches 0 and the light goes off
    at run 1251. *)
Theorem battery_regulation :
  (forall st : App.State R,
      App.isPlaying (App.gameState st) = true ->
      App.flashlightOn st = true ->
      App.battery (App.batteryTick st) = Rmax 0 (App.battery st - 0.08)
      /\ (App.flashlightOn (App.batteryTick st) = false
          <-> App.battery (App.batteryTick st) = 0%R))
  /\ (forall st : App.State R,
        App.isPlaying (App.gameState st) = true ->
        App.flashlightOn st = false ->
        App.battery (App.batteryTick st) = Rmin 100 (App.battery st + 0.04)
        /\ App.flashlightOn (App.batteryTick st) = false)
  /\ (forall st : App.State R,
        (0 <= App.battery st <= 100)%R ->
        (0 <= App.battery (App.batteryTick st) <= 100)%R)
  /\ (forall st : App.State R,
        App.isPlaying (App.gameState st) = true ->
        App.flashlightOn st = true ->
        App.battery st = 100%R ->
        App.battery (App.batteryTicks 10 st) = (100 - 0.8)%R
        /\ App.flashlightOn (App.batteryTicks 10 st) = true
        /\ (forall n, n < 1250 ->
                      App.flashlightOn (App.batteryTicks n st) = true)
        /\ App.battery (App.batteryTicks 1250 st) = 0%R
        /\ App.flashlightOn (App.batteryTicks 1250 st) = false)
  /\ (Sample.near (App.battery (App.batteryTicks 10 Sample.playing))
                  (lit 99.2) (div (lit 1) (lit 1000000000)) = true
      /\ Sample.lightStaysOn 1250 = true
      /\ App.battery (App.batteryTicks 1251 Sample.playing) = lit 0
      /\ App.flashlightOn (App.batteryTicks 1251 Sample.playing) = false).
Proof.
  split; [| split; [| split; [| split]]].
  - intros st Hg Hl. destruct (batteryTick_on st Hg Hl) as [Hb [Hl' _]].
    split; [exact Hb |]. rewrite Hl', Hb, negb_false_iff.
    apply Real_eqb_true.
  - intros st Hg Hl. destruct (batteryTick_off st Hg Hl) as [Hb [Hl' _]].
    auto.
  - exact batteryTick_range.
  - intros st Hg Hl Hb.
    assert (Hb0 : App.battery st = (100 - 0.08 * INR 0)%R) by (cbn; lra).
    destruct (batteryTicks_draining 10 st 0 Hg Hl Hb0 ltac:(lia))
      as [_ [Hl10 Hb10]].
    destruct (batteryTicks_empty st Hg Hl Hb) as [Hb1250 Hl1250].
    split; [| split; [exact Hl10 | split; [| split; assumption]]].
    + rewrite Hb10. replace (INR (0 + 10)) with 10%R
        by (rewrite INR_IZR_INZ; reflexivity). lra.
    + intros n Hn.
      destruct (batteryTicks_draining n st 0 Hg Hl Hb0 ltac:(lia))
        as [_ [Hln _]]. exact Hln.
  - repeat split; vm_compute; reflexivity.
Qed.

(** The orchestrator right after [initGame], in exact arithmetic. *)
Lemma battery_regulation_witness :
  App.battery (App.batteryTicks 10 (App.initGame (@App.initial R Exact)))
  = (100 - 0.8)%R
  /\ App.flashlightOn
       (App.batteryTicks 1250 (App.initGame (@App.initial R Exact))) = false.
Proof.
  destruct battery_regulation as [_ [_ [_ [Hrun _]]]].
  destruct (Hrun (App.initGame (@App.initial R Exact)))
    as [Hb [_ [_ [_ Hl]]]].
  - reflexivity.
  - reflexivity.
  - cbn. literals. reflexivity.
  - split; assumption.
Defined.

(** ** The obstacle pass, in exact arithmetic *)

Section ObstaclePass.
Local Open Scope R_scope.

Lemma norm_triangle (u1 u2 v1 v2 : R) :
  R_sqrt.sqrt ((u1 + v1) * (u1 + v1) + (u2 + v2) * (u2 + v2))
  <= R_sqrt.sqrt (u1 * u1 + u2 * u2) + R_sqrt.sqrt (v1 * v1 + v2 * v2).
Proof.
  set (A := R_sqrt.sqrt (u1 * u1 + u2 * u2)).
  set (B := R_sqrt.sqrt (v1 * v1 + v2 * v2)).
  assert (HA : 0 <= A) by apply sqrt_pos.
  assert (HB : 0 <= B) by apply sqrt_pos.
  assert (HA2 : A * A = u1 * u1 + u2 * u2) by (apply sqrt_sqrt; nra).
  assert (HB2 : B * B = v1 * v1 + v2 * v2) by (apply sqrt_sqrt; nra).
  assert (Hcs : u1 * v1 + u2 * v2 <= A * B).
  { assert (Hsq : (u1 * v1 + u2 * v2) * (u1 * v1 + u2 * v2)
                  <= (A * B) * (A * B)).
    { replace ((A * B) * (A * B)) with ((A * A) * (B * B)) by ring.
      rewrite HA2, HB2.
      pose proof (Rle_0_sqr (u1 * v2 - u2 * v1)) as Hdet. unfold Rsqr in Hdet.
      clear HA HB HA2 HB2. nra. }
    assert (0 <= A * B) by nra.
    nra. }
  rewrite <- (sqrt_square (A + B)) by lra.
  apply sqrt_le_1_alt. nra.
Qed.

Lemma pushOut_exact (p : R * R) (o : Obstacle R) :
  let dx := fst p - position0 o in
  let dz := snd p - position2 o in
  let d := Player.horizontalDistance p o in
  let c := Player.radiusSum o in
  Player.pushOut p o
  = if Rlt_dec (dx * dx + dz * dz) (c * c)
    then (fst p + dx / d * (c - d), snd p + dz / d * (c - d))
    else p.
Proof.
  cbv zeta. unfold Player.pushOut, Player.horizontalDistance, Player.radiusSum.
  cbn -[Q2R]. unfold Real.ltb.
  destruct (Rlt_dec _ _); [reflexivity | now destruct p].
Qed.

Lemma radiusSum_pos (o : Obstacle R) :
  0 <= radius o -> 0 < Player.radiusSum o.
Proof.
  intros Hr. unfold Player.radiusSum. literals. lra.
Qed.

Lemma horizontalDistance_flip (p : R * R) (o : Obstacle R) :
  Player.horizontalDistance p o
  = R_sqrt.sqrt ((position0 o - fst p) * (position0 o - fst p)
          + (position2 o - snd p) * (position2 o - snd p)).
Proof.
  unfold Player.horizontalDistance. cbn. f_equal. ring.
Qed.

(** After its own iteration the candidate is outside the obstacle's disc,
    unless it stood exactly on the centre. *)
Lemma pushOut_result (p : R * R) (o : Obstacle R) :
  0 <= radius o ->
  0 < Player.horizontalDistance p o ->
  (Player.pushOut p o = p
   /\ Player.radiusSum o <= Player.horizontalDistance p o)
  \/ Player.horizontalDistance (Player.pushOut p o) o = Player.radiusSum o.
Proof.
  intros Hr Hd. pose proof (radiusSum_pos o Hr) as Hc.
  rewrite pushOut_exact.
  set (c := Player.radiusSum o) in *.
  set (d := Player.horizontalDistance p o) in *.
  set (dx := fst p - position0 o). set (dz := snd p - position2 o).
  assert (Hdd : d * d = dx * dx + dz * dz).
  { unfold d, Player.horizontalDistance. cbn. fold dx dz.
    apply sqrt_sqrt. nra. }
  assert (Hle : c * c <= dx * dx + dz * dz -> c <= d).
  { intros Hout. apply Rle_trans with (R_sqrt.sqrt (c * c)).
    - rewrite sqrt_square; lra.
    - unfold d, Player.horizontalDistance. cbn. fold dx dz.
      apply sqrt_le_1_alt. exact Hout. }
  clearbody d c.
  destruct (Rlt_dec (dx * dx + dz * dz) (c * c)) as [Hin | Hout].
  - right. unfold Player.horizontalDistance.
    cbn [fst snd Math_sqrt add sub mul div Exact].
    replace (fst p + dx / d * (c - d) - position0 o) with (dx * (c / d))
      by (unfold dx; field; lra).
    replace (snd p + dz / d * (c - d) - position2 o) with (dz * (c / d))
      by (unfold dz; field; lra).
    replace (dx * (c / d) * (dx * (c / d)) + dz * (c / d) * (dz * (c / d)))
      with (c * c).
    + apply sqrt_square. lra.
    + transitivity ((dx * dx + dz * dz) * (c * c) / (d * d)).
      * rewrite <- Hdd. field. lra.
      * field. lra.
  - left. split; [reflexivity |]. apply Hle. lra.
Qed.

(** A point within the disc of [b] is outside the disc of any obstacle that
    is apart from [b]. *)
Lemma outside_other_disc (p : R * R) (a b : Obstacle R) :
  Player.horizontalDistance p b <= Player.radiusSum b ->
  Player.apart a b \/ Player.apart b a ->
  Player.radiusSum a <= Player.horizontalDistance p a.
Proof.
  intros Hb [Hab | Hba].
  - unfold Player.apart in Hab.
    pose proof (norm_triangle (position0 a - fst p) (position2 a - snd p)
                              (fst p - position0 b) (snd p - position2 b))
      as Htri.
    rewrite <- horizontalDistance_flip in Htri.
    replace (position0 a - fst p + (fst p - position0 b))
      with (position0 a - position0 b) in Htri by ring.
    replace (position2 a - snd p + (snd p - position2 b))
      with (position2 a - position2 b) in Htri by ring.
    unfold Player.horizontalDistance in *. cbn in *. lra.
  - unfold Player.apart in Hba.
    pose proof (norm_triangle (position0 b - fst p) (position2 b - snd p)
                              (fst p - position0 a) (snd p - position2 a))
      as Htri.
    rewrite <- horizontalDistance_flip in Htri.
    replace (position0 b - fst p + (fst p - position0 a))
      with (position0 b - position0 a) in Htri by ring.
    replace (position2 b - snd p + (snd p - position2 a))
      with (position2 b - position2 a) in Htri by ring.
    unfold Player.horizontalDistance in *. cbn in *. lra.
Qed.

(** One iteration keeps the candidate off the centre and outside the disc
    of an obstacle that is apart from the one being handled. *)
Lemma pushOut_other (p : R * R) (o b : Obstacle R) :
  Player.apart o b \/ Player.apart b o ->
  0 <= radius o -> 0 <= radius b ->
  0 < Player.horizontalDistance p b ->
  (0 < Player.horizontalDistance p o ->
   0 < Player.horizontalDistance (Player.pushOut p b) o)
  /\ (Player.radiusSum o <= Player.horizontalDistance p o ->
      Player.radiusSum o <= Player.horizontalDistance (Player.pushOut p b) o).
Proof.
  intros Hap Ho Hb Hpb. pose proof (radiusSum_pos o Ho) as Hc.
  destruct (pushOut_result p b Hb Hpb) as [[-> _] | Hon].
  - auto.
  - assert (Hfar : Player.radiusSum o
                   <= Player.horizontalDistance (Player.pushOut p b) o).
    { apply (outside_other_disc _ o b); [lra | exact Hap]. }
    split; intros _; lra.
Qed.

Lemma resolve_cons (p : R * R) (b : Obstacle R) rest :
  Player.resolveObstacles (b :: rest) p
  = Player.resolveObstacles rest (Player.pushOut p b).
Proof. reflexivity. Qed.

(** The rest of the pass does not bring the candidate back into a disc it
    is outside of, if the remaining obstacles are apart from it and from
    each other. *)
Lemma resolve_keeps (rest : list (Obstacle R)) :
  forall (p : R * R) (a : Obstacle R),
    Forall (Player.apart a) rest ->
    Player.separated rest ->
    0 <= radius a ->
    (forall o, In o rest -> 0 <= radius o) ->
    (forall o, In o rest -> 0 < Player.horizontalDistance p o) ->
    Player.radiusSum a <= Player.horizontalDistance p a ->
    Player.radiusSum a
    <= Player.horizontalDistance (Player.resolveObstacles rest p) a.
Proof.
  induction rest as [| b rest IH]; intros p a Hap Hsep Ha Hrad Hoff Hout.
  - exact Hout.
  - rewrite resolve_cons.
    inversion Hap as [| ? ? Hab Hap']; subst.
    destruct Hsep as [Hb Hsep].
    assert (Hrb : 0 <= radius b) by (apply Hrad; now left).
    assert (Hpb : 0 < Player.horizontalDistance p b)
      by (apply Hoff; now left).
    apply IH; auto.
    + intros o Ho. apply Hrad. now right.
    + intros o Ho.
      apply (pushOut_other p o b); auto.
      * right. rewrite Forall_forall in Hb. now apply Hb.
      * apply Hrad. now right.
      * apply Hoff. now right.
    + apply (pushOut_other p a b); auto.
Qed.

(** After the pass the candidate is outside every disc. *)
Lemma resolve_clear (obs : list (Obstacle R)) :
  forall p : R * R,
    Player.separated obs ->
    (forall o, In o obs -> 0 <= radius o) ->
    (forall o, In o obs -> 0 < Player.horizontalDistance p o) ->
    forall o, In o obs ->
      Player.radiusSum o
      <= Player.horizontalDistance (Player.resolveObstacles obs p) o.
Proof.
  induction obs as [| b rest IH]; intros p Hsep Hrad Hoff o Ho.
  - destruct Ho.
  - rewrite resolve_cons. destruct Hsep as [Hb Hsep].
    assert (Hrb : 0 <= radius b) by (apply Hrad; now left).
    assert (Hpb : 0 < Player.horizontalDistance p b)
      by (apply Hoff; now left).
    assert (Hoff' : forall o', In o' rest ->
               0 < Player.horizontalDistance (Player.pushOut p b) o').
    { intros o' Ho'. apply (pushOut_other p o' b); auto.
      - right. rewrite Forall_forall in Hb. now apply Hb.
      - apply Hrad. now right.
      - apply Hoff. now right. }
    destruct Ho as [<- | Ho].
    + apply resolve_keeps; auto.
      * intros o' Ho'. apply Hrad. now right.
      * destruct (pushOut_result p b Hrb Hpb) as [[-> Hfar] | Hon]; lra.
    + apply IH; auto. intros o' Ho'. apply Hrad. now right.
Qed.

End ObstaclePass.

(** ** The pursuit move, in exact arithmetic *)

Lemma squares2_nonneg (a b : R) : (0 <= a * a + b * b)%R.
Proof. nra. Qed.

Lemma squares3_nonneg (a b c : R) : (0 <= a * a + b * b + c * c)%R.
Proof. nra. Qed.

Section Pursuit.
Context {M : JsMath R}.
Local Open Scope R_scope.

Lemma length_sub_distance (p m : Vector3 R) :
  length (subVectors p m) = distanceTo m p.
Proof.
  unfold length, distanceTo, distanceToSquared, subVectors. cbn.
  f_equal. ring.
Qed.

Lemma distance_square (m p : Vector3 R) :
  distanceTo m p * distanceTo m p
  = Monster.offset2 p m + (y p - y m) * (y p - y m).
Proof.
  unfold distanceTo, distanceToSquared, Monster.offset2. cbn.
  rewrite sqrt_sqrt; [ring | apply squares3_nonneg].
Qed.

Lemma normalize_apart (p m : Vector3 R) :
  0 < distanceTo m p ->
  normalize (subVectors p m)
  = mkVector3 ((x p - x m) * (1 / distanceTo m p))
              ((y p - y m) * (1 / distanceTo m p))
              ((z p - z m) * (1 / distanceTo m p)).
Proof.
  intros Hd. unfold normalize. rewrite length_sub_distance.
  cbn [truthy Exact].
  assert (Hne : Real.eqb (distanceTo m p) 0 = false)
    by (apply Real_eqb_false; lra).
  rewrite Hne. cbn [negb].
  unfold divideScalar, multiplyScalar, subVectors. cbn.
  replace (Q2R 1) with 1 by (unfold Q2R; cbn; lra). reflexivity.
Qed.

Lemma normalize_coincident (p : Vector3 R) :
  normalize (subVectors p p) = mkVector3 0 0 0.
Proof.
  unfold normalize.
  assert (Hlen : length (subVectors p p) = 0).
  { unfold length, subVectors. cbn.
    replace ((x p - x p) * (x p - x p) + (y p - y p) * (y p - y p)
             + (z p - z p) * (z p - z p)) with 0 by ring.
    apply sqrt_0. }
  rewrite Hlen. cbn [truthy Exact].
  assert (Hz : Real.eqb 0 0 = true) by (now apply Real_eqb_true).
  rewrite Hz. cbn [negb].
  unfold divideScalar, multiplyScalar, subVectors. cbn.
  f_equal; ring.
Qed.

Lemma pursue_position (p : Vector3 R) (mesh : Monster.Mesh R) (delta : R) :
  let m := Monster.mesh_position mesh in
  let d := distanceTo m p in
  0 < d ->
  Monster.mesh_position (Monster.pursue p mesh delta)
  = mkVector3 (x m + (x p - x m) * (Monster.currentSpeed d * delta / d))
              (y m)
              (z m + (z p - z m) * (Monster.currentSpeed d * delta / d)).
Proof.
  cbv zeta. intros Hd. unfold Monster.pursue. cbn [Monster.mesh_position].
  rewrite (normalize_apart p _ Hd).
  remember (distanceTo (Monster.mesh_position mesh) p) as d eqn:Ed.
  cbn. f_equal; field; lra.
Qed.

(** The length of the move is the speed times the frame time, scaled by
    the horizontal share of the offset. *)
Lemma pursue_step_length (p : Vector3 R) (mesh : Monster.Mesh R) (delta : R) :
  let m := Monster.mesh_position mesh in
  let m' := Monster.mesh_position (Monster.pursue p mesh delta) in
  let d := distanceTo m p in
  0 < d ->
  Monster.offset2 m' m
  = (Monster.currentSpeed d * delta) * (Monster.currentSpeed d * delta)
    * (Monster.offset2 p m / (d * d)).
Proof.
  cbv zeta. intros Hd. rewrite (pursue_position p mesh delta Hd).
  remember (distanceTo (Monster.mesh_position mesh) p) as d eqn:Ed.
  unfold Monster.offset2. cbn [x y z]. field. lra.
Qed.

Lemma currentSpeed_exact (d : R) :
  Monster.currentSpeed d = if Rlt_dec d 14 then 6.8 else 4.6.
Proof.
  unfold Monster.currentSpeed. cbn. unfold Real.ltb.
  replace (Q2R 14) with 14 by (unfold Q2R; cbn; lra).
  destruct (Rlt_dec d 14); unfold Q2R; cbn; lra.
Qed.

(** A frame brings the monster strictly closer, unless it stands right
    above or below the player or would overshoot by a whole step. *)
Lemma pursue_closer (p : Vector3 R) (mesh : Monster.Mesh R) (delta : R) :
  let m := Monster.mesh_position mesh in
  let m' := Monster.mesh_position (Monster.pursue p mesh delta) in
  let d := distanceTo m p in
  0 < delta ->
  0 < Monster.offset2 p m ->
  Monster.currentSpeed d * delta < 2 * d ->
  distanceTo m' p < d.
Proof.
  cbv zeta. intros Hdelta Hoff Hstep.
  set (m := Monster.mesh_position mesh) in *.
  set (d := distanceTo m p) in *.
  assert (Hdd : d * d = Monster.offset2 p m + (y p - y m) * (y p - y m))
    by apply distance_square.
  assert (Hd0 : 0 <= d) by apply sqrt_pos.
  assert (Hy : 0 <= (y p - y m) * (y p - y m)) by exact (Rle_0_sqr _).
  assert (Hd : 0 < d) by nra.
  assert (Hs : 0 < Monster.currentSpeed d).
  { rewrite currentSpeed_exact. destruct (Rlt_dec d 14); lra. }
  rewrite (pursue_position p mesh delta Hd). fold m d.
  set (k := Monster.currentSpeed d * delta / d).
  assert (Hk : 0 < k < 2).
  { unfold k. split.
    - apply Rdiv_lt_0_compat; nra.
    - apply Rmult_lt_reg_r with d; [exact Hd |].
      unfold Rdiv. rewrite Rmult_assoc, Rinv_l by lra. lra. }
  clearbody k d.
  rewrite <- (sqrt_square d) by lra.
  unfold distanceTo, distanceToSquared. cbn.
  apply sqrt_lt_1_alt. unfold Monster.offset2 in *.
  split; [apply squares3_nonneg |].
  rewrite Hdd.
  replace ((x m + (x p - x m) * k - x p) * (x m + (x p - x m) * k - x p)
           + (y m - y p) * (y m - y p)
           + (z m + (z p - z m) * k - z p) * (z m + (z p - z m) * k - z p))
    with ((1 - k) * (1 - k)
          * ((x p - x m) * (x p - x m) + (z p - z m) * (z p - z m))
          + (y p - y m) * (y p - y m)) by ring.
  assert (Hsq : (1 - k) * (1 - k) < 1) by nra.
  nra.
Qed.

End Pursuit.

(** ** The obstacle pass within the frame *)

Section ObstacleFrame.
Context {M : JsMath R}.
Local Open Scope R_scope.

Lemma candidate_next (props : Player.Props R) cam st delta :
  (Player.nextX (Player.candidate props cam st delta),
   Player.nextZ (Player.candidate props cam st delta))
  = Player.resolveObstacles (Player.obstacles props)
                            (Player.uncorrected cam st delta).
Proof.
  unfold Player.candidate, Player.uncorrected. cbn [Player.nextX Player.nextZ].
  now destruct (Player.resolveObstacles _ _).
Qed.

Lemma committed_in_bounds (props : Player.Props R) cam st delta :
  Player.active props = true ->
  Player.isScaring props = false ->
  Rabs (Player.nextX (Player.candidate props cam st delta)) < 98.5 ->
  Rabs (Player.nextZ (Player.candidate props cam st delta)) < 98.5 ->
  Player.committed props cam st delta
  = (Player.nextX (Player.candidate props cam st delta),
     Player.nextZ (Player.candidate props cam st delta)).
Proof.
  intros Hact Hsc Hx Hz. unfold Player.committed, Player.useFrame.
  rewrite Hact, Hsc. cbn [negb orb fst]. unfold Player.commit.
  cbn [position x z].
  assert (Ex : ltb (Math_abs (Player.nextX (Player.candidate props cam st delta)))
                   Player.WORLD_BOUNDARY = true).
  { apply Real_ltb_true. literals. lra. }
  assert (Ez : ltb (Math_abs (Player.nextZ (Player.candidate props cam st delta)))
                   Player.WORLD_BOUNDARY = true).
  { apply Real_ltb_true. literals. lra. }
  now rewrite Ex, Ez.
Qed.

(** With no key held the player asks for no velocity. *)
Lemma normalize_zero (v : Vector3 R) :
  x v = 0 -> y v = 0 -> z v = 0 -> normalize v = mkVector3 0 0 0.
Proof.
  intros Hx Hy Hz. unfold normalize.
  assert (Hlen : length v = 0).
  { unfold length. cbn. rewrite Hx, Hy, Hz.
    replace (0 * 0 + 0 * 0 + 0 * 0) with 0 by ring. apply sqrt_0. }
  rewrite Hlen. cbn [truthy Exact].
  assert (E0 : Real.eqb 0 0 = true) by now apply Real_eqb_true.
  rewrite E0. cbn [negb].
  unfold divideScalar, multiplyScalar. cbn. rewrite Hx, Hy, Hz.
  f_equal; ring.
Qed.

Lemma uncorrected_standing (cam : Camera R) (delta : R) :
  Player.uncorrected cam ExactSample.standing delta
  = (x (position cam), z (position cam)).
Proof.
  unfold Player.uncorrected, Player.direction.
  rewrite normalize_zero; [| cbn; unfold Q2R; cbn; lra ..].
  cbn. unfold Q2R; cbn. f_equal; ring.
Qed.

End ObstacleFrame.


(** C2 does not hold for overlapping discs.  Two obstacles of radius 1 at
    [[0, 0, 0]] and [[2.5, 0, 0]], a player standing at [[0.5, 1.7, 0]]: the
    first iteration moves the candidate to [x = 1.6], the second back to
    [x = 0.9], which is committed; it is closer to the first obstacle than
    [0.6 + 1 - 0.5]. *)
Lemma overlapping_discs_keep_overlap :
  In Sample.obstacleA [Sample.obstacleA; Sample.obstacleB]
  /\ Sample.near
       (fst (Player.committed
               (Sample.playerProps [Sample.obstacleA; Sample.obstacleB])
               (Sample.cameraAt (lit 0.5) (lit 1.7) (lit 0)) Sample.standing
               (lit 0.016)))
       (lit 0.9) (lit 0.000001) = true
  /\ ltb (Player.horizontalDistance
            (Player.committed
               (Sample.playerProps [Sample.obstacleA; Sample.obstacleB])
               (Sample.cameraAt (lit 0.5) (lit 1.7) (lit 0)) Sample.standing
               (lit 0.016))
            Sample.obstacleA)
         (sub (Player.radiusSum Sample.obstacleA) (lit 0.5)) = true.
Proof.
  split; [now left |]. split; vm_compute; reflexivity.
Qed.

Section UncrowdedPass.
Local Open Scope R_scope.

(** After its own iteration the candidate is outside the obstacle's disc,
    whatever the radius, unless it stood exactly on the centre. *)
Lemma pushOut_clears (p : R * R) (o : Obstacle R) :
  0 < Player.horizontalDistance p o ->
  Player.radiusSum o <= Player.horizontalDistance (Player.pushOut p o) o.
Proof.
  intros Hd. rewrite pushOut_exact.
  set (c := Player.radiusSum o) in *.
  set (d := Player.horizontalDistance p o) in *.
  set (dx := fst p - position0 o). set (dz := snd p - position2 o).
  assert (Hdd : d * d = dx * dx + dz * dz).
  { unfold d, Player.horizontalDistance. cbn. fold dx dz.
    apply sqrt_sqrt. nra. }
  destruct (Rlt_dec (dx * dx + dz * dz) (c * c)) as [Hin | Hout].
  - unfold Player.horizontalDistance.
    cbn [fst snd Math_sqrt add sub mul div Exact].
    replace (fst p + dx / d * (c - d) - position0 o) with (dx * (c / d))
      by (unfold dx; field; lra).
    replace (snd p + dz / d * (c - d) - position2 o) with (dz * (c / d))
      by (unfold dz; field; lra).
    replace (dx * (c / d) * (dx * (c / d)) + dz * (c / d) * (dz * (c / d)))
      with (Rsqr c).
    + rewrite sqrt_Rsqr_abs. apply Rle_abs.
    + unfold Rsqr. transitivity ((dx * dx + dz * dz) * (c * c) / (d * d)).
      * rewrite <- Hdd. field. lra.
      * field. lra.
  - fold d. clearbody d c. nra.
Qed.

(** A later obstacle that is apart from [o] does not bring the candidate
    back into the disc of [o]. *)
Lemma pushOut_keeps_clear (p : R * R) (o b : Obstacle R) :
  Player.apart o b ->
  0 <= radius b ->
  0 < Player.horizontalDistance p b ->
  Player.radiusSum o <= Player.horizontalDistance p o ->
  Player.radiusSum o <= Player.horizontalDistance (Player.pushOut p b) o.
Proof.
  intros Hap Hb Hpb Hout.
  destruct (pushOut_result p b Hb Hpb) as [[-> _] | Hon]; [exact Hout |].
  apply (outside_other_disc _ o b); [lra | now left].
Qed.

Lemma later_keep_clear (later : list (Obstacle R)) :
  forall (p : R * R) (o : Obstacle R),
    Pass.offCentres later p ->
    Pass.uncrowded o later ->
    Player.radiusSum o <= Player.horizontalDistance p o ->
    Player.radiusSum o
    <= Player.horizontalDistance (Player.resolveObstacles later p) o.
Proof.
  induction later as [| b rest IH]; intros p o Hoff Hun Hout.
  - exact Hout.
  - rewrite resolve_cons. destruct Hoff as [Hpb Hoff].
    inversion Hun as [| ? ? [Hap Hrb] Hun']; subst.
    apply IH; [exact Hoff | exact Hun' |].
    now apply pushOut_keeps_clear.
Qed.

Lemma offCentres_app (earlier : list (Obstacle R)) :
  forall (rest : list (Obstacle R)) (p : R * R),
    Pass.offCentres (earlier ++ rest) p ->
    Pass.offCentres rest (Player.resolveObstacles earlier p).
Proof.
  induction earlier as [| a earlier IH]; intros rest p Hoff.
  - exact Hoff.
  - rewrite resolve_cons. destruct Hoff as [_ Hoff]. now apply IH.
Qed.

Lemma resolve_app (earlier rest : list (Obstacle R)) (p : R * R) :
  Player.resolveObstacles (earlier ++ rest) p
  = Player.resolveObstacles rest (Player.resolveObstacles earlier p).
Proof. unfold Player.resolveObstacles. apply fold_left_app. Qed.

(** After the pass the candidate is outside the disc of every obstacle
    that no later one crowds. *)
Lemma resolve_clears_uncrowded (earlier later : list (Obstacle R))
  (o : Obstacle R) (p : R * R) :
  Pass.offCentres (earlier ++ o :: later) p ->
  Pass.uncrowded o later ->
  Player.radiusSum o
  <= Player.horizontalDistance
       (Player.resolveObstacles (earlier ++ o :: later) p) o.
Proof.
  intros Hoff Hun. rewrite resolve_app, resolve_cons.
  apply offCentres_app in Hoff. destruct Hoff as [Hpo Hoff].
  apply later_keep_clear; [exact Hoff | exact Hun |].
  now apply pushOut_clears.
Qed.

(** On a list of pairwise separated obstacles with non-negative radii no
    iteration starts on a centre if the pass does not. *)
Lemma separated_offCentres (obs : list (Obstacle R)) :
  forall p : R * R,
    Player.separated obs ->
    (forall o, In o obs -> 0 <= radius o) ->
    (forall o, In o obs -> 0 < Player.horizontalDistance p o) ->
    Pass.offCentres obs p.
Proof.
  induction obs as [| b rest IH]; intros p Hsep Hrad Hoff; [exact I |].
  destruct Hsep as [Hb Hsep]. cbn [Pass.offCentres].
  split; [apply Hoff; now left |].
  apply IH; [exact Hsep | intros o Ho; apply Hrad; now right |].
  intros o Ho.
  apply (pushOut_other p o b).
  - right. rewrite Forall_forall in Hb. now apply Hb.
  - apply Hrad. now right.
  - apply Hrad. now left.
  - apply Hoff. now left.
  - apply Hoff. now right.
Qed.

End UncrowdedPass.

(** C2, as it holds for the code.  In exact arithmetic, and as long as no
    iteration of the loop starts with the candidate exactly on the centre
    of its obstacle (where the code divides 0 by 0): right after its own
    iteration an obstacle is at least [0.6 + radius] away from the
    candidate, and it still is after the pass when the obstacles handled
    after it have non-negative radii and collision discs that do not
    overlap its own, whatever the other obstacles do to each other; so is
    the committed position when the candidate passes the boundary test on
    both axes.  In particular, if the collision discs of all obstacles are
    pairwise non-overlapping, the radii are non-negative and the candidate
    before the pass is on no centre, every obstacle is that far away
    after the pass.  In binary64, the players of the samples end within
    [1e-9] of that distance or beyond. *)
Theorem collision_pass_clears_uncrowded_obstacles :
  (forall (p : R * R) (o : Obstacle R),
      (0 < Player.horizontalDistance p o)%R ->
      (Player.radiusSum o
       <= Player.horizontalDistance (Player.pushOut p o) o)%R)
  /\ (forall (M : JsMath R) (props : Player.Props R) cam st delta
             (earlier later : list (Obstacle R)) (o : Obstacle R),
        Player.active props = true ->
        Player.isScaring props = false ->
        Player.obstacles props = earlier ++ o :: later ->
        Pass.offCentres (Player.obstacles props)
                        (Player.uncorrected cam st delta) ->
        Pass.uncrowded o later ->
        let c := Player.candidate props cam st delta in
        (Player.radiusSum o
         <= Player.horizontalDistance (Player.nextX c, Player.nextZ c) o)%R
        /\ ((Rabs (Player.nextX c) < 98.5)%R ->
            (Rabs (Player.nextZ c) < 98.5)%R ->
            (Player.radiusSum o
             <= Player.horizontalDistance
                  (Player.committed props cam st delta) o)%R))
  /\ (forall (M : JsMath R) (props : Player.Props R) cam st delta,
        Player.active props = true ->
        Player.isScaring props = false ->
        Player.separated (Player.obstacles props) ->
        (forall o, In o (Player.obstacles props) -> (0 <= radius o)%R) ->
        (forall o, In o (Player.obstacles props) ->
                   (0 < Player.horizontalDistance
                          (Player.uncorrected cam st delta) o)%R) ->
        let c := Player.candidate props cam st delta in
        Pass.offCentres (Player.obstacles props)
                        (Player.uncorrected cam st delta)
        /\ (forall o, In o (Player.obstacles props) ->
                      (Player.radiusSum o
                       <= Player.horizontalDistance
                            (Player.nextX c, Player.nextZ c) o)%R)
        /\ ((Rabs (Player.nextX c) < 98.5)%R ->
            (Rabs (Player.nextZ c) < 98.5)%R ->
            forall o, In o (Player.obstacles props) ->
                      (Player.radiusSum o
                       <= Player.horizontalDistance
                            (Player.committed props cam st delta) o)%R))
  /\ leb (sub (Player.radiusSum Sample.obstacleA) (lit 0.000000001))
         (Player.horizontalDistance
            (Player.committed (Sample.playerProps [Sample.obstacleA])
               (Sample.cameraAt (lit 0.5) (lit 1.7) (lit 0)) Sample.standing
               Sample.dt)
            Sample.obstacleA) = true
  /\ forallb
       (fun o =>
          leb (sub (Player.radiusSum o) (lit 0.000000001))
              (Player.horizontalDistance
                 (Player.committed (Sample.playerProps Sample.crowd)
                    (Sample.cameraAt (lit 2) (lit 1.7) (lit 0))
                    Sample.standing Sample.dt)
                 o))
       Sample.crowd = true.
Proof.
  split; [| split; [| split; [| split; vm_compute; reflexivity]]].
  - intros p o Hd. now apply pushOut_clears.
  - intros M props cam st delta earlier later o Hact Hsc Hobs Hoff Hun c.
    assert (Hcand : (Player.radiusSum o
                     <= Player.horizontalDistance
                          (Player.nextX c, Player.nextZ c) o)%R).
    { unfold c. rewrite candidate_next. rewrite Hobs in *.
      now apply resolve_clears_uncrowded. }
    split; [exact Hcand |].
    intros Hx Hz.
    rewrite (committed_in_bounds props cam st delta Hact Hsc Hx Hz).
    exact Hcand.
  - intros M props cam st delta Hact Hsc Hsep Hrad Hoff c.
    assert (Hcand : forall o, In o (Player.obstacles props) ->
              (Player.radiusSum o
               <= Player.horizontalDistance
                    (Player.nextX c, Player.nextZ c) o)%R).
    { intros o Ho. unfold c. rewrite candidate_next.
      now apply resolve_clear. }
    split; [now apply separated_offCentres |].
    split; [exact Hcand |].
    intros Hx Hz o Ho.
    rewrite (committed_in_bounds props cam st delta Hact Hsc Hx Hz).
    now apply Hcand.
Qed.

Section SamplePass.
Local Open Scope R_scope.

(** Distances along the x axis. *)
Lemma distance_on_axis (px cx r s : R) (t : ObstacleType) :
  Player.horizontalDistance (px, 0) (mkObstacle (cx, 0, 0) r t s)
  = Rabs (px - cx).
Proof.
  unfold Player.horizontalDistance. cbn.
  replace ((px - cx) * (px - cx) + (0 - 0) * (0 - 0)) with (Rsqr (px - cx))
    by (unfold Rsqr; ring).
  apply sqrt_Rsqr_abs.
Qed.

Lemma pushOut_outside (p : R * R) (o : Obstacle R) :
  0 <= Player.radiusSum o ->
  Player.radiusSum o <= Player.horizontalDistance p o ->
  Player.pushOut p o = p.
Proof.
  intros Hc Hout. rewrite pushOut_exact.
  destruct (Rlt_dec _ _) as [Hin | _]; [exfalso | reflexivity].
  assert (Hdd : Player.horizontalDistance p o * Player.horizontalDistance p o
                = (fst p - position0 o) * (fst p - position0 o)
                  + (snd p - position2 o) * (snd p - position2 o)).
  { unfold Player.horizontalDistance. cbn. apply sqrt_sqrt.
    apply squares2_nonneg. }
  set (d := Player.horizontalDistance p o) in *.
  set (c := Player.radiusSum o) in *. clearbody d c. nra.
Qed.

Lemma sample_radiusSum (cx : R) :
  Player.radiusSum (mkObstacle (cx, 0, 0) 1 tree 1) = 1.6.
Proof. unfold Player.radiusSum. cbn. unfold Q2R. cbn. lra. Qed.

(** The player at [x = 2] is left alone by [ahead] and pushed to
    [x = 2.4] by [behind], where it touches the disc of [ahead]. *)
Lemma sample_behind_pushes :
  Player.pushOut (2, 0) ExactSample.ahead = (2, 0)
  /\ Player.pushOut (2, 0) ExactSample.behind = (2.4, 0).
Proof.
  split.
  - apply pushOut_outside; unfold ExactSample.ahead;
      rewrite sample_radiusSum; [lra |].
    rewrite distance_on_axis. unfold Rabs. destruct (Rcase_abs _); lra.
  - rewrite pushOut_exact. unfold ExactSample.behind.
    rewrite sample_radiusSum, distance_on_axis.
    replace (Rabs (2 - 0.8)) with 1.2
      by (unfold Rabs; destruct (Rcase_abs _); lra).
    unfold position0, position2. cbn [fst snd obs_position].
    destruct (Rlt_dec _ _) as [_ | Hn]; [| exfalso; apply Hn; lra].
    f_equal; lra.
Qed.

Lemma sample_far_idle (cx : R) :
  50 <= cx ->
  0 < Player.horizontalDistance (2.4, 0) (mkObstacle (cx, 0, 0) 1 tree 1)
  /\ Player.pushOut (2.4, 0) (mkObstacle (cx, 0, 0) 1 tree 1) = (2.4, 0).
Proof.
  intros Hcx.
  assert (Hd : Player.horizontalDistance (2.4, 0)
                 (mkObstacle (cx, 0, 0) 1 tree 1) = cx - 2.4).
  { rewrite distance_on_axis. unfold Rabs. destruct (Rcase_abs _); lra. }
  split; [rewrite Hd; lra |].
  apply pushOut_outside; rewrite sample_radiusSum; [lra | rewrite Hd; lra].
Qed.

Lemma sample_pass :
  Pass.offCentres ExactSample.crowd (2, 0)
  /\ Player.resolveObstacles ExactSample.crowd (2, 0) = (2.4, 0)
  /\ Player.resolveObstacles [ExactSample.ahead; ExactSample.behind] (2, 0)
     = (2.4, 0).
Proof.
  destruct sample_behind_pushes as [Ha Hb].
  destruct (sample_far_idle 50 ltac:(lra)) as [HdA HpA].
  destruct (sample_far_idle 51 ltac:(lra)) as [HdB HpB].
  fold ExactSample.farA in HdA, HpA. fold ExactSample.farB in HdB, HpB.
  unfold ExactSample.crowd, Player.resolveObstacles.
  cbn [Pass.offCentres fold_left]. rewrite Ha, Hb, HpA, HpB.
  repeat split; try assumption.
  - unfold ExactSample.ahead. rewrite distance_on_axis.
    unfold Rabs. destruct (Rcase_abs _); lra.
  - unfold ExactSample.behind. rewrite distance_on_axis.
    unfold Rabs. destruct (Rcase_abs _); lra.
Qed.

Lemma sample_uncrowded :
  Pass.uncrowded ExactSample.ahead
    [ExactSample.behind; ExactSample.farA; ExactSample.farB]
  /\ ~ Player.separated ExactSample.crowd.
Proof.
  split.
  - unfold Pass.uncrowded, Player.apart.
    repeat (constructor;
            [unfold ExactSample.ahead, ExactSample.behind, ExactSample.farA,
               ExactSample.farB;
             rewrite !sample_radiusSum;
             unfold position0, position2;
             cbn [fst snd obs_position radius];
             rewrite distance_on_axis;
             unfold Rabs; destruct (Rcase_abs _); split; lra |]).
    constructor.
  - intros [_ [_ [Hfar _]]].
    inversion Hfar as [| ? ? Hap _]; subst.
    unfold Player.apart, ExactSample.farA, ExactSample.farB in Hap.
    rewrite !sample_radiusSum in Hap.
    unfold position0, position2 in Hap. cbn [fst snd obs_position] in Hap.
    rewrite distance_on_axis in Hap.
    unfold Rabs in Hap. destruct (Rcase_abs _); lra.
Qed.

End SamplePass.

(** A player pushed by [behind] until it touches the disc of [ahead],
    handled before; the overlapping pair far away does not matter.  And
    the same player between [ahead] and [behind] alone, whose discs do not
    overlap. *)
Lemma collision_pass_clears_uncrowded_obstacles_witness :
  (Player.radiusSum ExactSample.ahead
   <= Player.horizontalDistance
        (Player.committed ExactSample.crowdProps ExactSample.camera
                          ExactSample.standing 0.016%R)
        ExactSample.ahead)%R
  /\ (Player.radiusSum ExactSample.behind
      <= Player.horizontalDistance
           (Player.committed ExactSample.pairProps ExactSample.camera
                             ExactSample.standing 0.016%R)
           ExactSample.behind)%R.
Proof.
  destruct collision_pass_clears_uncrowded_obstacles
    as [_ [Hone [Hall _]]].
  destruct sample_pass as [Hoff [Hcrowd Hpair]].
  destruct sample_uncrowded as [Hun _].
  assert (Hstart : Player.uncorrected ExactSample.camera ExactSample.standing
                                      0.016%R = (2%R, 0%R))
    by (rewrite uncorrected_standing; reflexivity).
  split.
  - destruct (Hone ExactMath ExactSample.crowdProps ExactSample.camera
                   ExactSample.standing 0.016%R []
                   [ExactSample.behind; ExactSample.farA; ExactSample.farB]
                   ExactSample.ahead eq_refl eq_refl eq_refl)
      as [_ Hcommitted].
    + rewrite Hstart. exact Hoff.
    + exact Hun.
    + pose proof (candidate_next ExactSample.crowdProps ExactSample.camera
                                 ExactSample.standing 0.016%R) as Hnext.
      rewrite Hstart in Hnext.
      change (Player.obstacles ExactSample.crowdProps)
        with ExactSample.crowd in Hnext.
      rewrite Hcrowd in Hnext.
      pose proof (f_equal fst Hnext) as Hx.
      pose proof (f_equal snd Hnext) as Hz. cbn [fst snd] in Hx, Hz.
      apply Hcommitted.
      * rewrite Hx. unfold Rabs. destruct (Rcase_abs _); lra.
      * rewrite Hz, Rabs_R0. lra.
  - destruct (Hall ExactMath ExactSample.pairProps ExactSample.camera
                   ExactSample.standing 0.016%R eq_refl eq_refl)
      as [_ [_ Hcommitted]].
    + cbn [ExactSample.pairProps Player.obstacles Player.separated].
      split; [| split; [constructor | exact I]].
      constructor; [| constructor].
      inversion Hun as [| ? ? [Hap _] _]. exact Hap.
    + intros o [<- | [<- | []]]; cbn; lra.
    + rewrite Hstart.
      intros o [<- | [<- | []]];
        [unfold ExactSample.ahead | unfold ExactSample.behind];
        rewrite distance_on_axis; unfold Rabs; destruct (Rcase_abs _); lra.
    + pose proof (candidate_next ExactSample.pairProps ExactSample.camera
                                 ExactSample.standing 0.016%R) as Hnext.
      rewrite Hstart in Hnext.
      change (Player.obstacles ExactSample.pairProps)
        with [ExactSample.ahead; ExactSample.behind] in Hnext.
      rewrite Hpair in Hnext.
      pose proof (f_equal fst Hnext) as Hx.
      pose proof (f_equal snd Hnext) as Hz. cbn [fst snd] in Hx, Hz.
      apply Hcommitted.
      * rewrite Hx. unfold Rabs. destruct (Rcase_abs _); lra.
      * rewrite Hz, Rabs_R0. lra.
      * right. now left.
Defined.

(** ** Zero distance *)

(** C3 does not hold for the player: its loop divides by the distance
    without a test.  A player
    standing at [[3, 1.7, 4]], exactly on the centre of an obstacle: the
    distance is 0, [dx / dist] is [0 / 0], and both candidate coordinates
    are NaN. *)
Lemma coincident_obstacle_candidate_is_nan :
  Player.horizontalDistance (lit 3, lit 4) Sample.obstacleC = lit 0
  /\ PrimFloat.is_nan
       (Player.nextX
          (Player.candidate (Sample.playerProps [Sample.obstacleC])
             (Sample.cameraAt (lit 3) (lit 1.7) (lit 4)) Sample.standing
             Sample.dt)) = true
  /\ PrimFloat.is_nan
       (Player.nextZ
          (Player.candidate (Sample.playerProps [Sample.obstacleC])
             (Sample.cameraAt (lit 3) (lit 1.7) (lit 4)) Sample.standing
             Sample.dt)) = true.
Proof.
  split; [| split]; vm_compute; reflexivity.
Qed.

Lemma pursue_coincident {M : JsMath R} (mesh : Monster.Mesh R) (delta : R) :
  Monster.mesh_position
    (Monster.pursue (Monster.mesh_position mesh) mesh delta)
  = Monster.mesh_position mesh.
Proof.
  unfold Monster.pursue. rewrite normalize_coincident.
  cbn. destruct (Monster.mesh_position mesh) as [mx my mz]. cbn.
  f_equal; ring.
Qed.

(** C3, as it holds for the code.  The normalization of the monster's pursuit is guarded by
    a test of the length against zero (not against a small epsilon): when
    the length is 0 or NaN the vector is divided by 1.  In exact arithmetic
    a monster standing exactly on the player gets the zero vector as
    direction and does not move; in binary64 the same holds at the sample
    camera, and no coordinate is NaN. *)
Theorem monster_normalize_guarded :
  forall (T : Type) (N : JsNum T),
    (forall v : Vector3 T,
        truthy (length v) = false ->
        normalize v = multiplyScalar v (div (lit 1) (lit 1)))
    /\ (forall (M : JsMath R) (p : Vector3 R) (mesh : Monster.Mesh R)
               (delta : R),
          Monster.mesh_position mesh = p ->
          normalize (subVectors p p) = mkVector3 0%R 0%R 0%R
          /\ Monster.mesh_position (Monster.pursue p mesh delta) = p)
    /\ (normalize (subVectors (position Sample.camera)
                              (position Sample.camera))
        = mkVector3 (lit 0) (lit 0) (lit 0)
        /\ Monster.mesh_position
             (Monster.pursue (position Sample.camera)
                (Monster.mkMesh (position Sample.camera)
                                (rotation Sample.camera)) Sample.dt)
           = position Sample.camera).
Proof.
  intros T N. split; [| split].
  - intros v Hlen. unfold normalize, divideScalar. now rewrite Hlen.
  - intros M p mesh delta <-. split.
    + apply normalize_coincident.
    + apply pursue_coincident.
  - split; vm_compute; reflexivity.
Qed.

(** A monster standing on a player at [[1, 2, 3]]. *)
Lemma monster_normalize_guarded_witness :
  Monster.mesh_position
    (Monster.pursue (mkVector3 1%R 2%R 3%R)
       (Monster.mkMesh (mkVector3 1%R 2%R 3%R) (mkEuler 0%R 0%R 0%R))
       0.016%R)
  = mkVector3 1%R 2%R 3%R.
Proof.
  destruct (monster_normalize_guarded R Exact) as [_ [Hzero _]].
  apply (Hzero ExactMath (mkVector3 1%R 2%R 3%R)
               (Monster.mkMesh (mkVector3 1%R 2%R 3%R)
                               (mkEuler 0%R 0%R 0%R))).
  reflexivity.
Defined.

(** ** The chase *)

Section Chase.
Local Open Scope R_scope.

Lemma sample_chase_distance :
  distanceTo (Monster.mesh_position ExactSample.monster) ExactSample.player
  * distanceTo (Monster.mesh_position ExactSample.monster) ExactSample.player
  = 7202.89
  /\ 14 < distanceTo (Monster.mesh_position ExactSample.monster)
                     ExactSample.player.
Proof.
  assert (Hsq : distanceTo (Monster.mesh_position ExactSample.monster)
                           ExactSample.player
                * distanceTo (Monster.mesh_position ExactSample.monster)
                             ExactSample.player = 7202.89).
  { rewrite distance_square. unfold Monster.offset2. cbn. lra. }
  split; [exact Hsq |].
  assert (H0 : 0 <= distanceTo (Monster.mesh_position ExactSample.monster)
                               ExactSample.player) by apply sqrt_pos.
  nra.
Qed.

End Chase.

(** C7 does not hold for the length of the move: in the first frame of the
    scenario, in exact arithmetic, the monster moves by strictly less than
    [4.6 * 0.016]. *)
Lemma chase_step_shorter_than_speed_times_dt :
  (Monster.offset2
     (Monster.mesh_position
        (Monster.pursue ExactSample.player ExactSample.monster 0.016%R))
     (Monster.mesh_position ExactSample.monster)
   < (4.6 * 0.016) * (4.6 * 0.016))%R.
Proof.
  destruct sample_chase_distance as [Hsq Hfar].
  rewrite pursue_step_length by lra.
  rewrite currentSpeed_exact.
  destruct (Rlt_dec _ 14) as [Hnear | _]; [lra |].
  rewrite Hsq. unfold Monster.offset2. cbn. lra.
Qed.

Lemma useFrame_pursuing_position {T} `{JsNum T} `{JsMath T}
  `{Monster.Object3D T} (props : Monster.Props T) cam st mesh delta :
  Monster.active props = true ->
  Monster.isScaring props = false ->
  Monster.meshRef st = Some mesh ->
  let m := Monster.mesh_position mesh in
  let dist := distanceTo m (position cam) in
  let dir := normalize (subVectors (position cam) m) in
  Monster.where_ (fst (Monster.useFrame props cam st delta))
  = Some (mkVector3
            (add (x m) (mul (mul (x dir) (Monster.currentSpeed dist)) delta))
            (y m)
            (add (z m) (mul (mul (z dir) (Monster.currentSpeed dist)) delta))).
Proof.
  intros Hact Hsc Hmesh. cbv zeta. unfold Monster.useFrame.
  rewrite Hact, Hmesh, Hsc. reflexivity.
Qed.

(** C7, as it holds for the code.  In every pursuit frame the speed is 6.8 when the distance
    at the start of the frame tests below 14 and 4.6 otherwise, and the
    monster's x and z grow by the x and z components of the normalized 3D
    direction to the player times speed times the frame time, its y being
    kept.  In exact arithmetic the squared length of that move is
    [(speed * dt)^2] times the squared horizontal offset over the squared
    3D distance, so it is below [speed * dt] whenever the heights differ;
    and the frame brings the monster strictly closer when the player is not
    right above or below it and [speed * dt < 2 * distance].  In the
    scenario run in binary64 (player [[0, 1.7, 0]], monster from
    [[60, 0, 60]], 0.016 s per frame) the distance strictly decreases over
    the first 967 frames; frames 1 to 966 start at least 14 away and move
    the monster by between [4.56 * dt] and [4.6 * dt]; frame 967 is the
    first to start closer than 14 and moves it by between [6.74 * dt] and
    [6.8 * dt]. *)
Theorem pursuit_speed_and_step :
  forall (T : Type) (N : JsNum T) (M : JsMath T) (O : Monster.Object3D T),
    (forall (props : Monster.Props T) cam st mesh delta,
        Monster.active props = true ->
        Monster.isScaring props = false ->
        Monster.meshRef st = Some mesh ->
        let m := Monster.mesh_position mesh in
        let dist := distanceTo m (position cam) in
        let dir := normalize (subVectors (position cam) m) in
        Monster.currentSpeed dist
        = (if ltb dist (lit 14) then lit 6.8 else lit 4.6)
        /\ Monster.where_ (fst (Monster.useFrame props cam st delta))
           = Some (mkVector3
                     (add (x m)
                          (mul (mul (x dir) (Monster.currentSpeed dist))
                               delta))
                     (y m)
                     (add (z m)
                          (mul (mul (z dir) (Monster.currentSpeed dist))
                               delta))))
    /\ (forall (MR : JsMath R) (p : Vector3 R) (mesh : Monster.Mesh R)
               (delta : R),
          let m := Monster.mesh_position mesh in
          let m' := Monster.mesh_position (Monster.pursue p mesh delta) in
          let d := distanceTo m p in
          (0 < d)%R ->
          Monster.offset2 m' m
          = ((Monster.currentSpeed d * delta)
             * (Monster.currentSpeed d * delta)
             * (Monster.offset2 p m / (d * d)))%R)
    /\ (forall (MR : JsMath R) (p : Vector3 R) (mesh : Monster.Mesh R)
               (delta : R),
          let m := Monster.mesh_position mesh in
          let m' := Monster.mesh_position (Monster.pursue p mesh delta) in
          let d := distanceTo m p in
          (0 < delta)%R ->
          (0 < Monster.offset2 p m)%R ->
          (Monster.currentSpeed d * delta < 2 * d)%R ->
          (distanceTo m' p < d)%R)
    /\ Sample.chaseScenario = true.
Proof.
  intros T N M O. split; [| split; [| split]].
  - intros props cam st mesh delta Hact Hsc Hmesh. cbv zeta. split.
    + reflexivity.
    + now apply useFrame_pursuing_position.
  - intros MR p mesh delta. apply pursue_step_length.
  - intros MR p mesh delta. apply pursue_closer.
  - vm_compute. reflexivity.
Qed.

(** The first frame of the scenario, in binary64 and in exact
    arithmetic. *)
Lemma pursuit_speed_and_step_witness :
  (let m := Monster.mesh_position Sample.mesh in
   let dist := distanceTo m (position Sample.camera) in
   let dir := normalize (subVectors (position Sample.camera) m) in
   Monster.currentSpeed dist
   = (if ltb dist (lit 14) then lit 6.8 else lit 4.6)
   /\ Monster.where_ (fst (Monster.useFrame Sample.pursuing Sample.camera
                                            Sample.monster Sample.dt))
      = Some (mkVector3
                (add (x m)
                     (mul (mul (x dir) (Monster.currentSpeed dist))
                          Sample.dt))
                (y m)
                (add (z m)
                     (mul (mul (z dir) (Monster.currentSpeed dist))
                          Sample.dt))))
  /\ (distanceTo
        (Monster.mesh_position
           (Monster.pursue ExactSample.player ExactSample.monster 0.016%R))
        ExactSample.player
      < distanceTo (Monster.mesh_position ExactSample.monster)
                   ExactSample.player)%R.
Proof.
  destruct (pursuit_speed_and_step float Float64 Sample.Math_yaw0
                                   Sample.lookAt_none)
    as [Hmove [_ [Hcloser _]]].
  split.
  - apply (Hmove Sample.pursuing Sample.camera Sample.monster Sample.mesh);
      reflexivity.
  - destruct sample_chase_distance as [_ Hfar].
    apply (Hcloser ExactMath ExactSample.player ExactSample.monster).
    + lra.
    + unfold Monster.offset2. cbn. lra.
    + rewrite currentSpeed_exact.
      destruct (Rlt_dec _ 14); lra.
Defined.

(** ** Gravity and jumps *)

Section Jump.
Context {M : JsMath R}.
Local Open Scope R_scope.

Lemma vertical_constants :
  @Player.GROUND_Y R Exact = 1.7 /\ @Player.GRAVITY R Exact = 22
  /\ @Player.JUMP_FORCE R Exact = 8.5.
Proof.
  unfold Player.GROUND_Y, Player.GRAVITY, Player.JUMP_FORCE.
  cbn. unfold Q2R. cbn. repeat split; lra.
Qed.

(** The vertical part of a frame that runs. *)
Lemma candidate_vertical (props : Player.Props R) cam st delta :
  let c := Player.candidate props cam st delta in
  let vv := if Player.isGrounded st then Player.verticalVelocity st
            else Player.verticalVelocity st - 22 * delta in
  let rise := y (position cam) + vv * delta in
  if Rle_dec rise 1.7
  then Player.nextY c = 1.7 /\ Player.newVerticalVelocity c = 0
       /\ Player.newGrounded c = true
  else Player.nextY c = rise /\ Player.newVerticalVelocity c = vv
       /\ Player.newGrounded c = Player.isGrounded st.
Proof.
  cbv zeta. destruct vertical_constants as [Hg [Hgr _]].
  unfold Player.candidate.
  cbn [Player.nextY Player.newVerticalVelocity Player.newGrounded].
  rewrite Hg, Hgr.
  change (@leb R Exact) with Real.leb. unfold Real.leb.
  change (@lit R Exact 0) with (Q2R 0).
  replace (Q2R 0) with 0 by (unfold Q2R; cbn; lra).
  destruct (Player.isGrounded st); cbn [negb add sub mul Exact];
    destruct (Rle_dec _ 1.7); auto.
Qed.

Lemma useFrame_airworthy (props : Player.Props R) cam st delta :
  Play.airworthy (cam, st) ->
  Play.airworthy (fst (Player.useFrame props cam st delta)).
Proof.
  intros Hair. unfold Player.useFrame.
  destruct (negb (Player.active props) || Player.isScaring props).
  - exact Hair.
  - cbn [fst].
    pose proof (candidate_vertical props cam st delta) as Hc.
    cbv zeta in Hc.
    destruct vertical_constants as [Hg [Hgr Hj]].
    destruct Hair as [Hy [He Hs]]. cbn [fst snd] in *.
    unfold Play.airworthy, Play.energy, Player.commit in *.
    cbn [fst snd position y Player.verticalVelocity Player.isGrounded] in *.
    rewrite Hg, Hgr, Hj in *.
    set (c := Player.candidate props cam st delta) in *.
    destruct (Player.isGrounded st) eqn:Egr.
    + destruct (Hs eq_refl) as [Hy0 Hv0].
      rewrite Hy0, Hv0 in Hc.
      destruct (Rle_dec (1.7 + 0 * delta) 1.7) as [_ | Hn];
        [| exfalso; apply Hn; lra].
      destruct Hc as [-> [-> ->]]. repeat split; lra.
    + destruct (Rle_dec _ 1.7) as [Hland | Hfly].
      * destruct Hc as [-> [-> ->]]. repeat split; lra.
      * destruct Hc as [-> [-> ->]].
        split; [lra |]. split; [| discriminate].
        pose proof (Rle_0_sqr delta) as Hd. unfold Rsqr in Hd.
        set (v := Player.verticalVelocity st) in *.
        set (h := y (position cam)) in *.
        clearbody v h. nra.
Qed.

Lemma handleKeyDown_airworthy (props : Player.Props R) cam st code :
  Play.airworthy (cam, st) ->
  Play.airworthy (cam, fst (Player.handleKeyDown props st code)).
Proof.
  intros Hair. unfold Player.handleKeyDown.
  destruct (negb (Player.active props) || Player.isScaring props);
    [exact Hair |].
  destruct code; try exact Hair.
  destruct (Player.isGrounded st) eqn:Egr; [| exact Hair].
  destruct vertical_constants as [Hg [Hgr Hj]].
  destruct Hair as [Hy [He Hs]]. cbn [fst snd] in *.
  destruct (Hs Egr) as [Hy0 Hv0].
  unfold Play.airworthy, Play.energy.
  cbn [fst snd Player.verticalVelocity Player.isGrounded].
  rewrite Hy0, Hg, Hgr, Hj. repeat split; try lra; discriminate.
Qed.

Lemma step_airworthy (s : Camera R * Player.State R) (i : Player.Input) :
  Play.airworthy s -> Play.airworthy (Player.step s i).
Proof.
  destruct s as [cam st]. intros Hair.
  destruct i as [props rot q delta | props code | code]; cbn [Player.step].
  - apply useFrame_airworthy. exact Hair.
  - now apply handleKeyDown_airworthy.
  - destruct code; exact Hair.
Qed.

Lemma run_airworthy (inputs : list Player.Input) :
  forall s, Play.airworthy s -> Play.airworthy (Player.run s inputs).
Proof.
  unfold Player.run.
  induction inputs as [| i rest IH]; intros s Hair; cbn.
  - exact Hair.
  - apply IH. now apply step_airworthy.
Qed.

End Jump.

(** X1.  From a player that is airworthy (on the ground at rest, or in the
    air with at most the energy of a jump), every session of frames and
    key events, whatever the frame times, leaves the player airworthy:
    the camera is never below 1.7 and never above
    [1.7 + 8.5 * 8.5 / (2 * 22)], and the grounded flag is set only at
    height 1.7 with no vertical velocity. *)
Theorem jump_height_bounded :
  forall (M : JsMath R) (s : Camera R * Player.State R)
         (inputs : list Player.Input),
    Play.airworthy s ->
    let s' := Player.run s inputs in
    Play.airworthy s'
    /\ (1.7 <= y (position (fst s')) <= 1.7 + 8.5 * 8.5 / (2 * 22))%R.
Proof.
  intros M s inputs Hair. cbv zeta.
  pose proof (run_airworthy inputs s Hair) as Hrun.
  split; [exact Hrun |].
  destruct vertical_constants as [Hg [Hgr Hj]].
  destruct Hrun as [Hy [He _]]. unfold Play.energy in He.
  rewrite Hg, Hgr, Hj in *.
  pose proof (Rle_0_sqr (Player.verticalVelocity
                           (snd (Player.run s inputs)))) as Hv.
  unfold Rsqr in Hv. lra.
Qed.

(** A jump from standing, followed by two frames. *)
Lemma jump_height_bounded_witness :
  Play.airworthy (Player.run Scenario.start Scenario.jump)
  /\ (1.7 <= y (position (fst (Player.run Scenario.start Scenario.jump)))
      <= 1.7 + 8.5 * 8.5 / (2 * 22))%R.
Proof.
  apply (jump_height_bounded ExactMath Scenario.start Scenario.jump).
  unfold Play.airworthy, Play.energy. cbn. unfold Q2R. cbn.
  repeat split; lra.
Defined.

(** ** The velocity the keys ask for *)

Section Steering.
Local Open Scope R_scope.

Lemma Number_exact (b : bool) :
  @Number R Exact b = if b then 1 else 0.
Proof.
  unfold Number. cbn. unfold Q2R. cbn. destruct b; lra.
Qed.

(** The yaw quaternion of the camera, with the real sine and cosine. *)
Lemma setFromEuler_yaw (yaw : R) :
  setFromEuler (mkEuler (lit 0) yaw (lit 0))
  = mkQuaternion 0 (sin (yaw / 2)) 0 (cos (yaw / 2)).
Proof.
  unfold setFromEuler. cbn.
  replace (Q2R 0 / Q2R 2) with 0 by (unfold Q2R; cbn; lra).
  replace (Q2R 2) with 2 by (unfold Q2R; cbn; lra).
  rewrite sin_0, cos_0. f_equal; ring.
Qed.

(** Turning by the yaw keeps the height and the horizontal length. *)
Lemma applyEuler_yaw (v : Vector3 R) (yaw : R) :
  let v' := applyEuler v (mkEuler (lit 0) yaw (lit 0)) in
  y v' = y v /\ Play.speed2 v' = Play.speed2 v.
Proof.
  cbv zeta. unfold applyEuler. rewrite setFromEuler_yaw.
  unfold applyQuaternion, Play.speed2. cbn.
  replace (Q2R 2) with 2 by (unfold Q2R; cbn; lra).
  pose proof (sin2_cos2 (yaw / 2)) as Hunit. unfold Rsqr in Hunit.
  set (s := sin (yaw / 2)) in *. set (c := cos (yaw / 2)) in *.
  clearbody s c. split; [ring |].
  replace (x v + c * (2 * (s * z v - 0 * y v))
           + s * (2 * (0 * y v - s * x v)) - 0 * (2 * (0 * x v - 0 * z v)))
    with ((1 - 2 * (s * s)) * x v + 2 * (c * s) * z v) by ring.
  replace (z v + c * (2 * (0 * y v - s * x v))
           + 0 * (2 * (0 * x v - 0 * z v)) - s * (2 * (s * z v - 0 * y v)))
    with ((1 - 2 * (s * s)) * z v - 2 * (c * s) * x v) by ring.
  replace (((1 - 2 * (s * s)) * x v + 2 * (c * s) * z v)
           * ((1 - 2 * (s * s)) * x v + 2 * (c * s) * z v)
           + ((1 - 2 * (s * s)) * z v - 2 * (c * s) * x v)
             * ((1 - 2 * (s * s)) * z v - 2 * (c * s) * x v))
    with (((1 - 2 * (s * s)) * (1 - 2 * (s * s))
           + 4 * (c * c) * (s * s)) * (x v * x v + z v * z v)) by ring.
  replace ((1 - 2 * (s * s)) * (1 - 2 * (s * s)) + 4 * (c * c) * (s * s))
    with (1 + 4 * (s * s) * (s * s + c * c - 1)) by ring.
  rewrite Hunit. ring.
Qed.

(** A flat vector that is not zero is normalized to horizontal length 1. *)
Lemma normalize_flat (v : Vector3 R) :
  y v = 0 -> 0 < Play.speed2 v ->
  y (normalize v) = 0 /\ Play.speed2 (normalize v) = 1.
Proof.
  intros Hy Hpos. unfold Play.speed2 in *.
  assert (Hlen2 : length v * length v = x v * x v + z v * z v).
  { unfold length. cbn. rewrite Hy. rewrite sqrt_sqrt; [ring | nra]. }
  assert (Hlen0 : 0 <= length v) by apply sqrt_pos.
  assert (Hlen : 0 < length v) by nra.
  unfold normalize. cbn [truthy Exact].
  assert (Hne : Real.eqb (length v) 0 = false)
    by (apply Real_eqb_false; lra).
  rewrite Hne. cbn [negb].
  unfold divideScalar, multiplyScalar. cbn [x y z mul div lit Exact].
  replace (Q2R 1) with 1 by (unfold Q2R; cbn; lra).
  rewrite Hy. split; [ring |].
  set (l := length v) in *. clearbody l.
  replace (x v * (1 / l) * (x v * (1 / l)) + z v * (1 / l) * (z v * (1 / l)))
    with ((x v * x v + z v * z v) / (l * l)) by (field; lra).
  rewrite <- Hlen2. field. lra.
Qed.

Lemma currentSpeed_exact_player (m : Player.MoveState) :
  @Player.currentSpeed R Exact m
  = if Player.isSprinting m then 9 else 5.
Proof.
  unfold Player.currentSpeed, Player.SPRINT_SPEED, Player.WALK_SPEED.
  cbn. unfold Q2R. cbn. destruct (Player.isSprinting m); lra.
Qed.

(** The asked velocity is flat; its length is the speed of the gait when
    the keys ask for a direction, whichever and however many, and zero when
    they do not. *)
Lemma direction_speed (m : Player.MoveState) (cam : Camera R) :
  y (Player.direction m cam) = 0
  /\ Play.speed2 (Player.direction m cam)
     = if Play.steering m
       then Player.currentSpeed m * Player.currentSpeed m
       else 0.
Proof.
  unfold Player.direction.
  set (raw := subVectors _ _).
  assert (Hraw : x raw = (if Player.right m then 1 else 0)
                         - (if Player.left m then 1 else 0)
                 /\ y raw = 0
                 /\ z raw = (if Player.backward m then 1 else 0)
                            - (if Player.forward m then 1 else 0)).
  { unfold raw, subVectors. cbn [x y z sub lit Exact].
    rewrite !Number_exact.
    replace (Q2R 0) with 0 by (unfold Q2R; cbn; lra).
    repeat split; ring. }
  destruct Hraw as [Hx [Hy Hz]].
  set (speed := Player.currentSpeed m).
  destruct (applyEuler_yaw (multiplyScalar (normalize raw) speed)
                           (ey (rotation cam))) as [Hty Hts].
  rewrite Hty, Hts. clear Hty Hts.
  destruct (Play.steering m) eqn:Est.
  - assert (Hpos : 0 < Play.speed2 raw).
    { unfold Play.speed2. rewrite Hx, Hz. unfold Play.steering in Est.
      destruct (Player.forward m), (Player.backward m), (Player.left m),
        (Player.right m); cbn in Est; try discriminate; lra. }
    destruct (normalize_flat raw Hy Hpos) as [Hny Hns].
    unfold multiplyScalar, Play.speed2 in *. cbn [x y z mul Exact].
    rewrite Hny. split; [ring |].
    replace (x (normalize raw) * speed * (x (normalize raw) * speed)
             + z (normalize raw) * speed * (z (normalize raw) * speed))
      with ((x (normalize raw) * x (normalize raw)
             + z (normalize raw) * z (normalize raw)) * (speed * speed))
      by ring.
    rewrite Hns. ring.
  - assert (Hzero : x raw = 0 /\ z raw = 0).
    { rewrite Hx, Hz. unfold Play.steering in Est.
      destruct (Player.forward m), (Player.backward m), (Player.left m),
        (Player.right m); cbn in Est; try discriminate; split; lra. }
    destruct Hzero as [Hx0 Hz0].
    rewrite (normalize_zero raw Hx0 Hy Hz0).
    unfold multiplyScalar, Play.speed2. cbn. split; ring.
Qed.

End Steering.

(** X2.  With the real sine and cosine, whatever the camera yaw: the
    velocity the keys ask for has no vertical part; when the held keys ask
    for a direction (not only opposite keys) its horizontal length is
    exactly the speed of the gait, 5 walking and 9 sprinting, also on a
    diagonal; when they do not, it is zero. *)
Theorem asked_velocity_has_gait_speed :
  forall (m : Player.MoveState) (cam : Camera R),
    y (Player.direction m cam) = 0%R
    /\ Play.speed2 (Player.direction m cam)
       = (if Play.steering m
          then if Player.isSprinting m then 9 * 9 else 5 * 5
          else 0)%R.
Proof.
  intros m cam. destruct (direction_speed m cam) as [Hy Hs].
  split; [exact Hy |]. rewrite Hs, currentSpeed_exact_player.
  destruct (Play.steering m), (Player.isSprinting m); reflexivity.
Qed.

(** ** Velocity smoothing *)

Section Smoothing.
Local Open Scope R_scope.

Lemma useFrame_velocity {M : JsMath R} (props : Player.Props R) cam st delta :
  Player.active props = true ->
  Player.isScaring props = false ->
  let st' := snd (fst (Player.useFrame props cam st delta)) in
  let d := Player.direction (Player.moveState st) cam in
  Player.moveState st' = Player.moveState st
  /\ x (Player.velocity st')
     = 0.85 * x (Player.velocity st) + 0.15 * x d
  /\ y (Player.velocity st')
     = 0.85 * y (Player.velocity st) + 0.15 * y d
  /\ z (Player.velocity st')
     = 0.85 * z (Player.velocity st) + 0.15 * z d.
Proof.
  intros Hact Hsc. cbv zeta. unfold Player.useFrame. rewrite Hact, Hsc.
  cbn [negb orb fst snd Player.moveState Player.velocity].
  unfold Player.candidate. cbn [Player.newVelocity].
  unfold Vector3_lerp. cbn [x y z add sub mul lit Exact].
  replace (Q2R 0.15) with 0.15 by (unfold Q2R; cbn; lra).
  repeat split; lra.
Qed.

(** Squared horizontal length of a blend of two vectors within radius
    [r]. *)
Lemma blend_within (vx vz dx dz r : R) :
  0 <= r ->
  vx * vx + vz * vz <= r * r ->
  dx * dx + dz * dz <= r * r ->
  (0.85 * vx + 0.15 * dx) * (0.85 * vx + 0.15 * dx)
  + (0.85 * vz + 0.15 * dz) * (0.85 * vz + 0.15 * dz) <= r * r.
Proof.
  intros Hr Hv Hd.
  pose proof (Rle_0_sqr (vx - dx)) as H1. unfold Rsqr in H1.
  pose proof (Rle_0_sqr (vz - dz)) as H2. unfold Rsqr in H2.
  nra.
Qed.

Lemma direction_within (m : Player.MoveState) (cam : Camera R) :
  Play.speed2 (Player.direction m cam) <= 9 * 9.
Proof.
  destruct (direction_speed m cam) as [_ ->].
  rewrite currentSpeed_exact_player.
  destruct (Play.steering m), (Player.isSprinting m); lra.
Qed.


Lemma direction_idle {M : JsMath R} (m : Player.MoveState) (cam : Camera R) :
  Play.idle m = true -> Player.direction m cam = mkVector3 0 0 0.
Proof.
  intros Hidle. unfold Play.idle, Player.isMoving in Hidle.
  apply negb_true_iff in Hidle.
  destruct (Player.forward m) eqn:Ef, (Player.backward m) eqn:Eb,
    (Player.left m) eqn:El, (Player.right m) eqn:Er; try discriminate.
  unfold Player.direction. rewrite Ef, Eb, El, Er.
  rewrite normalize_zero; [| cbn; unfold Q2R; cbn; lra ..].
  unfold applyEuler, applyQuaternion, multiplyScalar, setFromEuler.
  cbn. f_equal; ring.
Qed.

Lemma step_speed_within (s : Camera R * Player.State R)
  (i : Player.Input) :
  Play.speed2 (Player.velocity (snd s)) <= 9 * 9 ->
  Play.speed2 (Player.velocity (snd (Player.step s i))) <= 9 * 9.
Proof.
  destruct s as [cam st]. cbn [snd]. intros Hv.
  destruct i as [props rot q delta | props code | code]; cbn [Player.step].
  - destruct (Player.active props) eqn:Hact;
      [destruct (Player.isScaring props) eqn:Hsc |].
    + unfold Player.useFrame. rewrite Hact, Hsc. cbn.
      unfold Play.speed2. cbn. replace (Q2R 0) with 0
        by (unfold Q2R; cbn; lra). lra.
    + destruct (useFrame_velocity props (mkCamera (position cam) rot q)
                                  st delta Hact Hsc) as [_ [Hx [_ Hz]]].
      unfold Play.speed2 in *. rewrite Hx, Hz.
      apply blend_within; [lra | exact Hv |].
      apply direction_within.
    + unfold Player.useFrame. rewrite Hact. cbn.
      unfold Play.speed2. cbn. replace (Q2R 0) with 0
        by (unfold Q2R; cbn; lra). lra.
  - unfold Player.handleKeyDown.
    destruct (negb (Player.active props) || Player.isScaring props);
      [exact Hv |].
    destruct code; cbn; try exact Hv.
    destruct (Player.isGrounded st); exact Hv.
  - destruct code; exact Hv.
Qed.

Lemma run_speed_within (inputs : list Player.Input) :
  forall s : Camera R * Player.State R,
    Play.speed2 (Player.velocity (snd s)) <= 9 * 9 ->
    Play.speed2 (Player.velocity (snd (Player.run s inputs))) <= 9 * 9.
Proof.
  unfold Player.run.
  induction inputs as [| i rest IH]; intros s Hv; cbn.
  - exact Hv.
  - apply IH. now apply step_speed_within.
Qed.

(** With no key held, each running frame keeps 0.85 of the velocity. *)
Lemma run_idle_decay {M : JsMath R} (inputs : list Player.Input) :
  forall s : Camera R * Player.State R,
    forallb Play.running inputs = true ->
    Play.idle (Player.moveState (snd s)) = true ->
    let v := Player.velocity (snd s) in
    let v' := Player.velocity (snd (Player.run s inputs)) in
    x v' = 0.85 ^ List.length inputs * x v
    /\ y v' = 0.85 ^ List.length inputs * y v
    /\ z v' = 0.85 ^ List.length inputs * z v.
Proof.
  unfold Player.run.
  induction inputs as [| i rest IH]; intros s Hrun Hidle; cbv zeta.
  - cbn. repeat split; ring.
  - cbn [forallb] in Hrun. apply andb_true_iff in Hrun as [Hi Hrest].
    destruct s as [cam st]. cbn [snd] in *.
    destruct i as [props rot q delta | |]; try discriminate.
    cbn in Hi. apply andb_true_iff in Hi as [Hact Hsc].
    apply negb_true_iff in Hsc.
    destruct (useFrame_velocity props (mkCamera (position cam) rot q)
                                st delta Hact Hsc) as [Hm [Hx [Hy Hz]]].
    assert (Hdir : Player.direction (Player.moveState st)
                     (mkCamera (position cam) rot q) = mkVector3 0 0 0).
    { apply direction_idle. exact Hidle. }
    rewrite Hdir in Hx, Hy, Hz. cbn [x y z] in Hx, Hy, Hz.
    cbn [fold_left Player.step List.length].
    set (s1 := fst (Player.useFrame props _ st delta)) in *.
    assert (Hidle1 : Play.idle (Player.moveState (snd s1)) = true)
      by (rewrite Hm; exact Hidle).
    destruct (IH s1 Hrest Hidle1) as [Ex [Ey Ez]].
    rewrite Ex, Ey, Ez, Hx, Hy, Hz. cbn [pow].
    set (k := 0.85) in *. clearbody k. repeat split; ring.
Qed.

End Smoothing.

(** X3.  With no movement key held, every running frame keeps 0.85 of each
    component of the velocity, whatever the frame time and the camera yaw:
    after [n] such frames the velocity is [0.85 ^ n] times the initial one,
    so a component that is not zero never becomes zero. *)
Theorem idle_velocity_decays_geometrically :
  forall (M : JsMath R) (s : Camera R * Player.State R)
         (inputs : list Player.Input),
    forallb Play.running inputs = true ->
    Play.idle (Player.moveState (snd s)) = true ->
    let v := Player.velocity (snd s) in
    let v' := Player.velocity (snd (Player.run s inputs)) in
    (x v' = 0.85 ^ List.length inputs * x v
     /\ y v' = 0.85 ^ List.length inputs * y v
     /\ z v' = 0.85 ^ List.length inputs * z v)%R
    /\ (x v <> 0%R -> x v' <> 0%R)
    /\ (z v <> 0%R -> z v' <> 0%R).
Proof.
  intros M s inputs Hrun Hidle. cbv zeta.
  destruct (run_idle_decay inputs s Hrun Hidle) as [Ex [Ey Ez]].
  assert (Hpow : (0.85 ^ List.length inputs <> 0)%R)
    by (apply pow_nonzero; lra).
  split; [auto |].
  split; intros Hne; [rewrite Ex | rewrite Ez];
    apply Rmult_integral_contrapositive_currified; assumption.
Qed.

(** Two frames of a player gliding at [[1, 0, 2]] with no key held. *)
Lemma idle_velocity_decays_geometrically_witness :
  (x (Player.velocity
        (snd (Player.run (ExactSample.camera, Scenario.gliding)
                         [Scenario.frame; Scenario.frame])))
   = 0.85 ^ 2 * 1)%R
  /\ x (Player.velocity
          (snd (Player.run (ExactSample.camera, Scenario.gliding)
                           [Scenario.frame; Scenario.frame]))) <> 0%R.
Proof.
  destruct (idle_velocity_decays_geometrically ExactMath
              (ExactSample.camera, Scenario.gliding)
              [Scenario.frame; Scenario.frame])
    as [[Hx _] [Hnz _]].
  - reflexivity.
  - reflexivity.
  - split; [exact Hx | apply Hnz; cbn; lra].
Defined.

(** X4.  With the real sine and cosine: a player whose horizontal velocity
    is at most 9 (the sprint speed) keeps it at most 9 through every
    session of frames and key events, whatever the camera yaw and the frame
    times; so before the obstacle pass a frame moves the candidate by at
    most [9 * delta]. *)
Theorem horizontal_speed_limit :
  forall (s : Camera R * Player.State R) (inputs : list Player.Input)
         (props : Player.Props R) (delta : R),
    (Play.speed2 (Player.velocity (snd s)) <= 9 * 9)%R ->
    let s' := Player.run s inputs in
    (Play.speed2 (Player.velocity (snd s')) <= 9 * 9)%R
    /\ (Player.active props = true ->
        Player.isScaring props = false ->
        let p := Player.uncorrected (fst s') (snd s') delta in
        ((fst p - x (position (fst s')))
         * (fst p - x (position (fst s')))
         + (snd p - z (position (fst s')))
           * (snd p - z (position (fst s')))
         <= (9 * delta) * (9 * delta))%R).
Proof.
  intros s inputs props delta Hv. cbv zeta.
  pose proof (run_speed_within inputs s Hv) as Hrun.
  split; [exact Hrun |]. intros Hact Hsc.
  destruct (Player.run s inputs) as [cam st]. cbn [fst snd] in *.
  destruct (useFrame_velocity props cam st delta Hact Hsc)
    as [_ [Hx [_ Hz]]].
  pose proof (blend_within (x (Player.velocity st)) (z (Player.velocity st))
                (x (Player.direction (Player.moveState st) cam))
                (z (Player.direction (Player.moveState st) cam)) 9
                ltac:(lra) Hrun (direction_within _ cam)) as Hnext.
  unfold Player.uncorrected. cbn [fst snd].
  unfold Vector3_lerp. cbn [x y z add sub mul lit Exact].
  replace (Q2R 0.15) with 0.15%R by (unfold Q2R; cbn; lra).
  set (vx := x (Player.velocity st)) in *.
  set (vz := z (Player.velocity st)) in *.
  set (dx := x (Player.direction (Player.moveState st) cam)) in *.
  set (dz := z (Player.direction (Player.moveState st) cam)) in *.
  clearbody vx vz dx dz.
  replace 0.85%R with (1 - 0.15)%R in Hnext by lra.
  set (k := 0.15%R) in *. clearbody k.
  replace ((x (position cam) + (vx + (dx - vx) * k) * delta
            - x (position cam))
           * (x (position cam) + (vx + (dx - vx) * k) * delta
              - x (position cam))
           + (z (position cam) + (vz + (dz - vz) * k) * delta
              - z (position cam))
             * (z (position cam) + (vz + (dz - vz) * k) * delta
                - z (position cam)))%R
    with ((((1 - k) * vx + k * dx) * ((1 - k) * vx + k * dx)
           + ((1 - k) * vz + k * dz) * ((1 - k) * vz + k * dz))
          * (delta * delta))%R by ring.
  pose proof (Rle_0_sqr delta) as Hd. unfold Rsqr in Hd. nra.
Qed.

(** The jump session from rest. *)
Lemma horizontal_speed_limit_witness :
  (Play.speed2 (Player.velocity (snd (Player.run Scenario.start
                                                 Scenario.jump)))
   <= 9 * 9)%R.
Proof.
  destruct (horizontal_speed_limit Scenario.start Scenario.jump
                                   ExactSample.playerProps 0.016%R)
    as [Hv _].
  - unfold Play.speed2. cbn. unfold Q2R. cbn. lra.
  - exact Hv.
Defined.

(** ** Footsteps and the win test *)

Section Footsteps.
Context {M : JsMath R}.
Local Open Scope R_scope.

(** The interval between two steps of the player's gait. *)
Lemma footstep_interval (m : Player.MoveState) :
  (if Player.isSprinting m then @Player.FOOTSTEP_INTERVAL_SPRINT R Exact
   else Player.FOOTSTEP_INTERVAL_WALK)
  = if Player.isSprinting m then 0.28 else 0.42.
Proof.
  unfold Player.FOOTSTEP_INTERVAL_SPRINT, Player.FOOTSTEP_INTERVAL_WALK.
  cbn. unfold Q2R. cbn. destruct (Player.isSprinting m); lra.
Qed.

Lemma footsteps_exact (props : Player.Props R) st grounded delta :
  let m := Player.moveState st in
  let t := Player.footstepTimer st + delta in
  Player.footsteps props st grounded delta
  = if Player.isMoving m && grounded then
      if Rle_dec (if Player.isSprinting m then 0.28 else 0.42) t
      then (0, if Player.footstepAudio st
               then [Player.playStep
                       (Player.soundVolume props
                        * (if Player.isSprinting m then 0.7 else 0.4))]
               else [])
      else (t, [])
    else (Player.footstepTimer st, []).
Proof.
  cbv zeta. unfold Player.footsteps.
  rewrite footstep_interval.
  change (@leb R Exact) with Real.leb. unfold Real.leb.
  cbn [add mul lit Exact].
  replace (Q2R 0) with 0 by (unfold Q2R; cbn; lra).
  replace (Q2R 0.7) with 0.7 by (unfold Q2R; cbn; lra).
  replace (Q2R 0.4) with 0.4 by (unfold Q2R; cbn; lra).
  destruct (Player.isMoving _ && grounded); [| reflexivity].
  destruct (Rle_dec _ _); [| reflexivity].
  destruct (Player.footstepAudio st), (Player.isSprinting _); reflexivity.
Qed.

Lemma stepVolumes_app (l1 l2 : list (Player.Event R)) :
  Play.stepVolumes (l1 ++ l2) = Play.stepVolumes l1 ++ Play.stepVolumes l2.
Proof. unfold Play.stepVolumes. apply flat_map_app. Qed.

Lemma wins_app (l1 l2 : list (Player.Event R)) :
  Play.wins (l1 ++ l2) = Play.wins l1 || Play.wins l2.
Proof. unfold Play.wins. apply existsb_app. Qed.

(** The events of a frame that runs: the win call, then the step. *)
Lemma useFrame_events (props : Player.Props R) cam st delta :
  Player.active props = true ->
  Player.isScaring props = false ->
  let r := Player.useFrame props cam st delta in
  let c := Player.candidate props cam st delta in
  let walk := Player.footsteps props st (Player.newGrounded c) delta in
  Player.footstepTimer (snd (fst r)) = fst walk
  /\ Play.stepVolumes (snd r) = Play.stepVolumes (snd walk)
  /\ Play.wins (snd r)
     = Player.canWin props
       && Real.ltb (distanceTo (position (fst (fst r)))
                               Player.WIN_ZONE_POSITION) 5.
Proof.
  intros Hact Hsc. cbv zeta. unfold Player.useFrame. rewrite Hact, Hsc.
  cbn [negb orb fst snd Player.footstepTimer].
  rewrite stepVolumes_app, wins_app.
  change (@ltb R Exact) with Real.ltb.
  replace (@Player.WIN_DISTANCE R Exact) with 5
    by (unfold Player.WIN_DISTANCE; cbn; unfold Q2R; cbn; lra).
  assert (Hnowin : Play.wins (snd (Player.footsteps props st
                     (Player.newGrounded
                        (Player.candidate props cam st delta)) delta))
                   = false).
  { rewrite footsteps_exact. cbv zeta.
    destruct (_ && _); [| reflexivity].
    destruct (Rle_dec _ _); [| reflexivity].
    destruct (Player.footstepAudio st); reflexivity. }
  rewrite Hnowin, orb_false_r.
  split; [reflexivity |].
  destruct (Player.canWin props && _); split; reflexivity.
Qed.

End Footsteps.

Section Cadence.
Context {M : JsMath R}.
Local Open Scope R_scope.

(** A frame of a walker: the walker stays one, and the timer either
    reaches the interval, plays a step and restarts, or only grows. *)
Lemma useFrame_walker (props : Player.Props R) cam st delta :
  Player.active props = true ->
  Player.isScaring props = false ->
  Play.walker (cam, st) ->
  let r := Player.useFrame props cam st delta in
  let m := Player.moveState st in
  let t := Player.footstepTimer st + delta in
  Play.walker (fst r)
  /\ Player.moveState (snd (fst r)) = m
  /\ (if Rle_dec (if Player.isSprinting m then 0.28 else 0.42) t
      then Player.footstepTimer (snd (fst r)) = 0
           /\ Play.stepVolumes (snd r)
              = [Player.soundVolume props
                 * (if Player.isSprinting m then 0.7 else 0.4)]
      else Player.footstepTimer (snd (fst r)) = t
           /\ Play.stepVolumes (snd r) = []).
Proof.
  intros Hact Hsc [Hair [Hgr [Hmov Haud]]]. cbv zeta.
  cbn [fst snd] in *.
  pose proof (useFrame_airworthy props cam st delta Hair) as Hair'.
  destruct (useFrame_events props cam st delta Hact Hsc)
    as [Htimer [Hvol _]].
  pose proof (candidate_vertical props cam st delta) as Hc. cbv zeta in Hc.
  rewrite Hgr in Hc.
  destruct Hair as [_ [_ Hs]]. cbn [fst snd] in Hs.
  destruct (Hs Hgr) as [Hy0 Hv0].
  destruct vertical_constants as [Hg _].
  rewrite Hy0, Hv0, Hg in Hc.
  destruct (Rle_dec (1.7 + 0 * delta) 1.7) as [_ | Hn];
    [| exfalso; apply Hn; lra].
  destruct Hc as [_ [_ Hgr']].
  rewrite Hgr' in Htimer, Hvol.
  rewrite footsteps_exact in Htimer, Hvol. cbv zeta in Htimer, Hvol.
  rewrite Hmov, Haud in Htimer, Hvol. cbn [andb] in Htimer, Hvol.
  assert (Hstate : Player.moveState
                     (snd (fst (Player.useFrame props cam st delta)))
                   = Player.moveState st
                   /\ Player.isGrounded
                        (snd (fst (Player.useFrame props cam st delta)))
                      = true
                   /\ Player.footstepAudio
                        (snd (fst (Player.useFrame props cam st delta)))
                      = true).
  { unfold Player.useFrame. rewrite Hact, Hsc. cbn. auto. }
  destruct Hstate as [Hm' [Hg' Ha']].
  split; [| split; [exact Hm' |]].
  - unfold Play.walker. rewrite Hm'. auto.
  - destruct (Rle_dec _ _); cbn [fst snd] in Htimer, Hvol;
      split; assumption.
Qed.

(** Frames with the same frame time: [n] silent ones while the timer is
    short of the interval, then the one that plays. *)
Lemma frames_cadence (props : Player.Props R) rot q delta (n : nat) :
  Player.active props = true ->
  Player.isScaring props = false ->
  0 < delta ->
  forall s : Camera R * Player.State R,
    Play.walker s ->
    let m := Player.moveState (snd s) in
    let interval := if Player.isSprinting m then 0.28 else 0.42 in
    let t := Player.footstepTimer (snd s) in
    t + INR n * delta < interval <= t + INR (S n) * delta ->
    let r := Play.frames props rot q delta (S n) s in
    Play.walker (fst r)
    /\ Player.footstepTimer (snd (fst r)) = 0
    /\ map Play.stepVolumes (snd r)
       = repeat [] n
         ++ [[Player.soundVolume props
              * (if Player.isSprinting m then 0.7 else 0.4)]].
Proof.
  intros Hact Hsc Hdelta.
  induction n as [| n IH]; intros [cam st] Hw; cbv zeta; cbn [fst snd];
    intros [Hlo Hhi].
  - cbn [Play.frames Play.stepEvents fst snd map repeat app].
    assert (Hw0 : Play.walker (mkCamera (position cam) rot q, st)).
    { destruct Hw as [Hair Hrest]. split; [exact Hair | exact Hrest]. }
    destruct (useFrame_walker props _ st delta Hact Hsc Hw0)
      as [Hw' [_ Hstep]].
    cbv zeta in Hstep. cbn [INR] in Hlo, Hhi.
    destruct (Rle_dec _ _) as [_ | Hn]; [| exfalso; apply Hn; lra].
    destruct Hstep as [Ht Hv]. rewrite Hv. auto.
  - change (Play.frames props rot q delta (S (S n)) (cam, st))
      with (let r := Play.stepEvents (cam, st)
                       (Player.Frame props rot q delta) in
            let rest := Play.frames props rot q delta (S n) (fst r) in
            (fst rest, snd r :: snd rest)).
    cbv zeta. cbn [Play.stepEvents fst snd map].
    assert (Hw0 : Play.walker (mkCamera (position cam) rot q, st)).
    { destruct Hw as [Hair Hrest]. split; [exact Hair | exact Hrest]. }
    destruct (useFrame_walker props _ st delta Hact Hsc Hw0)
      as [Hw' [Hm' Hstep]].
    cbv zeta in Hstep.
    rewrite S_INR in Hlo. rewrite !S_INR in Hhi.
    pose proof (pos_INR n) as Hn0.
    destruct (Rle_dec _ _) as [Hreach | _]; [exfalso; nra |].
    destruct Hstep as [Ht Hv]. rewrite Hv.
    set (s1 := fst (Player.useFrame props _ st delta)) in *.
    specialize (IH s1 Hw'). cbv zeta in IH. rewrite Hm', Ht in IH.
    destruct IH as [Hw2 [Ht2 Hv2]].
    { rewrite S_INR. split; nra. }
    rewrite Hv2. cbn [repeat app]. auto.
Qed.

End Cadence.

(** ** The cadence under any arithmetic *)

Section RunningSum.
Context {T : Type} `{JsNum T} `{JsMath T}.

Lemma stepVolumes_app_any (l1 l2 : list (Player.Event T)) :
  Play.stepVolumes (l1 ++ l2) = Play.stepVolumes l1 ++ Play.stepVolumes l2.
Proof. unfold Play.stepVolumes. apply flat_map_app. Qed.

Lemma stepVolumes_win (b : bool) :
  Play.stepVolumes (if b then [@Player.onWin T] else []) = [].
Proof. destruct b; reflexivity. Qed.

(** A frame of a player moving on the ground with the step sound loaded:
    the keys, the grounded flag and the sound stay, and the timer either
    tests at or above the interval, plays a step and restarts, or takes
    the sum. *)
Lemma useFrame_step_timer (props : Player.Props T) cam st delta :
  Player.active props = true ->
  Player.isScaring props = false ->
  Player.isGrounded st = true ->
  Player.isMoving (Player.moveState st) = true ->
  Player.footstepAudio st = true ->
  let r := Player.useFrame props cam st delta in
  let m := Player.moveState st in
  let t := add (Player.footstepTimer st) delta in
  Player.moveState (snd (fst r)) = m
  /\ Player.isGrounded (snd (fst r)) = true
  /\ Player.footstepAudio (snd (fst r)) = true
  /\ (if leb (Play.gaitInterval m) t
      then Player.footstepTimer (snd (fst r)) = lit 0
           /\ Play.stepVolumes (snd r)
              = [mul (Player.soundVolume props)
                     (if Player.isSprinting m then lit 0.7 else lit 0.4)]
      else Player.footstepTimer (snd (fst r)) = t
           /\ Play.stepVolumes (snd r) = []).
Proof.
  intros Hact Hsc Hgr Hmov Haud. cbv zeta.
  unfold Player.useFrame. rewrite Hact, Hsc.
  cbn [negb orb fst snd Player.moveState Player.isGrounded
       Player.footstepAudio Player.footstepTimer].
  assert (Hgr' : Player.newGrounded (Player.candidate props cam st delta)
                 = true).
  { unfold Player.candidate. cbn [Player.newGrounded]. rewrite Hgr.
    now destruct (leb _ _). }
  rewrite Hgr'. split; [reflexivity |]. split; [reflexivity |].
  split; [exact Haud |].
  rewrite stepVolumes_app_any.
  rewrite stepVolumes_win. cbn [app].
  unfold Player.footsteps, Play.gaitInterval. rewrite Hmov, Haud.
  cbn [andb].
  destruct (leb _ _); cbn [fst snd]; split; reflexivity.
Qed.

(** Frames with the same frame time: silent while the running sum tests
    short of the interval, then the one that plays. *)
Lemma frames_running_sum (props : Player.Props T) rot q delta (n : nat) :
  Player.active props = true ->
  Player.isScaring props = false ->
  forall s : Camera T * Player.State T,
    Player.isGrounded (snd s) = true ->
    Player.isMoving (Player.moveState (snd s)) = true ->
    Player.footstepAudio (snd s) = true ->
    Play.stepDue (Player.moveState (snd s)) (Player.footstepTimer (snd s))
                 delta n = true ->
    let r := Play.frames props rot q delta (S n) s in
    Player.footstepTimer (snd (fst r)) = lit 0
    /\ map Play.stepVolumes (snd r)
       = repeat [] n
         ++ [[mul (Player.soundVolume props)
                  (if Player.isSprinting (Player.moveState (snd s))
                   then lit 0.7 else lit 0.4)]].
Proof.
  intros Hact Hsc.
  induction n as [| n IH]; intros [cam st] Hgr Hmov Haud Hdue; cbv zeta;
    cbn [fst snd] in *.
  - cbn [Play.frames Play.stepEvents fst snd map repeat app].
    destruct (useFrame_step_timer props (mkCamera (position cam) rot q) st
                delta Hact Hsc Hgr Hmov Haud) as [_ [_ [_ Hstep]]].
    cbv zeta in Hstep. cbn [Play.stepDue] in Hdue. rewrite Hdue in Hstep.
    destruct Hstep as [Ht Hv]. rewrite Hv. auto.
  - change (Play.frames props rot q delta (S (S n)) (cam, st))
      with (let r := Play.stepEvents (cam, st)
                       (Player.Frame props rot q delta) in
            let rest := Play.frames props rot q delta (S n) (fst r) in
            (fst rest, snd r :: snd rest)).
    cbv zeta. cbn [Play.stepEvents fst snd map].
    destruct (useFrame_step_timer props (mkCamera (position cam) rot q) st
                delta Hact Hsc Hgr Hmov Haud) as [Hm' [Hg' [Ha' Hstep]]].
    cbv zeta in Hstep. cbn [Play.stepDue] in Hdue.
    apply andb_true_iff in Hdue. destruct Hdue as [Hshort Hdue].
    apply negb_true_iff in Hshort. rewrite Hshort in Hstep.
    destruct Hstep as [Ht Hv]. rewrite Hv.
    set (s1 := fst (Player.useFrame props _ st delta)) in *.
    specialize (IH s1 Hg'). rewrite Hm', Ht in IH.
    destruct (IH Hmov Ha' Hdue) as [Ht2 Hv2].
    rewrite Hv2. cbn [repeat app]. auto.
Qed.

End RunningSum.

(** X5.  A player walking or sprinting on the ground with the step sound
    loaded, in frames of one frame time.  Under either arithmetic the
    step timer is the code's running sum, one addition per frame: the
    frames in which the sum tests short of the interval of the gait
    (0.42 s walking, 0.28 s sprinting) play nothing, and the first frame
    in which it tests at or above the interval plays exactly one step, at
    0.4 (walking) or 0.7 (sprinting) times the sound volume, and puts the
    timer back to 0; what the timer overshot is not carried over.  In
    exact arithmetic, with [delta > 0] and the timer at [t], that frame
    is frame [n + 1] for the [n] with
    [t + n * delta < interval <= t + (n + 1) * delta].  In binary64 the
    sum is rounded at every frame and the step can come a frame later
    than this count says: sprinting in frames of 0.02 s from a timer at 0
    the sum is 0.27999999999999997 after 14 frames and the step is
    played in frame 15, not 14; walking in frames of 0.042 s it is
    played in frame 11, not 10. *)
Theorem footsteps_keep_the_cadence :
  (forall (T : Type) (N : JsNum T) (M : JsMath T) (props : Player.Props T)
          (rot : Euler T) (q : Quaternion T) (delta : T) (n : nat)
          (s : Camera T * Player.State T),
      Player.active props = true ->
      Player.isScaring props = false ->
      Player.isGrounded (snd s) = true ->
      Player.isMoving (Player.moveState (snd s)) = true ->
      Player.footstepAudio (snd s) = true ->
      Play.stepDue (Player.moveState (snd s))
                   (Player.footstepTimer (snd s)) delta n = true ->
      let r := Play.frames props rot q delta (S n) s in
      Player.footstepTimer (snd (fst r)) = lit 0
      /\ map Play.stepVolumes (snd r)
         = repeat [] n
           ++ [[mul (Player.soundVolume props)
                    (if Player.isSprinting (Player.moveState (snd s))
                     then lit 0.7 else lit 0.4)]])
  /\ (forall (M : JsMath R) (props : Player.Props R) (rot : Euler R)
             (q : Quaternion R) (delta : R) (n : nat)
             (s : Camera R * Player.State R),
        Player.active props = true ->
        Player.isScaring props = false ->
        (0 < delta)%R ->
        Play.walker s ->
        let m := Player.moveState (snd s) in
        let interval := (if Player.isSprinting m then 0.28 else 0.42)%R in
        let t := Player.footstepTimer (snd s) in
        (t + INR n * delta < interval <= t + INR (S n) * delta)%R ->
        let r := Play.frames props rot q delta (S n) s in
        Player.footstepTimer (snd (fst r)) = 0%R
        /\ map Play.stepVolumes (snd r)
           = repeat [] n
             ++ [[(Player.soundVolume props
                   * (if Player.isSprinting m then 0.7 else 0.4))%R]])
  /\ (Player.footstepTimer
        (snd (fst (Play.frames (Sample.playerProps [])
                     (rotation Sample.camera) (quaternion Sample.camera)
                     (lit 0.02) 14 (Sample.camera, Scenario.sprinting))))
      = lit 0.27999999999999997
      /\ map Play.stepVolumes
           (snd (Play.frames (Sample.playerProps [])
                   (rotation Sample.camera) (quaternion Sample.camera)
                   (lit 0.02) 15 (Sample.camera, Scenario.sprinting)))
         = repeat [] 14 ++ [[mul (lit 0.8) (lit 0.7)]]
      /\ map Play.stepVolumes
           (snd (Play.frames (Sample.playerProps [])
                   (rotation Sample.camera) (quaternion Sample.camera)
                   (lit 0.042) 11 (Sample.camera, Sample.walking)))
         = repeat [] 10 ++ [[mul (lit 0.8) (lit 0.4)]]).
Proof.
  split; [| split; [| split; [| split]]].
  - intros T N M props rot q delta n s Hact Hsc Hgr Hmov Haud Hdue.
    exact (frames_running_sum props rot q delta n Hact Hsc s Hgr Hmov Haud
                              Hdue).
  - intros M props rot q delta n s Hact Hsc Hdelta Hw. cbv zeta.
    intros Hbetween.
    destruct (frames_cadence props rot q delta n Hact Hsc Hdelta s Hw
                             Hbetween) as [_ [Ht Hv]].
    split; assumption.
  - vm_compute. reflexivity.
  - vm_compute. reflexivity.
  - vm_compute. reflexivity.
Qed.

(** Walking in frames of 0.1 s in exact arithmetic: four silent frames,
    then the step.  Sprinting in frames of 0.02 s in binary64: the running
    sum is due in frame 15. *)
Lemma footsteps_keep_the_cadence_witness :
  (Player.footstepTimer
     (snd (fst (Play.frames ExactSample.playerProps
                  (rotation ExactSample.camera)
                  (quaternion ExactSample.camera) 0.1%R 5
                  (ExactSample.camera, Scenario.walking)))) = 0%R
   /\ map Play.stepVolumes
          (snd (Play.frames ExactSample.playerProps
                  (rotation ExactSample.camera)
                  (quaternion ExactSample.camera) 0.1%R 5
                  (ExactSample.camera, Scenario.walking)))
      = [[]; []; []; []; [(0.8 * 0.4)%R]])
  /\ Player.footstepTimer
       (snd (fst (Play.frames (Sample.playerProps [])
                    (rotation Sample.camera) (quaternion Sample.camera)
                    (lit 0.02) 15 (Sample.camera, Scenario.sprinting))))
     = lit 0.
Proof.
  destruct footsteps_keep_the_cadence as [Hsum [Hexact _]].
  split.
  - apply (Hexact ExactMath ExactSample.playerProps
             (rotation ExactSample.camera) (quaternion ExactSample.camera)
             0.1%R 4 (ExactSample.camera, Scenario.walking)).
    + reflexivity.
    + reflexivity.
    + lra.
    + unfold Play.walker, Play.airworthy, Play.energy. cbn. unfold Q2R. cbn.
      repeat split; lra.
    + cbn. lra.
  - apply (Hsum float Float64 Sample.Math_yaw0 (Sample.playerProps [])
             (rotation Sample.camera) (quaternion Sample.camera)
             (lit 0.02) 14 (Sample.camera, Scenario.sprinting));
      vm_compute; reflexivity.
Defined.

(** X6.  A frame that runs calls [onWin] exactly when [canWin] is set and
    the committed camera position is closer than 5 to [[0, 0, -40]] in 3D.
    As the camera is never below 1.7, this asks for a horizontal distance
    to the house of less than the square root of [25 - 1.7 * 1.7 = 22.11].
    With the props the orchestrator hands down, [canWin] means that 10
    custards are collected, so a call of [onWin] always makes [handleWin]
    switch to WIN. *)
Theorem win_needs_the_house_and_all_custards :
  forall (M : JsMath R),
    (forall (props : Player.Props R) cam st delta,
        Player.active props = true ->
        Player.isScaring props = false ->
        let r := Player.useFrame props cam st delta in
        let p := position (fst (fst r)) in
        (Play.wins (snd r) = true
         <-> Player.canWin props = true
             /\ (x p * x p + y p * y p + (z p + 40) * (z p + 40) < 25)%R)
        /\ (Play.wins (snd r) = true ->
            (x p * x p + (z p + 40) * (z p + 40) < 22.11)%R))
    /\ (forall (obstacles : list (Obstacle R)) (app : App.State R)
               cam st delta,
          Play.wins (snd (Player.useFrame (App.playerProps obstacles app)
                                          cam st delta)) = true ->
          App.collectedCount app = App.TOTAL_CUSTARDS
          /\ App.isPlaying (App.gameState app) = true
          /\ App.isScaring app = false
          /\ App.gameState (fst (App.handleWin app)) = WIN).
Proof.
  intros M.
  assert (Hframe : forall (props : Player.Props R) cam st delta,
             Player.active props = true ->
             Player.isScaring props = false ->
             let r := Player.useFrame props cam st delta in
             let p := position (fst (fst r)) in
             (Play.wins (snd r) = true
              <-> Player.canWin props = true
                  /\ (x p * x p + y p * y p + (z p + 40) * (z p + 40)
                      < 25)%R)
             /\ (1.7 <= y p)%R).
  { intros props cam st delta Hact Hsc. cbv zeta.
    destruct (useFrame_events props cam st delta Hact Hsc)
      as [_ [_ Hwin]].
    rewrite Hwin. clear Hwin.
    set (p := position (fst (fst (Player.useFrame props cam st delta)))).
    assert (Hdist : (distanceTo p Player.WIN_ZONE_POSITION
                     * distanceTo p Player.WIN_ZONE_POSITION
                     = x p * x p + y p * y p + (z p + 40) * (z p + 40))%R).
    { unfold distanceTo, distanceToSquared, Player.WIN_ZONE_POSITION.
      cbn [x y z sub mul add lit Math_sqrt Exact].
      rewrite sqrt_sqrt by apply squares3_nonneg.
      unfold Q2R. cbn. field. }
    assert (Hpos : (0 <= distanceTo p Player.WIN_ZONE_POSITION)%R)
      by apply sqrt_pos.
    assert (Hy : (1.7 <= y p)%R).
    { unfold p, Player.useFrame. rewrite Hact, Hsc.
      cbn [negb orb fst snd]. unfold Player.commit. cbn [position y].
      pose proof (candidate_vertical props cam st delta) as Hc.
      cbv zeta in Hc.
      destruct (Rle_dec _ 1.7) as [_ | Hfly] in Hc;
        destruct Hc as [-> _]; lra. }
    split; [| exact Hy].
    rewrite andb_true_iff, Real_ltb_true. rewrite <- Hdist.
    split; intros [Hcan Hlt]; (split; [exact Hcan | nra]). }
  split.
  - intros props cam st delta Hact Hsc. cbv zeta.
    destruct (Hframe props cam st delta Hact Hsc) as [Hiff Hy].
    split; [exact Hiff |]. intros Hwin. apply Hiff in Hwin as [_ Hlt].
    nra.
  - intros obstacles app cam st delta Hwin.
    destruct (App.isPlaying (App.gameState app)) eqn:Hg;
      [destruct (App.isScaring app) eqn:Hs |].
    + unfold Player.useFrame in Hwin. cbn in Hwin.
      rewrite Hs, orb_true_r in Hwin. discriminate.
    + destruct (Hframe (App.playerProps obstacles app) cam st delta)
        as [Hiff _]; [cbn; exact Hg | exact Hs |].
      apply Hiff in Hwin as [Hcan _]. cbn in Hcan.
      apply Nat.eqb_eq in Hcan.
      repeat split; try assumption.
      unfold App.handleWin. rewrite Hcan. reflexivity.
    + unfold Player.useFrame in Hwin. cbn in Hwin.
      rewrite Hg in Hwin. discriminate.
Qed.

(** A frame of the standing player, away from obstacles and boundary,
    leaves the camera where it is. *)

Lemma standing_frame_stays (props : Player.Props R) (cam : Camera R)
  (delta : R) :
  Player.active props = true ->
  Player.isScaring props = false ->
  Player.obstacles props = [] ->
  (Rabs (x (position cam)) < 98.5)%R ->
  (Rabs (z (position cam)) < 98.5)%R ->
  y (position cam) = 1.7%R ->
  position (fst (fst (Player.useFrame props cam ExactSample.standing delta)))
  = position cam.
Proof.
  intros Hact Hsc Hobs Hx Hz Hy.
  assert (Hnext := candidate_next (M := ExactMath) props cam
                                  ExactSample.standing delta).
  rewrite Hobs, uncorrected_standing in Hnext.
  cbn [Player.resolveObstacles fold_left] in Hnext.
  assert (Hnx := f_equal fst Hnext). assert (Hnz := f_equal snd Hnext).
  cbn [fst snd] in Hnx, Hnz. clear Hnext.
  assert (Hcom := committed_in_bounds (M := ExactMath) props cam
                    ExactSample.standing delta Hact Hsc).
  rewrite Hnx, Hnz in Hcom. specialize (Hcom Hx Hz).
  unfold Player.committed in Hcom.
  assert (Hcx := f_equal fst Hcom). assert (Hcz := f_equal snd Hcom).
  cbn [fst snd] in Hcx, Hcz. clear Hcom.
  assert (Hvert := candidate_vertical (M := ExactMath) props cam
                     ExactSample.standing delta).
  cbv zeta in Hvert. cbn [ExactSample.standing Player.useEffect
    Player.initial Player.isGrounded Player.verticalVelocity] in Hvert.
  change (@lit R Exact 0) with (Q2R 0) in Hvert.
  replace (Q2R 0) with 0%R in Hvert by (unfold Q2R; cbn; lra).
  destruct (Rle_dec _ _) as [_ | Hn]; [| exfalso; apply Hn; lra].
  destruct Hvert as [Hny _].
  assert (Hcy : y (position (fst (fst (Player.useFrame props cam
                                         ExactSample.standing delta))))
                = 1.7%R).
  { unfold Player.useFrame. rewrite Hact, Hsc. cbn [negb orb fst].
    unfold Player.commit. cbn [position y]. exact Hny. }
  destruct (position (fst (fst (Player.useFrame props cam
                                  ExactSample.standing delta))))
    as [px py pz].
  destruct (position cam) as [cx cy cz]. cbn [x y z] in *.
  congruence.
Qed.

(** Standing at the house with all 10 custards collected. *)
Lemma win_needs_the_house_and_all_custards_witness :
  Play.wins (snd (Player.useFrame (App.playerProps [] Scenario.allCollected)
                                  Scenario.atHouse ExactSample.standing
                                  0.016%R)) = true
  /\ App.gameState (fst (App.handleWin Scenario.allCollected)) = WIN.
Proof.
  destruct (win_needs_the_house_and_all_custards ExactMath)
    as [Hframe Happ].
  assert (Hwin : Play.wins
                   (snd (Player.useFrame
                           (App.playerProps [] Scenario.allCollected)
                           Scenario.atHouse ExactSample.standing 0.016%R))
                 = true).
  { destruct (Hframe (App.playerProps [] Scenario.allCollected)
                     Scenario.atHouse ExactSample.standing 0.016%R
                     eq_refl eq_refl) as [[_ Hfrom] _].
    apply Hfrom. split; [reflexivity |].
    rewrite standing_frame_stays; try reflexivity; cbn.
    - lra.
    - rewrite Rabs_R0. lra.
    - unfold Rabs. destruct (Rcase_abs _); lra. }
  split; [exact Hwin |].
  apply (Happ [] Scenario.allCollected Scenario.atHouse
              ExactSample.standing 0.016%R Hwin).
Defined.

(** ** Step volumes *)

Section Volumes.
Local Open Scope R_scope.

Lemma monster_footsteps_exact (props : Monster.Props R) st dist delta :
  forall v, In (Monster.playStep v)
               (snd (Monster.footsteps props st dist delta)) ->
            dist < 45
            /\ v = Monster.soundVolume props * (1 - dist / 45) * 0.8.
Proof.
  intros v Hin. unfold Monster.footsteps in Hin.
  destruct (leb _ _); [| destruct Hin].
  cbn [snd] in Hin.
  destruct (ltb dist Monster.MAX_AUDIBLE_DISTANCE) eqn:Hnear;
    [| destruct Hin].
  destruct (Monster.footstepAudio st); [| destruct Hin].
  cbn in Hin. destruct Hin as [Heq | []]. inversion Heq as [Hv].
  change (@ltb R Exact) with Real.ltb in Hnear.
  apply Real_ltb_true in Hnear.
  unfold Monster.MAX_AUDIBLE_DISTANCE in *. cbn in *.
  unfold Q2R in *. cbn in *. split; lra.
Qed.

End Volumes.

(** X7.  With the sound volume setting in [[0, 1]], every step either
    component plays has a volume an audio element accepts: the player's is
    0.4 or 0.7 times the setting, the monster's is
    [setting * (1 - dist / 45) * 0.8] and is played only closer than 45,
    so both lie in [[0, 1]]; and a frame plays at most one step. *)
Theorem step_volumes_are_valid :
  forall (M : JsMath R) (O : Monster.Object3D R),
    (forall (props : Player.Props R) cam st delta v,
        (0 <= Player.soundVolume props <= 1)%R ->
        In v (Play.stepVolumes (snd (Player.useFrame props cam st delta))) ->
        (0 <= v <= 0.7)%R)
    /\ (forall (props : Player.Props R) cam st delta,
          List.length
            (Play.stepVolumes (snd (Player.useFrame props cam st delta)))
          <= 1)
    /\ (forall (props : Monster.Props R) cam st delta v,
          (0 <= Monster.soundVolume props <= 1)%R ->
          In (Monster.playStep v)
             (snd (Monster.useFrame props cam st delta)) ->
          (0 <= v <= 0.8)%R).
Proof.
  intros M O.
  assert (Hplayer : forall (props : Player.Props R) cam st delta,
             Play.stepVolumes (snd (Player.useFrame props cam st delta))
             = []
             \/ exists k, (k = 0.4 \/ k = 0.7)%R
                /\ Play.stepVolumes
                     (snd (Player.useFrame props cam st delta))
                   = [(Player.soundVolume props * k)%R]).
  { intros props cam st delta.
    destruct (Player.active props) eqn:Hact;
      [destruct (Player.isScaring props) eqn:Hsc |].
    - left. unfold Player.useFrame. rewrite Hact, Hsc. reflexivity.
    - destruct (useFrame_events props cam st delta Hact Hsc)
        as [_ [-> _]].
      rewrite footsteps_exact. cbv zeta.
      destruct (_ && _); [| now left].
      destruct (Rle_dec _ _); [| now left].
      destruct (Player.footstepAudio st); [| now left].
      right. destruct (Player.isSprinting _);
        [exists 0.7%R | exists 0.4%R]; cbn; auto.
    - left. unfold Player.useFrame. rewrite Hact. reflexivity. }
  split; [| split].
  - intros props cam st delta v Hvol Hin.
    destruct (Hplayer props cam st delta) as [E | [k [Hk E]]];
      rewrite E in Hin; [destruct Hin |].
    destruct Hin as [<- | []]. destruct Hk as [-> | ->]; nra.
  - intros props cam st delta.
    destruct (Hplayer props cam st delta) as [E | [k [_ E]]];
      rewrite E; cbn; lia.
  - intros props cam st delta v Hvol Hin.
    unfold Monster.useFrame in Hin.
    destruct (negb (Monster.active props)); [destruct Hin |].
    destruct (Monster.meshRef st) as [mesh |]; [| destruct Hin].
    destruct (Monster.isScaring props); [destruct Hin |].
    cbn [snd] in Hin.
    apply in_app_or in Hin as [Hin | Hin].
    + destruct (monster_footsteps_exact _ _ _ _ v Hin) as [Hnear ->].
      assert (Hd : (0 <= distanceTo (Monster.mesh_position mesh)
                                    (position cam))%R) by apply sqrt_pos.
      set (d := distanceTo _ _) in *. clearbody d.
      assert (H1 : (0 < 1 - d / 45 <= 1)%R) by (split; lra).
      split; nra.
    + exfalso. apply in_app_or in Hin as [Hin | Hin].
      * destruct (Monster.hasOnDangerUpdate props);
          [destruct Hin as [Heq | []]; discriminate | destruct Hin].
      * destruct (ltb _ _);
          [destruct Hin as [Heq | []]; discriminate | destruct Hin].
Qed.

(** A walker whose step is due, and a monster closer than 14 after a
    frame of one second. *)
Lemma step_volumes_are_valid_witness :
  (0 <= 0.8 * 0.4 <= 0.7)%R
  /\ (0 <= 0.8 * (1 - distanceTo (mkVector3 1.5 0 0)
                                 (position ExactSample.camera) / 45) * 0.8
      <= 0.8)%R.
Proof.
  destruct (step_volumes_are_valid ExactMath Scenario.lookAt_none)
    as [Hplayer [_ Hmonster]].
  split.
  - apply (Hplayer ExactSample.playerProps ExactSample.camera
                   Scenario.walking 0.5%R).
    + cbn. lra.
    + destruct (frames_cadence (M := ExactMath) ExactSample.playerProps
                  (rotation ExactSample.camera)
                  (quaternion ExactSample.camera) 0.5%R 0
                  eq_refl eq_refl ltac:(lra)
                  (ExactSample.camera, Scenario.walking))
        as [_ [_ Hvol]].
      * unfold Play.walker, Play.airworthy, Play.energy. cbn.
        unfold Q2R. cbn. repeat split; lra.
      * cbn. lra.
      * cbn [Play.frames Play.stepEvents fst snd map repeat app] in Hvol.
        apply (f_equal (hd [])) in Hvol. cbn [hd] in Hvol.
        change (mkCamera (position ExactSample.camera)
                         (rotation ExactSample.camera)
                         (quaternion ExactSample.camera))
          with ExactSample.camera in Hvol.
        rewrite Hvol. left. cbn. lra.
  - apply (Hmonster Scenario.pursuing ExactSample.camera Scenario.lurking
                    1%R).
    + cbn. lra.
    + unfold Monster.useFrame, Monster.footsteps.
      cbn [Scenario.pursuing Scenario.lurking Monster.active
           Monster.isScaring Monster.meshRef Monster.footstepTimer
           Monster.footstepAudio Monster.soundVolume Monster.mesh_position
           negb snd fst andb].
      set (d := distanceTo _ _).
      assert (Hd : (d < 14)%R).
      { unfold d, distanceTo, distanceToSquared. cbn.
        replace 14%R with (R_sqrt.sqrt (14 * 14))
          by (rewrite sqrt_square; lra).
        apply sqrt_lt_1_alt. lra. }
      clearbody d.
      assert (Hstep : leb (Monster.FOOTSTEP_INTERVAL_BASE
                           * (Monster.BASE_SPEED / Monster.currentSpeed d))%js
                          (0 + 1)%R = true).
      { change (@leb R Exact) with Real.leb. apply Real_leb_true.
        rewrite currentSpeed_exact.
        destruct (Rlt_dec d 14); [| contradiction].
        cbn. unfold Q2R. cbn.
        replace (46 * / 10 / (68 * / 10))%R with (46 / 68)%R by field.
        lra. }
      assert (Hnear : ltb d Monster.MAX_AUDIBLE_DISTANCE = true).
      { change (@ltb R Exact) with Real.ltb. apply Real_ltb_true.
        cbn. unfold Q2R. cbn. lra. }
      cbn [add Exact]. rewrite Hstep, Hnear.
      apply in_or_app. left. left.
      cbn. unfold Q2R. cbn. f_equal. lra.
Defined.

(** ** The light and the battery across episodes *)

Section Power.
Local Open Scope R_scope.

Lemma step_powered (st : App.State R) (i : App.Input) :
  Session.powered st -> Session.powered (fst (App.step st i)).
Proof.
  intros [Hrange Hlight]. destruct i; cbn [App.step fst].
  - unfold App.handleCatch.
    destruct (_ && _); cbn [fst]; split; assumption.
  - unfold App.timeout. destruct (App.pendingTimeouts st);
      split; assumption.
  - destruct (App.isPlaying (App.gameState st)) eqn:Hg;
      [| unfold App.batteryTick; rewrite Hg; split; assumption].
    destruct (App.flashlightOn st) eqn:Hl.
    + destruct (batteryTick_on st Hg Hl) as [Hb [Hl' _]].
      split; [apply batteryTick_range; exact Hrange |].
      rewrite Hl', Hb. intros Hon. apply negb_true_iff in Hon.
      apply Real_eqb_false in Hon.
      unfold Rmax in *. destruct (Rle_dec 0 (App.battery st - 0.08)); lra.
    + destruct (batteryTick_off st Hg Hl) as [Hb [Hl' _]].
      split; [apply batteryTick_range; exact Hrange |].
      rewrite Hl'. discriminate.
  - unfold App.toggleFlashlight.
    destruct (negb (App.isScaring st)); cbn [andb];
      [| split; assumption].
    destruct (ltb (lit 0) (App.battery st)) eqn:Hpos;
      [| split; assumption].
    change (@ltb R Exact) with Real.ltb in Hpos.
    apply Real_ltb_true in Hpos. cbn in Hpos. unfold Q2R in Hpos.
    cbn in Hpos. split; [exact Hrange |]. cbn. intros _. lra.
  - unfold App.handleInteract.
    destruct (_ && _); split; assumption.
  - unfold App.handleWin. destruct (Nat.eqb _ _); split; assumption.
  - unfold App.escape. destruct (App.isPlaying _); split; assumption.
  - split; assumption.
Qed.

Lemma initGame_powered (st : App.State R) :
  Session.powered (App.initGame st).
Proof.
  unfold Session.powered, App.initGame. cbn. unfold Q2R. cbn.
  split; [lra | intros _; lra].
Qed.

Lemma run_powered (actions : list Session.Action) :
  forall st : App.State R,
    Session.powered st -> Session.powered (Session.run st actions).
Proof.
  unfold Session.run.
  induction actions as [| a rest IH]; intros st Hp; cbn.
  - exact Hp.
  - apply IH. destruct a as [i |]; cbn.
    + now apply step_powered.
    + apply initGame_powered.
Qed.

End Power.

(** X8.  Across whole sessions (any mix of catches, timers, battery ticks,
    light toggles, pick-ups, win, escape, danger updates and restarts), in
    exact arithmetic: the battery stays within [[0, 100]] and the light
    is on only while the battery is above 0; in particular an empty
    battery cannot be switched on, and one recharge tick later it can. *)
Theorem light_needs_charge :
  (forall (st : App.State R) (actions : list Session.Action),
      Session.powered st ->
      let st' := Session.run st actions in
      (0 <= App.battery st' <= 100)%R
      /\ (App.flashlightOn st' = true -> (0 < App.battery st')%R))
  /\ (forall st : App.State R,
        App.battery st = 0%R ->
        App.flashlightOn st = false ->
        App.isPlaying (App.gameState st) = true ->
        App.isScaring st = false ->
        App.flashlightOn (App.toggleFlashlight st) = false
        /\ App.flashlightOn
             (App.toggleFlashlight (App.batteryTick st)) = true).
Proof.
  split.
  - intros st actions Hp. exact (run_powered actions st Hp).
  - intros st Hb Hl Hg Hs. split.
    + unfold App.toggleFlashlight. rewrite Hs, Hb. cbn [negb andb].
      assert (E : ltb (lit 0) 0%R = false).
      { change (@ltb R Exact) with Real.ltb. apply Real_ltb_false.
        cbn. unfold Q2R. cbn. lra. }
      rewrite E. exact Hl.
    + destruct (batteryTick_off st Hg Hl) as [Hb' [Hl' Hg']].
      assert (Hs' : App.isScaring (App.batteryTick st) = false).
      { unfold App.batteryTick. rewrite Hg, Hl. exact Hs. }
      unfold App.toggleFlashlight. rewrite Hs', Hb', Hb. cbn [negb andb].
      assert (E : ltb (lit 0) (Rmin 100 (0 + 0.04)) = true).
      { replace (Rmin 100 (0 + 0.04)) with 0.04%R
          by (unfold Rmin; destruct (Rle_dec 100 (0 + 0.04)); lra).
        change (@ltb R Exact) with Real.ltb. apply Real_ltb_true.
        cbn. unfold Q2R. cbn. lra. }
      rewrite E. cbn. now rewrite Hl'.
Qed.

(** A session with a restart, and the empty battery. *)
Lemma light_needs_charge_witness :
  (0 <= App.battery (Session.run (App.initGame (@App.initial R Exact))
                                 Scenario.session) <= 100)%R
  /\ App.flashlightOn (App.toggleFlashlight Scenario.flat) = false
  /\ App.flashlightOn
       (App.toggleFlashlight (App.batteryTick Scenario.flat)) = true.
Proof.
  destruct light_needs_charge as [Hrun Hflat].
  split.
  - apply (Hrun (App.initGame (@App.initial R Exact)) Scenario.session).
    unfold Session.powered. cbn. unfold Q2R. cbn. split; [lra |].
    intros _. lra.
  - apply (Hflat Scenario.flat); reflexivity.
Defined.

(** X9.  [initGame] does not cancel the game-over timer of the episode
    before.  After a catch in play, leaving to the menu with Escape and
    starting again before the timer fires gives a game in play with the
    timer still pending; when it fires, the new episode ends in GAMEOVER
    although nothing was caught in it. *)
Theorem restart_keeps_the_old_timer :
  forall (T : Type) (N : JsNum T) (st : App.State T),
    App.isPlaying (App.gameState st) = true ->
    App.isScaring st = false ->
    let restarted :=
      Session.run st [Session.During App.Catch; Session.During App.Escape;
                      Session.InitGame] in
    App.gameState restarted = PLAYING
    /\ App.isScaring restarted = false
    /\ App.pendingTimeouts restarted = S (App.pendingTimeouts st)
    /\ App.gameState (App.timeout restarted) = GAMEOVER.
Proof.
  intros T N st Hg Hs. cbv zeta.
  unfold Session.run. cbn [fold_left Session.act App.step].
  unfold App.handleCatch. rewrite Hg, Hs. cbn [andb negb fst].
  unfold App.escape. cbn [App.gameState]. rewrite Hg.
  repeat split.
Qed.

(** The game of [Sample.playing], in binary64. *)
Lemma restart_keeps_the_old_timer_witness :
  App.gameState
    (Session.run Sample.playing
       [Session.During App.Catch; Session.During App.Escape;
        Session.InitGame]) = PLAYING
  /\ App.gameState
       (App.timeout
          (Session.run Sample.playing
             [Session.During App.Catch; Session.During App.Escape;
              Session.InitGame])) = GAMEOVER.
Proof.
  destruct (restart_keeps_the_old_timer float Float64 Sample.playing)
    as [Hplay [_ [_ Hover]]].
  - reflexivity.
  - reflexivity.
  - split; [exact Hplay | exact Hover].
Defined.

(** ** Keys *)

Section Keys.
Context {T : Type} `{JsNum T}.

Lemma state_eta (st : Player.State T) :
  Player.mkState (Player.moveState st) (Player.velocity st)
                 (Player.verticalVelocity st) (Player.isGrounded st)
                 (Player.footstepAudio st) (Player.footstepTimer st) = st.
Proof. now destruct st. Qed.

Lemma handleKeyUp_releases (st : Player.State T) (code : Player.KeyCode)
  (b : bool) :
  Play.held (Player.moveState st) code = Some b ->
  Play.held (Player.moveState (Player.handleKeyUp st code)) code
  = Some false.
Proof.
  destruct code; cbn; intros Hb; try discriminate; reflexivity.
Qed.

Lemma handleKeyDown_presses (props : Player.Props T) st code (b : bool) :
  Player.active props = true ->
  Player.isScaring props = false ->
  Play.held (Player.moveState st) code = Some b ->
  Play.held (Player.moveState (fst (Player.handleKeyDown props st code)))
            code = Some true.
Proof.
  intros Hact Hsc. unfold Player.handleKeyDown. rewrite Hact, Hsc.
  destruct code; cbn; intros Hb; try discriminate; reflexivity.
Qed.

Lemma press_release (props : Player.Props T) st code :
  Play.held (Player.moveState st) code = Some false ->
  Player.handleKeyUp (fst (Player.handleKeyDown props st code)) code = st.
Proof.
  intros Hup. unfold Player.handleKeyDown.
  destruct (negb (Player.active props) || Player.isScaring props);
    cbn [fst]; destruct st as [[f b l r sp j] v vv g a t];
    destruct code; cbn in Hup |- *; try discriminate;
    inversion Hup; subst; reflexivity.
Qed.

Lemma other_keys_untouched (props : Player.Props T) st code code' :
  code <> code' ->
  Play.held (Player.moveState (fst (Player.handleKeyDown props st code)))
            code'
  = Play.held (Player.moveState st) code'
  /\ Play.held (Player.moveState (Player.handleKeyUp st code)) code'
     = Play.held (Player.moveState st) code'.
Proof.
  intros Hne. unfold Player.handleKeyDown.
  destruct (negb (Player.active props) || Player.isScaring props);
    cbn [fst];
    destruct code, code'; try congruence; cbn;
    try (destruct (Player.isGrounded st)); cbn; auto.
Qed.

End Keys.

(** X10.  For the keys that stand for a flag of the move state (W, S, A,
    D and left Shift): releasing the key clears its flag whatever the
    props, also during a jumpscare; pressing it while the player is active
    and no jumpscare is on sets it; pressing and then releasing a key that
    was up gives back the state exactly; and neither touches the flag of
    another key. *)
Theorem keys_press_and_release :
  forall (T : Type) (N : JsNum T) (props : Player.Props T)
         (st : Player.State T) (code : Player.KeyCode) (b : bool),
    Play.held (Player.moveState st) code = Some b ->
    Play.held (Player.moveState (Player.handleKeyUp st code)) code
    = Some false
    /\ (Player.active props = true -> Player.isScaring props = false ->
        Play.held
          (Player.moveState (fst (Player.handleKeyDown props st code))) code
        = Some true)
    /\ (b = false ->
        Player.handleKeyUp (fst (Player.handleKeyDown props st code)) code
        = st)
    /\ (forall code', code <> code' ->
          Play.held
            (Player.moveState (fst (Player.handleKeyDown props st code)))
            code'
          = Play.held (Player.moveState st) code'
          /\ Play.held (Player.moveState (Player.handleKeyUp st code)) code'
             = Play.held (Player.moveState st) code').
Proof.
  intros T N props st code b Hheld.
  split; [exact (handleKeyUp_releases st code b Hheld) |].
  split; [intros Hact Hsc;
          exact (handleKeyDown_presses props st code b Hact Hsc Hheld) |].
  split.
  - intros ->. now apply press_release.
  - intros code' Hne. now apply other_keys_untouched.
Qed.

(** [KeyW] pressed and released by the standing player, in binary64. *)
Lemma keys_press_and_release_witness :
  Play.held
    (Player.moveState
       (fst (Player.handleKeyDown (Sample.playerProps []) Sample.standing
                                  Player.KeyW))) Player.KeyW
  = Some true
  /\ Player.handleKeyUp
       (fst (Player.handleKeyDown (Sample.playerProps []) Sample.standing
                                  Player.KeyW)) Player.KeyW
     = Sample.standing.
Proof.
  destruct (keys_press_and_release float Float64 (Sample.playerProps [])
              Sample.standing Player.KeyW false)
    as [_ [Hdown [Hback _]]].
  - reflexivity.
  - split; [apply Hdown; reflexivity | apply Hback; reflexivity].
Defined.

(** ** The obstacle field *)

Section Field.
Local Open Scope R_scope.

Lemma unit_exact (r : R) : World.unit r = true <-> 0 <= r < 1.
Proof.
  unfold World.unit. rewrite andb_true_iff.
  change (@leb R Exact) with Real.leb. change (@ltb R Exact) with Real.ltb.
  rewrite Real_leb_true, Real_ltb_true. cbn. unfold Q2R. cbn.
  split; intros [H0 H1]; split; lra.
Qed.

Lemma pickType_unit (r : R) :
  0 <= r < 1 -> exists type, World.pickType r = Some type.
Proof.
  intros [H0 H1]. unfold World.pickType.
  change (@ltb R Exact) with Real.ltb. unfold Real.ltb.
  cbn [mul lit Exact]. unfold Q2R. cbn.
  repeat match goal with
         | |- context [Rlt_dec ?a ?b] => destruct (Rlt_dec a b)
         end; eauto; exfalso; lra.
Qed.

Lemma collRadius_range (type : ObstacleType) (scale : R) :
  0.8 <= scale < 1.5 -> 0.8 <= World.collRadius type scale < 2.4.
Proof.
  intros Hs. unfold World.collRadius.
  destruct type; cbn; unfold Q2R; cbn; lra.
Qed.

(** What the generator makes of four fair draws. *)
Lemma worldObstacle_fair (d : World.Draws) :
  World.fair d = true ->
  exists o,
    World.worldObstacle d = Some o
    /\ Player.horizontalDistance (0, 0) o = 15 + World.forRadius d * 80
    /\ 0.8 <= scale o < 1.5
    /\ 0.8 <= radius o < 2.4.
Proof.
  unfold World.fair. rewrite !andb_true_iff, !unit_exact.
  intros [[[Ha Hr] Ht] Hs].
  destruct (pickType_unit _ Ht) as [type Htype].
  unfold World.worldObstacle. rewrite Htype.
  eexists. split; [reflexivity |].
  assert (Hscale : 0.8 <= lit 0.8 + World.forScale d * lit 0.7 < 1.5)
    by (cbn; unfold Q2R; cbn; lra).
  cbn [scale radius]. split; [| split; [exact Hscale |]].
  - unfold Player.horizontalDistance, position0, position2.
    cbn [obs_position fst snd sub mul add lit Math_sqrt Exact
         Math_cos Math_sin ExactMath Math_PI ExactConst].
    set (a := World.forAngle d * PI * Q2R 2).
    replace (Q2R 15 + World.forRadius d * Q2R 80)
      with (15 + World.forRadius d * 80) by (unfold Q2R; cbn; lra).
    set (r := 15 + World.forRadius d * 80).
    assert (Hr0 : 0 <= r) by (unfold r; lra).
    pose proof (sin2_cos2 a) as Hunit. unfold Rsqr in Hunit.
    replace ((0 - cos a * r) * (0 - cos a * r)
             + (0 - sin a * r) * (0 - sin a * r))
      with ((sin a * sin a + cos a * cos a) * (r * r)) by ring.
    rewrite Hunit, Rmult_1_l. apply sqrt_square. exact Hr0.
  - apply collRadius_range. exact Hscale.
Qed.

Lemma worldObstacles_fair (draws : list World.Draws) :
  forallb World.fair draws = true ->
  exists l,
    World.worldObstacles draws = Some l
    /\ List.length l = List.length draws
    /\ Forall (fun o =>
                 15 <= Player.horizontalDistance (0, 0) o < 95
                 /\ 0.8 <= radius o < 2.4) l.
Proof.
  induction draws as [| d rest IH]; intros Hfair.
  - exists []. cbn. auto.
  - cbn [forallb] in Hfair. apply andb_true_iff in Hfair as [Hd Hrest].
    destruct (IH Hrest) as [l [El [Hlen Hall]]].
    destruct (worldObstacle_fair d Hd) as [o [Eo [Hdist [_ Hrad]]]].
    exists (o :: l). cbn [World.worldObstacles]. rewrite Eo, El.
    split; [reflexivity |]. split; [cbn; now rewrite Hlen |].
    constructor; [| exact Hall].
    split; [| exact Hrad]. rewrite Hdist.
    unfold World.fair in Hd. rewrite !andb_true_iff, !unit_exact in Hd.
    lra.
Qed.

End Field.

(** X11.  With the real sine and cosine and draws in [[0, 1)], the
    generator gives one obstacle per draw; each lies between 15 and 95
    from the origin and has a collision radius between 0.8 and 2.4.  So
    the start of the player at the origin is outside every collision disc
    (the disc reaches at most 3 from its centre), and every obstacle is
    within the world boundary.  Nothing keeps obstacles apart: the same
    draws twice give two obstacles on one spot. *)
Theorem obstacle_field_leaves_the_start_free :
  (forall draws : list World.Draws,
      forallb World.fair draws = true ->
      exists l,
        World.worldObstacles draws = Some l
        /\ List.length l = List.length draws
        /\ Forall (fun o =>
                     (15 <= Player.horizontalDistance (0%R, 0%R) o < 95)%R
                     /\ (0.8 <= radius o < 2.4)%R
                     /\ (Player.radiusSum o
                         < Player.horizontalDistance (0%R, 0%R) o)%R
                     /\ (Rabs (position0 o) < 98.5)%R
                     /\ (Rabs (position2 o) < 98.5)%R) l)
  /\ (forall d : World.Draws,
        World.fair d = true ->
        exists o,
          World.worldObstacles [d; d] = Some [o; o]
          /\ ~ Player.separated [o; o]).
Proof.
  split.
  - intros draws Hfair.
    destruct (worldObstacles_fair draws Hfair) as [l [El [Hlen Hall]]].
    exists l. split; [exact El |]. split; [exact Hlen |].
    eapply Forall_impl; [| exact Hall].
    intros o [Hdist Hrad]. cbv beta.
    split; [exact Hdist |]. split; [exact Hrad |].
    assert (Hsum : (Player.radiusSum o < 15)%R).
    { unfold Player.radiusSum, Player.PLAYER_RADIUS. cbn.
      unfold Q2R. cbn. lra. }
    split; [lra |].
    assert (Hsq : (Player.horizontalDistance (0%R, 0%R) o
                   * Player.horizontalDistance (0%R, 0%R) o
                   = position0 o * position0 o
                     + position2 o * position2 o)%R).
    { unfold Player.horizontalDistance.
      cbn [fst snd sub mul add Math_sqrt Exact].
      rewrite sqrt_sqrt by apply squares2_nonneg. ring. }
    set (h := Player.horizontalDistance (0%R, 0%R) o) in *.
    clearbody h.
    pose proof (Rle_0_sqr (position0 o)) as Hx. unfold Rsqr in Hx.
    pose proof (Rle_0_sqr (position2 o)) as Hz. unfold Rsqr in Hz.
    split; apply Rabs_def1; nra.
  - intros d Hfair.
    destruct (worldObstacle_fair d Hfair) as [o [Eo [_ [_ Hrad]]]].
    exists o. cbn [World.worldObstacles]. rewrite Eo.
    split; [reflexivity |].
    intros [Hap _]. inversion Hap as [| ? ? Hoo _]; subst.
    unfold Player.apart, Player.horizontalDistance in Hoo.
    cbn [fst snd sub mul add Math_sqrt Exact] in Hoo.
    replace ((position0 o - position0 o) * (position0 o - position0 o)
             + (position2 o - position2 o) * (position2 o - position2 o))%R
      with 0%R in Hoo by ring.
    rewrite sqrt_0 in Hoo.
    unfold Player.radiusSum, Player.PLAYER_RADIUS in Hoo. cbn in Hoo.
    unfold Q2R in Hoo. cbn in Hoo. lra.
Qed.

(** One obstacle from the draws 0.25, 0.5, 0.3 and 0.5. *)
Lemma obstacle_field_leaves_the_start_free_witness :
  exists l,
    World.worldObstacles [Scenario.draws] = Some l
    /\ List.length l = 1
    /\ Forall (fun o =>
                 (15 <= Player.horizontalDistance (0%R, 0%R) o < 95)%R
                 /\ (0.8 <= radius o < 2.4)%R
                 /\ (Player.radiusSum o
                     < Player.horizontalDistance (0%R, 0%R) o)%R
                 /\ (Rabs (position0 o) < 98.5)%R
                 /\ (Rabs (position2 o) < 98.5)%R) l.
Proof.
  destruct obstacle_field_leaves_the_start_free as [Hfield _].
  apply (Hfield [Scenario.draws]).
  cbn [forallb]. unfold World.fair, Scenario.draws.
  cbn [World.forAngle World.forRadius World.forType World.forScale].
  rewrite !(proj2 (unit_exact _)) by lra. reflexivity.
Defined.

(** ** Custards *)

Section Scattering.

Lemma tooClose_exact (px pz : R) :
  Custards.tooClose px pz = false
  <-> (15 <= R_sqrt.sqrt (px * px + pz * pz)
       /\ 15 <= R_sqrt.sqrt (px * px + (pz + 40) * (pz + 40)))%R.
Proof.
  unfold Custards.tooClose. rewrite orb_false_iff.
  change (@ltb R Exact) with Real.ltb. rewrite !Real_ltb_false.
  cbn. unfold Q2R. cbn.
  replace (40 * / 1)%R with 40%R by lra.
  replace (15 * / 1)%R with 15%R by lra.
  reflexivity.
Qed.

Lemma scatter_done (i : nat) (draws : list (R * R)) :
  App.TOTAL_CUSTARDS <= i -> Custards.scatter i draws = Some [].
Proof.
  intros Hi. apply Nat.leb_le in Hi.
  destruct draws as [| [r1 r2] rest]; cbn [Custards.scatter];
    now rewrite Hi.
Qed.

(** What the loop returns, when it returns. *)
Lemma scatter_result (draws : list (R * R)) :
  forall (i : nat) (l : list (Custards.Custard R)),
    i <= App.TOTAL_CUSTARDS ->
    Forall (fun d => World.unit (fst d) = true
                     /\ World.unit (snd d) = true) draws ->
    Custards.scatter i draws = Some l ->
    Custards.ids l
    = map Custards.name (seq i (App.TOTAL_CUSTARDS - i))
    /\ Forall (fun c => Custards.clear c /\ Custards.inField c) l.
Proof.
  induction draws as [| [r1 r2] rest IH]; intros i l Hi Hunit Hs.
  - cbn [Custards.scatter] in Hs.
    destruct (Nat.leb App.TOTAL_CUSTARDS i) eqn:Hdone;
      [| discriminate].
    inversion Hs; subst. apply Nat.leb_le in Hdone.
    replace (App.TOTAL_CUSTARDS - i)%nat with 0%nat by lia.
    split; [reflexivity | constructor].
  - cbn [Custards.scatter] in Hs.
    inversion Hunit as [| ? ? [Hu1 Hu2] Hrest]; subst.
    destruct (Nat.leb App.TOTAL_CUSTARDS i) eqn:Hdone.
    + inversion Hs; subst. apply Nat.leb_le in Hdone.
      replace (App.TOTAL_CUSTARDS - i)%nat with 0%nat by lia.
      split; [reflexivity | constructor].
    + apply Nat.leb_gt in Hdone.
      destruct (Custards.tooClose _ _) eqn:Hclose.
      * now apply (IH i l).
      * destruct (Custards.scatter (S i) rest) as [l' |] eqn:Hs';
          [| discriminate].
        inversion Hs; subst.
        destruct (IH (S i) l' ltac:(lia) Hrest Hs') as [Hids Hall].
        split.
        -- cbn [Custards.ids map Custards.id]. unfold Custards.ids in Hids.
           rewrite Hids.
           replace (App.TOTAL_CUSTARDS - i)%nat
             with (S (App.TOTAL_CUSTARDS - S i)) by lia.
           reflexivity.
        -- constructor; [| exact Hall].
           apply tooClose_exact in Hclose.
           cbn [sub mul lit Exact] in Hclose.
           apply unit_exact in Hu1. apply unit_exact in Hu2.
           cbn [fst snd] in Hu1, Hu2.
           unfold Custards.clear, Custards.inField.
           cbn [Custards.custard_position fst snd].
           cbn [sub mul lit Exact]. split; [exact Hclose |].
           unfold Q2R. cbn. repeat split; lra.
Qed.

(** The loop returns once it has seen enough accepted draws. *)
Lemma scatter_total (draws : list (R * R)) :
  forall i : nat,
    App.TOTAL_CUSTARDS - i <= List.length (filter Custards.accepted draws) ->
    exists l, Custards.scatter i draws = Some l.
Proof.
  induction draws as [| [r1 r2] rest IH]; intros i Hn.
  - cbn [filter List.length] in Hn. exists []. apply scatter_done. lia.
  - cbn [Custards.scatter].
    destruct (Nat.leb App.TOTAL_CUSTARDS i) eqn:Hdone; [eauto |].
    cbn [filter] in Hn. unfold Custards.accepted at 1 in Hn.
    cbn [fst snd] in Hn.
    destruct (Custards.tooClose _ _); cbn [negb] in Hn.
    + apply IH. exact Hn.
    + cbn [List.length] in Hn.
      destruct (IH (S i) ltac:(lia)) as [l' ->]. eauto.
Qed.

(** ... and not before. *)
Lemma scatter_needs (draws : list (R * R)) :
  forall (i : nat) (l : list (Custards.Custard R)),
    Custards.scatter i draws = Some l ->
    App.TOTAL_CUSTARDS - i <= List.length (filter Custards.accepted draws).
Proof.
  induction draws as [| [r1 r2] rest IH]; intros i l Hs;
    cbn [Custards.scatter] in Hs;
    destruct (Nat.leb App.TOTAL_CUSTARDS i) eqn:Hdone;
    try (apply Nat.leb_le in Hdone; lia); try discriminate.
  apply Nat.leb_gt in Hdone.
  cbn [filter]. unfold Custards.accepted at 1. cbn [fst snd].
  destruct (Custards.tooClose _ _); cbn [negb].
  - now apply (IH i l).
  - destruct (Custards.scatter (S i) rest) as [l' |] eqn:Hs';
      [| discriminate].
    specialize (IH (S i) l' Hs'). cbn [List.length]. lia.
Qed.

End Scattering.

Lemma custard_names_differ : NoDup Custards.names.
Proof.
  unfold Custards.names. cbn.
  repeat (constructor;
          [cbn; intros Hin;
           repeat (destruct Hin as [Heq | Hin]; [discriminate |]);
           exact Hin |]).
  constructor.
Qed.

(** X12.  In exact arithmetic, with draws in [[0, 1)]: whenever the
    scatter loop of [initGame] ends, the list handed to [setCustards] has
    10 custards named house-1, house-2, c-2, ..., c-9, no name twice;
    every scattered one lies at height 0.2 inside the square
    [[-100, 100)] and at least 15 from the start and from the house at
    [[0, -40]].  The loop ends exactly when 8 of the pairs it draws pass
    the distance test; a rejected pair costs a draw, not a custard. *)
Theorem custards_are_scattered_clear :
  (forall (draws : list (R * R)) (l : list (Custards.Custard R)),
      Forall (fun d => World.unit (fst d) = true
                       /\ World.unit (snd d) = true) draws ->
      Custards.newCustards draws = Some l ->
      List.length l = App.TOTAL_CUSTARDS
      /\ Custards.ids l = Custards.names
      /\ NoDup (Custards.ids l)
      /\ Forall (fun c => Custards.clear c /\ Custards.inField c)
                (skipn 2 l))
  /\ (forall draws : list (R * R),
        (exists l, Custards.newCustards draws = Some l)
        <-> 8 <= List.length (filter Custards.accepted draws)).
Proof.
  split.
  - intros draws l Hunit Hnew. unfold Custards.newCustards in Hnew.
    destruct (Custards.scatter 2 draws) as [l' |] eqn:Hs; [| discriminate].
    assert (Hl : l = Custards.houses ++ l') by congruence.
    subst l. clear Hnew.
    destruct (scatter_result draws 2 l' ltac:(unfold App.TOTAL_CUSTARDS; lia)
                             Hunit Hs) as [Hids Hall].
    set (l := Custards.houses ++ l').
    assert (Hids' : Custards.ids l = Custards.names).
    { unfold l, Custards.names, Custards.houses.
      cbn [app Custards.ids map Custards.id].
      unfold Custards.ids in Hids. rewrite Hids. reflexivity. }
    split; [| split; [exact Hids' | split]].
    + apply (f_equal (@List.length _)) in Hids'.
      unfold Custards.ids in Hids'. rewrite length_map in Hids'.
      rewrite Hids'. reflexivity.
    + rewrite Hids'. exact custard_names_differ.
    + unfold l, Custards.houses. cbn [app skipn]. exact Hall.
  - intros draws. unfold Custards.newCustards. split.
    + intros [l Hnew].
      destruct (Custards.scatter 2 draws) as [l' |] eqn:Hs; [| discriminate].
      exact (scatter_needs draws 2 l' Hs).
    + intros Hn.
      destruct (scatter_total draws 2) as [l ->]; [exact Hn | eauto].
Qed.

Lemma far_accepted : Custards.accepted Scenario.far = true.
Proof.
  unfold Custards.accepted. apply negb_true_iff. apply tooClose_exact.
  unfold Scenario.far. cbn. unfold Q2R. cbn.
  replace 15%R with (R_sqrt.sqrt (15 * 15)) at 1 2
    by (rewrite sqrt_square; lra).
  split; apply sqrt_le_1_alt; lra.
Qed.

(** One rejected pair of draws followed by eight accepted ones. *)
Lemma custards_are_scattered_clear_witness :
  exists l,
    Custards.newCustards Scenario.pairs = Some l
    /\ List.length l = App.TOTAL_CUSTARDS
    /\ Custards.ids l = Custards.names
    /\ NoDup (Custards.ids l)
    /\ Forall (fun c => Custards.clear c /\ Custards.inField c)
              (skipn 2 l).
Proof.
  destruct custards_are_scattered_clear as [Hlist Hends].
  destruct (proj2 (Hends Scenario.pairs)) as [l Hl].
  - unfold Scenario.pairs. cbn [repeat filter].
    rewrite far_accepted.
    destruct (Custards.accepted Scenario.centre); cbn [List.length]; lia.
  - exists l. split; [exact Hl |].
    apply (Hlist Scenario.pairs l); [| exact Hl].
    assert (Hfar : World.unit (fst Scenario.far) = true
                   /\ World.unit (snd Scenario.far) = true)
      by (split; apply unit_exact; cbn; lra).
    assert (Hcentre : World.unit (fst Scenario.centre) = true
                      /\ World.unit (snd Scenario.centre) = true)
      by (split; apply unit_exact; cbn; lra).
    unfold Scenario.pairs. cbn [repeat].
    repeat (constructor; [assumption |]). constructor.
Defined.

(** ** Picking custards up *)

Section PickingUp.
Context {T : Type} {N : JsNum T}.

Lemma pickUps_count (hits : list String.string) :
  forall b : Custards.Board (T := T),
    Custards.collectedCount (Custards.pickUps b hits)
    = Custards.collectedCount b + List.length hits.
Proof.
  induction hits as [| h rest IH]; intros b.
  - cbn. lia.
  - cbn [Custards.pickUps fold_left]. fold (Custards.pickUps (Custards.pickUp b h) rest).
    rewrite IH. cbn. lia.
Qed.

Lemma pickUps_custards (hits : list String.string) :
  forall b : Custards.Board (T := T),
    Custards.custards (Custards.pickUps b hits)
    = filter (fun c => negb (existsb (String.eqb (Custards.id c)) hits))
             (Custards.custards b).
Proof.
  induction hits as [| h rest IH]; intros b.
  - cbn. induction (Custards.custards b) as [| c l IHl]; cbn;
      [reflexivity | now rewrite <- IHl].
  - cbn [Custards.pickUps fold_left].
    fold (Custards.pickUps (Custards.pickUp b h) rest).
    rewrite IH. cbn [Custards.pickUp Custards.custards].
    induction (Custards.custards b) as [| c l IHl]; [reflexivity |].
    cbn [filter existsb].
    destruct (String.eqb (Custards.id c) h); cbn [negb orb].
    + exact IHl.
    + cbn [filter]. destruct (existsb _ rest); cbn [negb];
        [exact IHl | now rewrite IHl].
Qed.

Lemma existsb_eqb_In (hits : list String.string) (s : String.string) :
  existsb (String.eqb s) hits = true <-> In s hits.
Proof.
  rewrite existsb_exists. split.
  - intros [h [Hin Heq]]. apply String.eqb_eq in Heq. now subst.
  - intros Hin. exists s. split; [exact Hin | apply String.eqb_refl].
Qed.

(** Taking distinct names that are all there shortens the list by their
    number. *)
Lemma pickUps_length (l : list (Custards.Custard T)) :
  forall hits : list String.string,
    NoDup (Custards.ids l) ->
    NoDup hits ->
    incl hits (Custards.ids l) ->
    List.length
      (filter (fun c => negb (existsb (String.eqb (Custards.id c)) hits)) l)
    + List.length hits
    = List.length l.
Proof.
  induction l as [| c l IH]; intros hits Hl Hhits Hincl.
  - destruct hits as [| h rest]; [reflexivity |].
    destruct (Hincl h (or_introl eq_refl)).
  - cbn [Custards.ids map] in Hl. inversion Hl as [| ? ? Hc Hl']; subst.
    cbn [filter].
    destruct (existsb (String.eqb (Custards.id c)) hits) eqn:Hex;
      cbn [negb List.length].
    + apply existsb_eqb_In in Hex.
      destruct (in_split _ _ Hex) as [h1 [h2 ->]].
      apply NoDup_remove in Hhits. destruct Hhits as [Hhits Hnot].
      assert (Hincl' : incl (h1 ++ h2) (Custards.ids l)).
      { intros h Hin.
        assert (Hin' : In h (h1 ++ Custards.id c :: h2))
          by (apply in_app_iff; apply in_app_iff in Hin;
              destruct Hin; [left | right; right]; assumption).
        destruct (Hincl h Hin') as [Heq | Hthere]; [| exact Hthere].
        subst h. contradiction. }
      specialize (IH (h1 ++ h2) Hl' Hhits Hincl').
      rewrite length_app in *. cbn [List.length].
      rewrite <- IH.
      replace (filter (fun c0 => negb (existsb (String.eqb (Custards.id c0))
                                         (h1 ++ Custards.id c :: h2))) l)
        with (filter (fun c0 => negb (existsb (String.eqb (Custards.id c0))
                                        (h1 ++ h2))) l); [lia |].
      apply filter_ext_in. intros c0 Hc0. f_equal.
      rewrite !existsb_app. cbn [existsb].
      destruct (String.eqb (Custards.id c0) (Custards.id c)) eqn:Heq;
        [| reflexivity].
      apply String.eqb_eq in Heq. exfalso. apply Hc. rewrite <- Heq.
      unfold Custards.ids. now apply in_map.
    + assert (Hincl' : incl hits (Custards.ids l)).
      { intros h Hin. destruct (Hincl h Hin) as [Heq | Hthere];
          [| exact Hthere].
        subst h. apply existsb_eqb_In in Hin. congruence. }
      specialize (IH hits Hl' Hhits Hincl'). lia.
Qed.

End PickingUp.

(** X13.  Picking up distinct custards that are lying around, in any
    order and under either arithmetic: the count rises by their number,
    the list loses exactly the custards picked and keeps the others in
    their order, and count plus custards left stays what it was.  So in a
    game that starts with 10 custards and count 0 the count is 10, which
    is what [handleWin] asks for, exactly when none is left. *)
Theorem pickups_count_what_is_gone :
  forall (T : Type) (b : Custards.Board (T := T))
         (hits : list String.string),
    NoDup (Custards.ids (Custards.custards b)) ->
    NoDup hits ->
    incl hits (Custards.ids (Custards.custards b)) ->
    let b' := Custards.pickUps b hits in
    Custards.collectedCount b'
    = Custards.collectedCount b + List.length hits
    /\ Custards.custards b'
       = filter (fun c => negb (existsb (String.eqb (Custards.id c)) hits))
                (Custards.custards b)
    /\ Custards.collectedCount b' + List.length (Custards.custards b')
       = Custards.collectedCount b + List.length (Custards.custards b)
    /\ (List.length (Custards.custards b) = App.TOTAL_CUSTARDS ->
        Custards.collectedCount b = 0 ->
        (Nat.eqb (Custards.collectedCount b') App.TOTAL_CUSTARDS = true
         <-> Custards.custards b' = [])).
Proof.
  intros T b hits Hb Hhits Hincl b'.
  assert (Hcount := pickUps_count (T := T) hits b).
  assert (Hleft := pickUps_custards (T := T) hits b).
  assert (Hlen := pickUps_length (Custards.custards b) hits Hb Hhits Hincl).
  fold b' in Hcount, Hleft. rewrite <- Hleft in Hlen.
  split; [exact Hcount | split; [exact Hleft | split; [lia |]]].
  intros Hten Hzero. rewrite Nat.eqb_eq. split.
  - intros Hall. apply length_zero_iff_nil. lia.
  - intros Hnil. rewrite Hnil in Hlen. cbn [List.length] in Hlen. lia.
Qed.

(** Both custards at the house, picked up in reverse order. *)
Lemma pickups_count_what_is_gone_witness :
  Custards.collectedCount
    (Custards.pickUps (Custards.mkBoard Custards.houses 0)
                      (rev (Custards.ids Custards.houses)))
  = 2
  /\ Custards.custards
       (Custards.pickUps (Custards.mkBoard Custards.houses 0)
                         (rev (Custards.ids Custards.houses)))
     = @nil (Custards.Custard float).
Proof.
  destruct (pickups_count_what_is_gone float
              (Custards.mkBoard Custards.houses 0)
              (rev (Custards.ids Custards.houses)))
    as [Hcount [Hleft _]].
  - cbn. repeat constructor; cbn; intuition discriminate.
  - cbn. repeat constructor; cbn; intuition discriminate.
  - intros h Hin. apply in_rev in Hin. exact Hin.
  - split; [exact Hcount | rewrite Hleft; reflexivity].
Defined.

(** ** The monster between jumpscares *)

Section MonsterSession.
Context {T : Type} `{JsNum T} `{JsMath T} `{Monster.Object3D T}.

Lemma step_height (st : Monster.State T) (i : Monster.Input) :
  Chase.pursuing i = true ->
  Chase.height (Monster.step st i) = Chase.height st.
Proof.
  destruct i as [a | props cam delta]; intros Hp; [reflexivity |].
  cbn [Chase.pursuing] in Hp. apply negb_true_iff in Hp.
  unfold Monster.step, Monster.useFrame, Chase.height. rewrite Hp.
  destruct (Monster.active props); cbn [negb]; [| reflexivity].
  destruct (Monster.meshRef st) as [mesh |] eqn:Hmesh; cbn [fst];
    [reflexivity | now rewrite Hmesh].
Qed.

Lemma run_height (inputs : list Monster.Input) :
  forall st : Monster.State T,
    forallb Chase.pursuing inputs = true ->
    Chase.height (Chase.run st inputs) = Chase.height st.
Proof.
  induction inputs as [| i rest IH]; intros st Hall; [reflexivity |].
  cbn [forallb] in Hall. apply andb_true_iff in Hall.
  destruct Hall as [Hi Hrest].
  unfold Chase.run. cbn [fold_left].
  fold (Chase.run (Monster.step st i) rest).
  rewrite (IH _ Hrest). now apply step_height.
Qed.

End MonsterSession.

(** X14.  Outside a jumpscare nothing changes the height of the monster:
    through any session of effects and frames that do not scare, under
    either arithmetic, it stays where the group was created.  With the
    monster at height 0 and the camera never below 1.7, the catch test on
    the 3D distance asks for a horizontal distance below the square root
    of [1.9 * 1.9 - 1.7 * 1.7 = 0.72]. *)
Theorem monster_stays_on_the_ground :
  (forall (T : Type) (N : JsNum T) (M : JsMath T) (O : Monster.Object3D T)
          (st : Monster.State T) (inputs : list Monster.Input),
      forallb Chase.pursuing inputs = true ->
      Chase.height (Chase.run st inputs) = Chase.height st)
  /\ (forall (M : JsMath R) (O : Monster.Object3D R)
             (props : Monster.Props R) cam st delta,
        Chase.height st = Some 0%R ->
        (1.7 <= y (position cam))%R ->
        Monster.caught (snd (Monster.useFrame props cam st delta)) = true ->
        exists mesh,
          Monster.meshRef st = Some mesh
          /\ (Monster.offset2 (position cam) (Monster.mesh_position mesh)
              < 0.72)%R).
Proof.
  split.
  - intros T N M O st inputs. apply run_height.
  - intros M O props cam st delta Hh Hcam Hcaught.
    unfold Chase.height in Hh.
    destruct (Monster.meshRef st) as [mesh |] eqn:Hmesh; [| discriminate].
    cbn in Hh. injection Hh as Hy.
    exists mesh. split; [reflexivity |].
    destruct (Monster.active props) eqn:Hact.
    2:{ rewrite useFrame_not_pursuing_caught in Hcaught by now left.
        discriminate. }
    destruct (Monster.isScaring props) eqn:Hsc.
    1:{ rewrite useFrame_not_pursuing_caught in Hcaught by now right.
        discriminate. }
    rewrite (useFrame_pursuing_caught props cam st mesh delta Hact Hsc Hmesh)
      in Hcaught.
    change (@ltb R Exact) with Real.ltb in Hcaught.
    apply Real_ltb_true in Hcaught. literals.
    assert (Hsq := distance_square (Monster.mesh_position mesh)
                                   (position cam)).
    assert (Hd0 : (0 <= distanceTo (Monster.mesh_position mesh)
                                   (position cam))%R) by apply sqrt_pos.
    rewrite Hy in Hsq.
    set (d := distanceTo _ _) in *. set (o := Monster.offset2 _ _) in *.
    clearbody d o. nra.
Qed.

(** Two frames and an effect in binary64, and a monster one and a half
    beside the camera. *)
Lemma monster_stays_on_the_ground_witness :
  Chase.height
    (Chase.run Sample.monster
       [Monster.Frame Sample.pursuing Sample.camera (lit 0.016);
        Monster.Effect true;
        Monster.Frame Sample.dormant Sample.camera (lit 0.016)])
  = Chase.height Sample.monster
  /\ exists mesh,
       Monster.meshRef Scenario.lurking = Some mesh
       /\ (Monster.offset2 (position ExactSample.camera)
                           (Monster.mesh_position mesh) < 0.72)%R.
Proof.
  destruct monster_stays_on_the_ground as [Hheight Hreach].
  split.
  - apply (Hheight float Float64 Sample.Math_yaw0 Sample.lookAt_none).
    reflexivity.
  - apply (Hreach ExactMath Scenario.lookAt_none Scenario.pursuing
                  ExactSample.camera Scenario.lurking 0.016%R).
    + reflexivity.
    + cbn. lra.
    + rewrite (useFrame_pursuing_caught Scenario.pursuing
                 ExactSample.camera Scenario.lurking
                 (Monster.mkMesh (mkVector3 1.5%R 0%R 0%R)
                                 (mkEuler 0%R 0%R 0%R)) 0.016%R)
        by reflexivity.
      change (@ltb R Exact) with Real.ltb. apply Real_ltb_true.
      unfold distanceTo, distanceToSquared. cbn. unfold Q2R. cbn.
      replace (19 * / 10)%R with (R_sqrt.sqrt (1.9 * 1.9))
        by (rewrite sqrt_square; lra).
      apply sqrt_lt_1_alt. lra.
Defined.

(** ** The monster's yaw *)

Lemma atan2_range (b a : R) : Chase.angle (Real.atan2 b a).
Proof.
  unfold Chase.angle, Real.atan2.
  assert (Hpi := PI_RGT_0).
  assert (Hat := atan_bound (b / a)).
  destruct (Rlt_dec 0 a); [lra |].
  destruct (Rlt_dec a 0) as [Ha |].
  - destruct (Rle_dec 0 b) as [Hb | Hb].
    + assert (Hq : (b / a <= 0)%R).
      { assert (Hinv := Rinv_lt_0_compat a Ha). unfold Rdiv. nra. }
      assert (Hle : (atan (b / a) <= 0)%R).
      { destruct Hq as [Hq | Hq].
        - left. rewrite <- atan_0. now apply atan_increasing.
        - rewrite Hq, atan_0. lra. }
      lra.
    + assert (Hq : (0 < b / a)%R).
      { assert (Hinv := Rinv_lt_0_compat a Ha). unfold Rdiv. nra. }
      assert (Hgt : (0 < atan (b / a))%R)
        by (rewrite <- atan_0; now apply atan_increasing).
      lra.
  - destruct (Rlt_dec 0 b); [lra |].
    destruct (Rlt_dec b 0); lra.
Qed.

Section Yaw.
Context {O : Monster.Object3D R}.

Lemma lerp_exact (a b : R) : lerp a b (lit 0.1) = (0.9 * a + 0.1 * b)%R.
Proof. unfold lerp. cbn. unfold Q2R. cbn. lra. Qed.

Lemma pursue_yaw (p : Vector3 R) (mesh : Monster.Mesh R) (delta : R) :
  ey (Monster.mesh_rotation (Monster.pursue p mesh delta))
  = (0.9 * ey (Monster.mesh_rotation mesh)
     + 0.1 * Chase.facing p mesh)%R.
Proof.
  unfold Monster.pursue, Chase.facing.
  cbn [Monster.mesh_rotation ey]. apply lerp_exact.
Qed.

Lemma step_yaw (st : Monster.State R) (i : Monster.Input) :
  Chase.pursuing i = true ->
  (forall a, Chase.yaw st = Some a -> Chase.angle a) ->
  forall a, Chase.yaw (Monster.step st i) = Some a -> Chase.angle a.
Proof.
  destruct i as [e | props cam delta]; intros Hp Hst a; [apply Hst |].
  cbn [Chase.pursuing] in Hp. apply negb_true_iff in Hp.
  unfold Monster.step, Monster.useFrame. rewrite Hp.
  destruct (Monster.active props); cbn [negb fst]; [| apply Hst].
  unfold Chase.yaw in *.
  destruct (Monster.meshRef st) as [mesh |] eqn:Hmesh;
    cbn [fst Monster.meshRef option_map]; [| rewrite Hmesh; discriminate].
  rewrite pursue_yaw. specialize (Hst _ eq_refl).
  assert (Hf : Chase.angle (Chase.facing (position cam) mesh))
    by apply atan2_range.
  assert (Hnew : Chase.angle (0.9 * ey (Monster.mesh_rotation mesh)
                              + 0.1 * Chase.facing (position cam) mesh))
    by (unfold Chase.angle in *; lra).
  intros Ha. now injection Ha as <-.
Qed.

Lemma run_yaw (inputs : list Monster.Input) :
  forall st : Monster.State R,
    forallb Chase.pursuing inputs = true ->
    (forall a, Chase.yaw st = Some a -> Chase.angle a) ->
    forall a, Chase.yaw (Chase.run st inputs) = Some a -> Chase.angle a.
Proof.
  induction inputs as [| i rest IH]; intros st Hall Hst; [exact Hst |].
  cbn [forallb] in Hall. apply andb_true_iff in Hall.
  destruct Hall as [Hi Hrest].
  unfold Chase.run. cbn [fold_left].
  fold (Chase.run (Monster.step st i) rest).
  apply (IH _ Hrest). now apply step_yaw.
Qed.

End Yaw.

(** X15.  With the real [atan2]: a pursuit frame turns the monster a
    tenth of the way from its yaw to the angle towards the camera, so the
    gap between them shrinks to 0.9 of what it was, whatever the frame
    time; and a yaw within [[-PI, PI]] stays within it through every
    session of effects and frames that do not scare. *)
Theorem monster_turns_a_tenth_per_frame :
  forall (O : Monster.Object3D R),
    (forall (props : Monster.Props R) cam st mesh delta,
        Monster.active props = true ->
        Monster.isScaring props = false ->
        Monster.meshRef st = Some mesh ->
        exists a',
          Chase.yaw (fst (Monster.useFrame props cam st delta)) = Some a'
          /\ (a' - Chase.facing (position cam) mesh
              = 0.9 * (ey (Monster.mesh_rotation mesh)
                       - Chase.facing (position cam) mesh))%R)
    /\ (forall (st : Monster.State R) (inputs : list Monster.Input),
          forallb Chase.pursuing inputs = true ->
          (forall a, Chase.yaw st = Some a -> Chase.angle a) ->
          forall a, Chase.yaw (Chase.run st inputs) = Some a ->
                    Chase.angle a).
Proof.
  intros O. split.
  - intros props cam st mesh delta Hact Hsc Hmesh.
    unfold Monster.useFrame. rewrite Hact, Hmesh, Hsc.
    cbn [negb fst Chase.yaw Monster.meshRef option_map].
    eexists. split; [reflexivity |].
    rewrite pursue_yaw. lra.
  - intros st inputs. apply run_yaw.
Qed.

(** The lurking monster, turned by one frame. *)
Lemma monster_turns_a_tenth_per_frame_witness :
  (exists a',
      Chase.yaw (fst (Monster.useFrame Scenario.pursuing ExactSample.camera
                                       Scenario.lurking 0.016%R))
      = Some a'
      /\ (a' - Chase.facing (position ExactSample.camera)
                            (Monster.mkMesh (mkVector3 1.5%R 0%R 0%R)
                                            (mkEuler 0%R 0%R 0%R))
          = 0.9 * (0 - Chase.facing (position ExactSample.camera)
                                    (Monster.mkMesh (mkVector3 1.5%R 0%R 0%R)
                                                    (mkEuler 0%R 0%R 0%R))))%R)
  /\ forall a,
       Chase.yaw
         (Chase.run Scenario.lurking
            [Monster.Frame Scenario.pursuing ExactSample.camera 0.016%R;
             Monster.Effect true])
       = Some a ->
       Chase.angle a.
Proof.
  destruct (monster_turns_a_tenth_per_frame Scenario.lookAt_none)
    as [Hturn Hrun].
  split.
  - apply (Hturn Scenario.pursuing ExactSample.camera Scenario.lurking
                 (Monster.mkMesh (mkVector3 1.5%R 0%R 0%R)
                                 (mkEuler 0%R 0%R 0%R)) 0.016%R);
      reflexivity.
  - apply Hrun; [reflexivity |].
    intros a Ha. injection Ha as <-.
    unfold Chase.angle. assert (Hpi := PI_RGT_0). lra.
Defined.

(** ** Key presses that reach the orchestrator *)

Section KeysToApp.
Context {T : Type} `{JsNum T}.

Lemma handleKeyDown_events (props : Player.Props T) (st : Player.State T)
  (code : Player.KeyCode) (e : Player.Event T) :
  In e (snd (Player.handleKeyDown props st code)) ->
  Player.active props = true
  /\ Player.isScaring props = false
  /\ (code = Player.KeyF /\ e = Player.onToggleFlashlight
      \/ code = Player.KeyE /\ e = Player.onInteract).
Proof.
  unfold Player.handleKeyDown.
  destruct (Player.active props), (Player.isScaring props);
    cbn [negb orb snd]; try (intros []).
  destruct code; cbn [snd]; intros Hin;
    try (destruct Hin as []; fail).
  - destruct (Player.isGrounded st); destruct Hin.
  - destruct Hin as [<- | []]. auto.
  - destruct Hin as [<- | []]. auto.
Qed.

End KeysToApp.

(** X16.  With the props the orchestrator hands down, a key press makes
    the player call out only for F (the light) and E (interact), and only
    while the game is in play and no jumpscare runs.  So when the call
    arrives, the guard of [handleInteract] holds and a hit custard is
    always counted, and the light toggle depends on the battery alone: it
    flips the light when the battery is above 0 and does nothing
    otherwise. *)
Theorem key_calls_arrive_only_in_play :
  forall (T : Type) (N : JsNum T) (obstacles : list (Obstacle T))
         (app : App.State T) (st : Player.State T) (code : Player.KeyCode)
         (e : Player.Event T),
    In e (snd (Player.handleKeyDown (App.playerProps obstacles app) st
                                    code)) ->
    (code = Player.KeyF /\ e = Player.onToggleFlashlight
     \/ code = Player.KeyE /\ e = Player.onInteract)
    /\ App.isPlaying (App.gameState app) = true
    /\ App.isScaring app = false
    /\ App.collectedCount (App.handleInteract app)
       = S (App.collectedCount app)
    /\ App.flashlightOn (App.toggleFlashlight app)
       = (if ltb (lit 0) (App.battery app)
          then negb (App.flashlightOn app) else App.flashlightOn app).
Proof.
  intros T N obstacles app st code e Hin.
  destruct (handleKeyDown_events _ st code e Hin) as [Hact [Hsc Hcall]].
  cbn [App.playerProps Player.active Player.isScaring] in Hact, Hsc.
  split; [exact Hcall |]. split; [exact Hact |]. split; [exact Hsc |].
  unfold App.handleInteract, App.toggleFlashlight.
  rewrite Hact, Hsc. cbn [negb andb].
  split; [reflexivity |].
  destruct (ltb (lit 0) (App.battery app)); reflexivity.
Qed.

(** The E key pressed by the standing player in the game of
    [Sample.playing], in binary64. *)
Lemma key_calls_arrive_only_in_play_witness :
  App.isPlaying (App.gameState Sample.playing) = true
  /\ App.collectedCount (App.handleInteract Sample.playing) = 1.
Proof.
  destruct (key_calls_arrive_only_in_play float Float64 [] Sample.playing
              Sample.standing Player.KeyE Player.onInteract)
    as [_ [Hplay [_ [Hcount _]]]].
  - cbn. left. reflexivity.
  - split; [exact Hplay | exact Hcount].
Defined.
